(** * The request-validation / error-taxonomy / rate-limiting core of shop-test

    A shallow embedding of
      - app/utils/errorHandler.js  (typed errors, factories, required fields),
      - app/utils/validation.js    (sanitizeInput, validateInput,
                                    validateAndSanitizeRequest),
      - app/utils/rateLimiter.js   (fixed-window limiter, token bucket,
                                    the wrapper of route handlers),
      - app/utils/apiClient.js     (the request loop with its retries, the
                                    headers, the Shopify client),
      - app/utils/middleware.js    (the headers for embedding),
    together with the fragment of the JavaScript runtime these files use.

    Modelling conventions.
      - A JavaScript value is one of undefined, null, a boolean, a number, a
        string, an array or a plain object: what a parsed request body holds.
      - A string is a sequence of code units below 256 (the Latin-1 range);
        [trim], [toLowerCase] and the character classes are exact there.
      - A number is NaN, an infinity, or an exact decimal [m * 10^e].  The
        decimal stands for the IEEE double of the program on the decimals of
        at most 15 significant digits in range ([exact]); a statement that
        gives the value of a computed number is made for these.  The sign of
        zero is not tracked.
      - The conversion of an object to a primitive throws a TypeError when
        the object has a property of its own named toString ([convertible]).
      - An object used as a dictionary is a [gmap] of its own properties.
        Where the program looks a name up in such an object, the names that
        every object inherits from [Object.prototype] ([inherited]) are
        either modelled or excluded by a hypothesis of the statement.
      - The token bucket computes in rationals; a statement that gives the
        amounts it computes is made for whole numbers of tokens, where the
        doubles of the program are exact.
      - A [throw] is the [Throw] result of the error monad [result].
      - The clock and the random draw are inputs of the functions that read
        them, and so is what each call of [fetch] comes to; the console
        output of the logger is left out. *)

From Stdlib Require Import ZArith QArith Qround Qminmax Lqa Ascii String List Bool.
From Stdlib Require Import DecimalString.
From stdpp Require Import gmap strings list fin_maps.

Local Open Scope string_scope.
Local Open Scope Z_scope.

(* String concatenation computes under [simpl] in this file. *)
#[local] Arguments String.append !_ _ / : simpl nomatch.

(** ** The JavaScript runtime fragment *)

Module JS.

(** *** Characters *)

Definition code (c : ascii) : N := N_of_ascii c.

Definition in_range (lo hi : N) (c : ascii) : bool :=
  ((lo <=? code c) && (code c <=? hi))%N.

Definition is_char (d c : ascii) : bool := Ascii.eqb c d.

Definition is_digit (c : ascii) : bool := in_range 48 57 c.
Definition is_upper (c : ascii) : bool := in_range 65 90 c.
Definition is_lower (c : ascii) : bool := in_range 97 122 c.
Definition is_alpha (c : ascii) : bool := is_upper c || is_lower c.
Definition is_alnum (c : ascii) : bool := is_alpha c || is_digit c.

(** [\w], [\s] and the control characters [\x00-\x1F\x7F]. *)
Definition is_word (c : ascii) : bool := is_alnum c || is_char "_" c.
Definition is_space (c : ascii) : bool :=
  in_range 9 13 c || (code c =? 32)%N || (code c =? 160)%N.
Definition is_control (c : ascii) : bool :=
  in_range 0 31 c || (code c =? 127)%N.

(** Membership in a literal set of characters, written as a string. *)
Fixpoint one_of (set : string) (c : ascii) : bool :=
  match set with
  | EmptyString => false
  | String d set' => Ascii.eqb c d || one_of set' c
  end.

(** The upper-case letters of Latin-1 are A-Z and U+00C0..U+00DE without the
    multiplication sign U+00D7; each lower-cases by adding 32. *)
Definition is_upper_latin1 (c : ascii) : bool :=
  is_upper c || (in_range 192 222 c && negb (code c =? 215)%N).

Definition lower_char (c : ascii) : ascii :=
  if is_upper_latin1 c then ascii_of_N (code c + 32) else c.

(** *** Strings *)

Fixpoint str_map (f : ascii -> ascii) (s : string) : string :=
  match s with
  | EmptyString => EmptyString
  | String c s' => String (f c) (str_map f s')
  end.

Fixpoint str_filter (p : ascii -> bool) (s : string) : string :=
  match s with
  | EmptyString => EmptyString
  | String c s' => if p c then String c (str_filter p s') else str_filter p s'
  end.

Definition toLowerCase (s : string) : string := str_map lower_char s.

Fixpoint trimStart (s : string) : string :=
  match s with
  | EmptyString => EmptyString
  | String c s' => if is_space c then trimStart s' else s
  end.

Fixpoint trimEnd (s : string) : string :=
  match s with
  | EmptyString => EmptyString
  | String c s' =>
      match trimEnd s' with
      | EmptyString => if is_space c then EmptyString else String c EmptyString
      | t => String c t
      end
  end.

Definition trim (s : string) : string := trimEnd (trimStart s).

(** [s.replace(/[...]/g, '')]: delete every character of the class. *)
Definition remove_all (p : ascii -> bool) (s : string) : string :=
  str_filter (fun c => negb (p c)) s.

(** [s.replace(/\s+/g, ' ')]: every maximal run of white space becomes one
    space. *)
Fixpoint collapse_from (in_run : bool) (s : string) : string :=
  match s with
  | EmptyString => EmptyString
  | String c s' =>
      if is_space c then
        if in_run then collapse_from true s'
        else String " " (collapse_from true s')
      else String c (collapse_from false s')
  end.

Definition collapse_spaces (s : string) : string := collapse_from false s.

Fixpoint take (n : nat) (s : string) : string :=
  match n, s with
  | S n', String c s' => String c (take n' s')
  | _, _ => EmptyString
  end.

Fixpoint startsWith (p s : string) : bool :=
  match p, s with
  | EmptyString, _ => true
  | String a p', String b s' => Ascii.eqb a b && startsWith p' s'
  | String _ _, EmptyString => false
  end.

(** [s.endsWith(suf)]: some tail of [s] is [suf]. *)
Fixpoint endsWith (suf s : string) : bool :=
  String.eqb s suf ||
  match s with
  | EmptyString => false
  | String _ s' => endsWith suf s'
  end.

(** [s.includes(sub)]. *)
Fixpoint includes (sub s : string) : bool :=
  startsWith sub s ||
  match s with
  | EmptyString => false
  | String _ s' => includes sub s'
  end.

(** [xs.join(sep)] on strings. *)
Fixpoint join (sep : string) (xs : list string) : string :=
  match xs with
  | [] => ""
  | [x] => x
  | x :: xs' => x ++ sep ++ join sep xs'
  end.

(** A string that does not start with white space. *)
Definition head_not_space (s : string) : Prop :=
  match s with
  | EmptyString => True
  | String c _ => is_space c = false
  end.

(** [span p s]: the longest prefix of [s] satisfying [p], and the rest. *)
Fixpoint span (p : ascii -> bool) (s : string) : string * string :=
  match s with
  | EmptyString => (EmptyString, EmptyString)
  | String c s' =>
      if p c then let (a, b) := span p s' in (String c a, b)
      else (EmptyString, s)
  end.

(** *** Numbers *)

Inductive num : Type :=
| NaN
| Inf (negative : bool)
| Dec (m e : Z).               (* m * 10^e, kept without trailing zeros *)

Fixpoint strip_zeros (fuel : nat) (m e : Z) : Z * Z :=
  match fuel with
  | O => (m, e)
  | S fuel' =>
      if m =? 0 then (0, 0)
      else if m mod 10 =? 0 then strip_zeros fuel' (m / 10) (e + 1)
      else (m, e)
  end.

Definition mk_dec (m e : Z) : num :=
  let (m', e') := strip_zeros (S (Z.to_nat (Z.log2 (Z.abs m)))) m e in
  Dec m' e'.

Definition of_Z (z : Z) : num := mk_dec z 0.

Definition isNaN (n : num) : bool :=
  match n with NaN => true | _ => false end.

(** [a < b] on numbers; false as soon as one side is NaN. *)
Definition num_lt (a b : num) : bool :=
  match a, b with
  | NaN, _ | _, NaN => false
  | Inf true, Inf true => false
  | Inf true, _ => true
  | _, Inf true => false
  | Inf false, _ => false
  | _, Inf false => true
  | Dec m1 e1, Dec m2 e2 =>
      let e := Z.min e1 e2 in
      m1 * 10 ^ (e1 - e) <? m2 * 10 ^ (e2 - e)
  end.

Definition num_gt (a b : num) : bool := num_lt b a.

(** Is the number zero or NaN, the two falsy numbers. *)
Definition num_falsy (n : num) : bool :=
  match n with
  | NaN => true
  | Dec m _ => m =? 0
  | Inf _ => false
  end.

(** The decimals that stand for one double each: at most 15 significant
    digits, written without trailing zeros, with a magnitude in the range of
    the normal doubles.  The double nearest to such a decimal prints back as
    the same digits, and rounding keeps two of them apart and in order; so
    on these decimals a comparison, the end of a [slice] and [toString] are
    what the program computes on its doubles.  NaN and the infinities stand
    for themselves. *)
Definition exact (n : num) : bool :=
  match n with
  | Dec m e =>
      if m =? 0 then e =? 0
      else negb (m mod 10 =? 0) && (Z.abs m <? 10 ^ 15)
           && (-307 <=? e) && (e <=? 293)
  | _ => true
  end.

(** ToIntegerOrInfinity, as used by [slice]: truncation towards zero. *)
Inductive int_or_inf : Type := IFin (z : Z) | IPosInf | INegInf.

Definition to_integer (n : num) : int_or_inf :=
  match n with
  | NaN => IFin 0
  | Inf false => IPosInf
  | Inf true => INegInf
  | Dec m e => IFin (if 0 <=? e then m * 10 ^ e else Z.quot m (10 ^ (- e)))
  end.

(** The end index of [x.slice(0, n)] on a sequence of length [len]. *)
Definition slice_end (n : num) (len : nat) : nat :=
  match to_integer n with
  | INegInf => O
  | IPosInf => len
  | IFin z =>
      if z <? 0 then Z.to_nat (Z.max (Z.of_nat len + z) 0)
      else Z.to_nat (Z.min z (Z.of_nat len))
  end.

Definition str_slice0 (n : num) (s : string) : string :=
  take (slice_end n (String.length s)) s.

Definition list_slice0 {A} (n : num) (l : list A) : list A :=
  firstn (slice_end n (List.length l)) l.

(** Decimal digits. *)
Definition digit_val (c : ascii) : Z := Z.of_N (code c) - 48.

Fixpoint digits_acc (acc : Z) (s : string) : Z :=
  match s with
  | EmptyString => acc
  | String c s' => digits_acc (10 * acc + digit_val c) s'
  end.

Definition digits_value (s : string) : Z := digits_acc 0 s.

Definition nat_digits (z : Z) : string :=
  NilZero.string_of_uint (N.to_uint (Z.to_N (Z.abs z))).

Fixpoint zeros (n : nat) : string :=
  match n with O => "" | S n' => String "0" (zeros n') end.

Definition str_drop (n : nat) (s : string) : string :=
  substring n (String.length s - n) s.

(** Number::toString in radix 10. *)
Definition num_toString (n : num) : string :=
  match n with
  | NaN => "NaN"
  | Inf false => "Infinity"
  | Inf true => "-Infinity"
  | Dec m e =>
      if m =? 0 then "0" else
      let ds := nat_digits m in
      let k := Z.of_nat (String.length ds) in
      let n := k + e in
      let body :=
        if (k <=? n) && (n <=? 21) then ds ++ zeros (Z.to_nat (n - k))
        else if (0 <? n) && (n <=? 21) then
          take (Z.to_nat n) ds ++ "." ++ str_drop (Z.to_nat n) ds
        else if (-6 <? n) && (n <=? 0) then
          "0." ++ zeros (Z.to_nat (- n)) ++ ds
        else
          let ex := (if 0 <=? n - 1 then "+" else "-") ++ nat_digits (n - 1) in
          if k =? 1 then ds ++ "e" ++ ex
          else take 1 ds ++ "." ++ str_drop 1 ds ++ "e" ++ ex in
      if m <? 0 then "-" ++ body else body
  end.

(** StringToNumber: the StrNumericLiteral grammar. *)
Definition parse_exponent (r : string) : option Z :=
  match r with
  | EmptyString => Some 0
  | String c r' =>
      if one_of "eE" c then
        let '(sign, ds) :=
          match r' with
          | String "+" d => (1, d)
          | String "-" d => (-1, d)
          | _ => (1, r')
          end in
        let (digs, rest) := span is_digit ds in
        if String.eqb digs "" || negb (String.eqb rest "") then None
        else Some (sign * digits_value digs)
      else None
  end.

Definition parse_unsigned_decimal (s : string) : option num :=
  if String.eqb s "Infinity" then Some (Inf false) else
  let (ip, r1) := span is_digit s in
  let (fp, r2) :=
    match r1 with
    | String "." r => span is_digit r
    | _ => (EmptyString, r1)
    end in
  if String.eqb ip "" && String.eqb fp "" then None else
  match parse_exponent r2 with
  | Some ex =>
      Some (mk_dec (digits_value (ip ++ fp)) (ex - Z.of_nat (String.length fp)))
  | None => None
  end.

Definition num_neg (n : num) : num :=
  match n with
  | NaN => NaN
  | Inf b => Inf (negb b)
  | Dec m e => Dec (- m) e
  end.

Definition hex_val (c : ascii) : Z :=
  if is_digit c then digit_val c
  else if in_range 97 102 c then Z.of_N (code c) - 87
  else Z.of_N (code c) - 55.

Definition is_hex (c : ascii) : bool :=
  is_digit c || in_range 97 102 c || in_range 65 70 c.

Fixpoint radix_acc (radix : Z) (acc : Z) (s : string) : Z :=
  match s with
  | EmptyString => acc
  | String c s' => radix_acc radix (radix * acc + hex_val c) s'
  end.

Definition parse_radix (radix : Z) (ok : ascii -> bool) (ds : string)
  : option num :=
  let (digs, rest) := span ok ds in
  if String.eqb digs "" || negb (String.eqb rest "") then None
  else Some (of_Z (radix_acc radix 0 digs)).

Definition parse_number (s : string) : option num :=
  match s with
  | String "0" (String c ds) =>
      if one_of "xX" c then parse_radix 16 is_hex ds
      else if one_of "oO" c then parse_radix 8 (in_range 48 55) ds
      else if one_of "bB" c then parse_radix 2 (in_range 48 49) ds
      else parse_unsigned_decimal s
  | String "+" s' => parse_unsigned_decimal s'
  | String "-" s' => option_map num_neg (parse_unsigned_decimal s')
  | _ => parse_unsigned_decimal s
  end.

Definition StringToNumber (s : string) : num :=
  let t := trim s in
  if String.eqb t "" then of_Z 0
  else match parse_number t with Some n => n | None => NaN end.

(** [parseInt(s, 10)] on a string. *)
Definition parseInt10 (s : string) : num :=
  let t := trimStart s in
  let '(neg, t') :=
    match t with
    | String "+" r => (false, r)
    | String "-" r => (true, r)
    | _ => (false, t)
    end in
  let (digs, _) := span is_digit t' in
  if String.eqb digs "" then NaN
  else of_Z (if neg then - digits_value digs else digits_value digs).

(** *** Values *)

#[warnings="-register-all"] Inductive value : Type :=
| VUndefined
| VNull
| VBool (b : bool)
| VNum (n : num)
| VStr (s : string)
| VArr (items : list value)
| VObj (fields : list (string * value)).

Definition is_nullish (v : value) : bool :=
  match v with VUndefined | VNull => true | _ => false end.

(** [v === ''] *)
Definition is_empty_string (v : value) : bool :=
  match v with VStr EmptyString => true | _ => false end.

Fixpoint assoc_get (k : string) (fields : list (string * value)) : option value :=
  match fields with
  | [] => None
  | (k', v) :: rest => if String.eqb k k' then Some v else assoc_get k rest
  end.

(** The property names that every plain object inherits from
    [Object.prototype]: on such a name [name in o] holds and [o[name]] is not
    undefined, whether or not [o] has a property of its own there. *)
Definition Object_prototype : list string :=
  [ "constructor"; "hasOwnProperty"; "isPrototypeOf"; "propertyIsEnumerable";
    "toLocaleString"; "toString"; "valueOf"; "__proto__";
    "__defineGetter__"; "__defineSetter__"; "__lookupGetter__";
    "__lookupSetter__" ].

Definition inherited (name : string) : bool :=
  existsb (String.eqb name) Object_prototype.

(** Whether the conversion of [v] to a primitive returns.  [String(o)] and
    [Number(o)] call the [toString] method of an object [o].  A plain object
    inherits it, unless it has a property of its own under that name: parsed
    from JSON, that property is no function, [valueOf] gives the object
    back, and the conversion throws a TypeError.  An array converts through
    [join], which converts every element. *)
Fixpoint convertible (v : value) : bool :=
  match v with
  | VArr items => forallb convertible items
  | VObj fields =>
      match assoc_get "toString" fields with Some _ => false | None => true end
  | _ => true
  end.

(** The values that are no objects: undefined, null, booleans, numbers and
    strings. *)
Definition primitive (v : value) : bool :=
  match v with VArr _ | VObj _ => false | _ => true end.

(** The string of [String(v)], for a [v] that converts.  An array joins the
    strings of its elements with a comma, null and undefined elements giving
    the empty string; a plain object gives [[object Object]]. *)
Fixpoint ToString (v : value) : string :=
  match v with
  | VUndefined => "undefined"
  | VNull => "null"
  | VBool true => "true"
  | VBool false => "false"
  | VNum n => num_toString n
  | VStr s => s
  | VArr items =>
      join "," (List.map (fun x => if is_nullish x then "" else ToString x) items)
  | VObj _ => "[object Object]"
  end.

(** The number of [Number(v)].  Arrays and objects convert through their
    string; where that conversion throws there is no number, and NaN stands
    for it. *)
Definition ToNumber (v : value) : num :=
  match v with
  | VUndefined => NaN
  | VNull => of_Z 0
  | VBool true => of_Z 1
  | VBool false => of_Z 0
  | VNum n => n
  | VStr s => StringToNumber s
  | VArr _ | VObj _ =>
      if convertible v then StringToNumber (ToString v) else NaN
  end.

(** [Boolean(v)]. *)
Definition ToBoolean (v : value) : bool :=
  match v with
  | VUndefined | VNull => false
  | VBool b => b
  | VNum n => negb (num_falsy n)
  | VStr s => negb (String.eqb s "")
  | VArr _ | VObj _ => true
  end.

(** *** Errors and the error monad *)

Inductive native_error : Type :=
| TypeError (msg : string)
| SyntaxError (msg : string).

Inductive result (E A : Type) : Type :=
| Ok (a : A)
| Throw (e : E).
Arguments Ok {E A} a.
Arguments Throw {E A} e.

Definition bind {E A B} (m : result E A) (k : A -> result E B) : result E B :=
  match m with
  | Ok a => k a
  | Throw e => Throw e
  end.

Notation "'let*' x := m 'in' k" := (bind m (fun x => k))
  (at level 10, x name, m at level 200, k at level 200).

(** [try { body } catch { handler }] *)
Definition try_catch {E A} (body : result E A) (handler : E -> result E A)
  : result E A :=
  match body with
  | Ok a => Ok a
  | Throw e => handler e
  end.

Definition mapM {E A B} (f : A -> result E B) : list A -> result E (list B) :=
  fix go (l : list A) : result E (list B) :=
    match l with
    | [] => Ok []
    | x :: l' => let* y := f x in let* ys := go l' in Ok (y :: ys)
    end.

(** [String(v)] and [Number(v)] as the program calls them: a TypeError where
    the conversion to a primitive throws. *)
Definition ToString_or_throw (v : value) : result native_error string :=
  if convertible v then Ok (ToString v)
  else Throw (TypeError "Cannot convert object to primitive value").

Definition ToNumber_or_throw (v : value) : result native_error num :=
  if convertible v then Ok (ToNumber v)
  else Throw (TypeError "Cannot convert object to primitive value").

(** [parseInt(v, 10)] converts its argument to a string first. *)
Definition parseInt (v : value) : result native_error num :=
  let* s := ToString_or_throw v in Ok (parseInt10 s).

(** [v.length]: a TypeError on null and undefined. *)
Definition get_length (v : value) : result native_error value :=
  match v with
  | VUndefined | VNull =>
      Throw (TypeError "Cannot read properties of null or undefined")
  | VStr s => Ok (VNum (of_Z (Z.of_nat (String.length s))))
  | VArr items => Ok (VNum (of_Z (Z.of_nat (List.length items))))
  | VObj fields =>
      Ok (match assoc_get "length" fields with Some x => x | None => VUndefined end)
  | VBool _ | VNum _ => Ok VUndefined
  end.

(** *** Regular expressions

    Matching by derivatives.  The zero-width assertions [^], [$] and [\b]
    are decided from the characters on both sides of the current position. *)

Inductive regex : Type :=
| Never
| Eps
| Class (p : ascii -> bool)
| Seq (r1 r2 : regex)
| Alt (r1 r2 : regex)
| Star (r : regex)
| Rep (r : regex) (lo hi : nat)          (* r{lo,hi} *)
| Bol                                    (* ^ *)
| Eol                                    (* $ *)
| WordB.                                 (* \b *)

Definition Chr (c : ascii) : regex := Class (is_char c).
Definition Plus (r : regex) : regex := Seq r (Star r).
Definition Opt (r : regex) : regex := Alt r Eps.
Definition AtLeast (n : nat) (r : regex) : regex := Seq (Rep r n n) (Star r).

Fixpoint Lit (s : string) : regex :=
  match s with
  | EmptyString => Eps
  | String c s' => Seq (Chr c) (Lit s')
  end.

Definition word_at (c : option ascii) : bool :=
  match c with Some a => is_word a | None => false end.

Fixpoint nullable (prev next : option ascii) (r : regex) : bool :=
  match r with
  | Never => false
  | Eps => true
  | Class _ => false
  | Seq r1 r2 => nullable prev next r1 && nullable prev next r2
  | Alt r1 r2 => nullable prev next r1 || nullable prev next r2
  | Star _ => true
  | Rep r lo _ => Nat.eqb lo 0 || nullable prev next r
  | Bol => match prev with None => true | Some _ => false end
  | Eol => match next with None => true | Some _ => false end
  | WordB => xorb (word_at prev) (word_at next)
  end.

Definition seq_ (r1 r2 : regex) : regex :=
  match r1 with Never => Never | _ => Seq r1 r2 end.

Definition alt_ (r1 r2 : regex) : regex :=
  match r1, r2 with
  | Never, _ => r2
  | _, Never => r1
  | _, _ => Alt r1 r2
  end.

Fixpoint deriv (prev : option ascii) (c : ascii) (r : regex) : regex :=
  match r with
  | Never | Eps | Bol | Eol | WordB => Never
  | Class p => if p c then Eps else Never
  | Seq r1 r2 =>
      alt_ (seq_ (deriv prev c r1) r2)
           (if nullable prev (Some c) r1 then deriv prev c r2 else Never)
  | Alt r1 r2 => alt_ (deriv prev c r1) (deriv prev c r2)
  | Star r1 => seq_ (deriv prev c r1) (Star r1)
  | Rep r1 lo hi =>
      match hi with
      | O => Never
      | S hi' => seq_ (deriv prev c r1) (Rep r1 (Nat.pred lo) hi')
      end
  end.

Fixpoint match_from (prev : option ascii) (r : regex) (s : string) : bool :=
  match s with
  | EmptyString => nullable prev None r
  | String c s' => match_from (Some c) (deriv prev c r) s'
  end.

Definition any_char : regex := Class (fun _ => true).

(** [r.test(s)]: [r] matches somewhere in [s]. *)
Definition regex_test (r : regex) (s : string) : bool :=
  match_from None (Seq (Star any_char) (Seq r (Star any_char))) s.

(** [r.test(v)] converts its argument to a string first. *)
Definition test (r : regex) (v : value) : result native_error bool :=
  let* s := ToString_or_throw v in Ok (regex_test r s).

End JS.

Import JS.

(** The two host services used by the sanitizers.  [URL_href s] is
    [new URL(s).toString()], the normalised form of an absolute URL, and
    [None] when the constructor throws; [JSON_parse s] is [JSON.parse(s)],
    and [None] when it throws. *)
Class Host : Type := {
  URL_href : string -> option string;
  JSON_parse : string -> option value;
}.

(** A host that rejects every URL and every JSON text.  It stands in where a
    closed example reaches neither service. *)
Definition rejecting_host : Host :=
  {| URL_href := fun _ => None; JSON_parse := fun _ => None |}.

(** [new URL(v).toString()]: the constructor converts its argument to a
    string first. *)
Definition URL_new `{Host} (v : value) : result native_error string :=
  let* s := ToString_or_throw v in
  match URL_href s with
  | Some href => Ok href
  | None => Throw (TypeError "Invalid URL")
  end.

Definition JSON_parse_or_throw `{Host} (s : string) : result native_error value :=
  match JSON_parse s with
  | Some v => Ok v
  | None => Throw (SyntaxError "Unexpected token in JSON")
  end.

(** ** app/utils/errorHandler.js *)

Module ErrorHandler.

Inductive ErrorType : Type :=
| VALIDATION | AUTHENTICATION | AUTHORIZATION | NOT_FOUND | EXTERNAL_API
| DATABASE | NETWORK | INTERNAL | RATE_LIMIT | SHOPIFY_API.

Definition ErrorTypes (t : ErrorType) : string :=
  match t with
  | VALIDATION => "VALIDATION_ERROR"
  | AUTHENTICATION => "AUTHENTICATION_ERROR"
  | AUTHORIZATION => "AUTHORIZATION_ERROR"
  | NOT_FOUND => "NOT_FOUND_ERROR"
  | EXTERNAL_API => "EXTERNAL_API_ERROR"
  | DATABASE => "DATABASE_ERROR"
  | NETWORK => "NETWORK_ERROR"
  | INTERNAL => "INTERNAL_SERVER_ERROR"
  | RATE_LIMIT => "RATE_LIMIT_ERROR"
  | SHOPIFY_API => "SHOPIFY_API_ERROR"
  end.

Inductive ErrorSeverity : Type := LOW | MEDIUM | HIGH | CRITICAL.

(** What the factories of this file put under [context]: the rejected value
    of a validation error is null, a list of field names, or a map from field
    names to their error lists; a rate-limit error carries [retryAfter]. *)
Inductive rejected : Type :=
| NoValue
| FieldNames (names : list string)
| FieldErrors (errors : gmap string (list string)).

Inductive Context : Type :=
| ValidationContext (field : string) (value : rejected) (validationMessage : string)
| RateLimitContext (retryAfter : option Z).

(** [AppError]; the creation timestamp is left out. *)
Record AppError : Type := {
  message : string;
  type : ErrorType;
  statusCode : Z;
  severity : ErrorSeverity;
  context : Context;
}.

(** What a [throw] of these modules carries. *)
Inductive thrown : Type :=
| Native (e : native_error)
| App (e : AppError).

Definition lift {A} (m : result native_error A) : result thrown A :=
  match m with
  | Ok a => Ok a
  | Throw e => Throw (Native e)
  end.

Definition createValidationError (field msg : string) (value : rejected)
  : AppError :=
  {| message := "Validation failed for " ++ field ++ ": " ++ msg;
     type := VALIDATION;
     statusCode := 400;
     severity := LOW;
     context := ValidationContext field value msg |}.

Definition createRateLimitError (retryAfter : option Z) : AppError :=
  {| message := "Rate limit exceeded. Please try again later.";
     type := RATE_LIMIT;
     statusCode := 429;
     severity := MEDIUM;
     context := RateLimitContext retryAfter |}.

(** [/^[^\s@]+@[^\s@]+\.[^\s@]+$/] *)
Definition emailRegex : regex :=
  let part := Plus (Class (fun c => negb (is_space c || is_char "@" c))) in
  Seq Bol (Seq part (Seq (Chr "@") (Seq part (Seq (Chr ".") (Seq part Eol))))).

(** The input sanitization helper of this file (one argument fewer than the
    sanitizer of validation.js, and null as its only sentinel). *)
Definition sanitizeInput `{Host} (input : value) (type : string)
  : result native_error value :=
  if is_nullish input then Ok VNull
  else if String.eqb type "string" then
    let* s := ToString_or_throw input in
    Ok (VStr (str_slice0 (of_Z 1000) (trim s)))
  else if String.eqb type "number" then
    let* num := ToNumber_or_throw input in
    Ok (if isNaN num then VNull else VNum num)
  else if String.eqb type "boolean" then
    Ok (VBool (ToBoolean input))
  else if String.eqb type "email" then
    let* s := ToString_or_throw input in
    let email := toLowerCase (trim s) in
    Ok (if regex_test emailRegex email then VStr email else VNull)
  else if String.eqb type "url" then
    try_catch
      (let* url := URL_new input in Ok (VStr url))
      (fun _ => Ok VNull)
  else Ok input.

(** [!(field in data) || data[field] === null || data[field] === undefined
    || data[field] === ''].  Where the record has no property of its own,
    [field in data] still holds for a name inherited from
    [Object.prototype], and [data[field]] is then the inherited method or
    object, none of the three empty values. *)
Definition is_missing (data : gmap string value) (field : string) : bool :=
  match data !! field with
  | None => negb (inherited field)
  | Some v => is_nullish v || is_empty_string v
  end.

Definition validateRequiredFields (data : gmap string value)
    (requiredFields : list string) : result AppError bool :=
  let missing :=
    fold_left
      (fun (missing : list string) field =>
         if is_missing data field then (missing ++ [field])%list else missing)
      requiredFields [] in
  if Nat.ltb 0 (List.length missing) then
    Throw (createValidationError "required_fields"
             ("Missing required fields: " ++ join ", " missing)
             (FieldNames missing))
  else Ok true.

(** A required field counts as missing when the record has no such
    property, of its own or inherited, or holds null, undefined or the empty
    string there. *)
Definition Missing (data : gmap string value) (field : string) : Prop :=
  (data !! field = None /\ inherited field = false) \/
  data !! field = Some VNull \/
  data !! field = Some VUndefined \/ data !! field = Some (VStr "").

End ErrorHandler.

(** ** app/utils/validation.js *)

Module Validation.
Import ErrorHandler.

(** The entries of [PATTERNS] that [validateInput] uses. *)

(** [/^[a-zA-Z0-9._%+-]+@[a-zA-Z0-9.-]+\.[a-zA-Z]{2,}$/] *)
Definition PATTERNS_email : regex :=
  Seq Bol
    (Seq (Plus (Class (fun c => is_alnum c || one_of "._%+-" c)))
    (Seq (Chr "@")
    (Seq (Plus (Class (fun c => is_alnum c || one_of ".-" c)))
    (Seq (Chr ".")
    (Seq (AtLeast 2 (Class is_alpha)) Eol))))).

(** [/^\+?[\d\s\-\(\)]{10,20}$/] *)
Definition PATTERNS_phone : regex :=
  Seq Bol
    (Seq (Opt (Chr "+"))
    (Seq (Rep (Class (fun c => is_digit c || is_space c || one_of "-()" c)) 10 20)
     Eol)).

(** The [url] pattern: [^https?:\/\/], an optional [www\.], 1 to 256
    characters of [-a-zA-Z0-9@:%._\+~#=], a dot, 1 to 6 characters of
    [a-zA-Z0-9()], a word boundary, and any run of the characters
    [-a-zA-Z0-9()@:%_\+.~#?&//=] up to the end. *)
Definition PATTERNS_url : regex :=
  Seq Bol
    (Seq (Lit "http") (Seq (Opt (Chr "s")) (Seq (Lit "://")
    (Seq (Opt (Lit "www."))
    (Seq (Rep (Class (fun c => is_alnum c || one_of "-@:%._+~#=" c)) 1 256)
    (Seq (Chr ".")
    (Seq (Rep (Class (fun c => is_alnum c || one_of "()" c)) 1 6)
    (Seq WordB
    (Seq (Star (Class (fun c => is_alnum c || one_of "-()@:%_+.~#?&/=" c)))
     Eol))))))))).

(** [/^[a-zA-Z0-9][a-zA-Z0-9\-]*[a-zA-Z0-9]\.myshopify\.com$/] *)
Definition PATTERNS_shopifyDomain : regex :=
  Seq Bol
    (Seq (Class is_alnum)
    (Seq (Star (Class (fun c => is_alnum c || is_char "-" c)))
    (Seq (Class is_alnum)
    (Seq (Lit ".myshopify.com") Eol)))).

(** [/^gid:\/\/shopify\/[A-Za-z]+\/\d+$/] *)
Definition PATTERNS_shopifyId : regex :=
  Seq Bol
    (Seq (Lit "gid://shopify/")
    (Seq (Plus (Class is_alpha))
    (Seq (Chr "/")
    (Seq (Plus (Class is_digit)) Eol)))).

(** [/^\d+$/] *)
Definition PATTERNS_numericId : regex :=
  Seq Bol (Seq (Plus (Class is_digit)) Eol).

(** [/^[a-zA-Z0-9_\-\.]{10,}$/] *)
Definition PATTERNS_token : regex :=
  Seq Bol
    (Seq (AtLeast 10 (Class (fun c => is_alnum c || one_of "_-." c))) Eol).

Fixpoint table_get {A} (k : string) (table : list (string * A)) : option A :=
  match table with
  | [] => None
  | (k', a) :: rest => if String.eqb k k' then Some a else table_get k rest
  end.

Definition MAX_LENGTHS (key : string) : option Z :=
  table_get key
    [ ("shortText", 100); ("mediumText", 500); ("longText", 2000);
      ("name", 100); ("email", 254); ("phone", 20); ("address", 200);
      ("city", 100); ("country", 100); ("postalCode", 20); ("token", 1000);
      ("description", 2000); ("title", 200); ("sku", 100); ("tag", 50) ].

(** [MAX_LENGTHS.key] for a key of the table; every use below names one. *)
Definition max_length_of (key : string) : num :=
  of_Z (match MAX_LENGTHS key with Some n => n | None => 0 end).

(** [MAX_LENGTHS[type] || MAX_LENGTHS.mediumText], as the end of a slice.
    [MAX_LENGTHS] above holds the own properties of the table.  For a name
    that the table inherits from [Object.prototype] the lookup gives a
    method or an object: it is truthy, so the default is not taken, and
    [slice] converts it to NaN. *)
Definition default_length (type : string) : num :=
  match MAX_LENGTHS type with
  | Some n => of_Z n
  | None => if inherited type then NaN else max_length_of "mediumText"
  end.

(** The options object of [sanitizeInput] and [validateInput]: every property
    either function reads.  An absent property is [None]; the two flags hold
    the truthiness of their property. *)
Record Options : Type := {
  allowNull : bool;
  maxLength : option num;
  min : option num;
  max : option num;
  itemType : option string;
  maxItems : option num;
  required : bool;
  minLength : option num;
  pattern : option regex;
  minItems : option num;
}.

(** [{}] *)
Definition no_options : Options :=
  {| allowNull := false; maxLength := None; min := None; max := None;
     itemType := None; maxItems := None; required := false;
     minLength := None; pattern := None; minItems := None |}.

(** [o || d] on an optional number: 0, NaN and an absent property are falsy. *)
Definition num_or (o : option num) (d : num) : num :=
  match o with
  | Some n => if num_falsy n then d else n
  | None => d
  end.

(** [o && ...]: the number when the property is truthy. *)
Definition truthy_num (o : option num) : option num :=
  match o with
  | Some n => if num_falsy n then None else Some n
  | None => None
  end.

Definition str_or (o : option string) (d : string) : string :=
  match o with
  | Some s => if String.eqb s "" then d else s
  | None => d
  end.

(** [options.allowNull ? null : fallback] *)
Definition null_or (options : Options) (fallback : value) : value :=
  if allowNull options then VNull else fallback.

(** The clamping shared by the number and integer branches. *)
Definition clamp (options : Options) (n : num) : value :=
  if (match min options with Some lo => num_lt n lo | None => false end)
  then VNum (match min options with Some lo => lo | None => n end)
  else if (match max options with Some hi => num_gt n hi | None => false end)
  then VNum (match max options with Some hi => hi | None => n end)
  else VNum n.

(** The class of the name branch: less-than, greater-than, ampersand, the
    single quote and the double quote (code unit 34). *)
Definition dangerous (c : ascii) : bool :=
  one_of "<>'&" c || (code c =? 34)%N.

Fixpoint sanitizeInput `{Host} (input : value) (type : string)
    (options : Options) {struct input} : result native_error value :=
  if is_nullish input then Ok (null_or options (VStr ""))
  else
  let maxLength := num_or (maxLength options) (default_length type) in
  if String.eqb type "string" || String.eqb type "text" then
    let* s := ToString_or_throw input in
    Ok (VStr (str_slice0 maxLength (remove_all is_control (trim s))))
  else if String.eqb type "name" then
    let* s := ToString_or_throw input in
    Ok (VStr (str_slice0 (max_length_of "name")
                (collapse_spaces (remove_all dangerous (trim s)))))
  else if String.eqb type "email" then
    let* s := ToString_or_throw input in
    Ok (VStr (str_slice0 (max_length_of "email") (toLowerCase (trim s))))
  else if String.eqb type "phone" then
    let* s := ToString_or_throw input in
    Ok (VStr (str_slice0 (max_length_of "phone")
                (trim (str_filter
                         (fun c => is_digit c || one_of "+-()" c || is_space c)
                         s))))
  else if String.eqb type "number" then
    let* num := ToNumber_or_throw input in
    if isNaN num then Ok (null_or options (VNum (of_Z 0)))
    else Ok (clamp options num)
  else if String.eqb type "integer" then
    let* int := parseInt input in
    if isNaN int then Ok (null_or options (VNum (of_Z 0)))
    else Ok (clamp options int)
  else if String.eqb type "boolean" then
    match input with
    | VBool b => Ok (VBool b)
    | VStr s =>
        let lower := toLowerCase s in
        Ok (VBool (String.eqb lower "true" || String.eqb lower "1"
                   || String.eqb lower "yes"))
    | _ => Ok (VBool (ToBoolean input))
    end
  else if String.eqb type "url" then
    try_catch
      (let* url := URL_new input in Ok (VStr (str_slice0 maxLength url)))
      (fun _ => Ok (null_or options (VStr "")))
  else if String.eqb type "shopifyDomain" then
    let* s := ToString_or_throw input in
    let domain := toLowerCase (trim s) in
    if negb (endsWith ".myshopify.com" domain)
    then Ok (VStr (domain ++ ".myshopify.com"))
    else Ok (VStr domain)
  else if String.eqb type "token" then
    let* s := ToString_or_throw input in
    Ok (VStr (str_slice0 (max_length_of "token")
                (str_filter (fun c => is_word c || one_of "-." c) (trim s))))
  else if String.eqb type "array" then
    match input with
    | VArr items =>
        let* mapped :=
          mapM (fun item =>
                  sanitizeInput item (str_or (itemType options) "string")
                    options) items in
        Ok (VArr (list_slice0 (num_or (maxItems options) (of_Z 100)) mapped))
    | _ => Ok (VArr [])
    end
  else if String.eqb type "json" then
    try_catch
      (match input with
       | VStr s => JSON_parse_or_throw s
       | _ => Ok input
       end)
      (fun _ => Ok (null_or options (VObj [])))
  else
    let* s := ToString_or_throw input in
    Ok (VStr (str_slice0 maxLength (trim s))).

(** [errors.push(msg)] *)
Definition push (errors : list string) (msg : string) : list string :=
  (errors ++ [msg])%list.

Definition push_if (c : bool) (errors : list string) (msg : string)
  : list string :=
  if c then push errors msg else errors.

(** [x.length < bound] and [x.length > bound] on a string or an array. *)
Definition length_num (v : value) : num :=
  match v with
  | VStr s => of_Z (Z.of_nat (String.length s))
  | VArr items => of_Z (Z.of_nat (List.length items))
  | _ => NaN
  end.

Definition validateInput (v : value) (type : string) (options : Options)
  : result native_error (list string) :=
  let errors : list string := [] in
  let empty := is_nullish v || is_empty_string v in
  (* Check required fields *)
  if required options && empty then Ok (push errors (type ++ " is required"))
  (* Skip validation if value is empty and not required *)
  else if negb (required options) && empty then Ok errors
  (* Type-specific validation *)
  else if String.eqb type "email" then
    let* ok := test PATTERNS_email v in
    Ok (push_if (negb ok) errors "Invalid email format")
  else if String.eqb type "phone" then
    let* ok := test PATTERNS_phone v in
    Ok (push_if (negb ok) errors "Invalid phone number format")
  else if String.eqb type "url" then
    let* ok := test PATTERNS_url v in
    Ok (push_if (negb ok) errors "Invalid URL format")
  else if String.eqb type "shopifyDomain" then
    let* ok := test PATTERNS_shopifyDomain v in
    Ok (push_if (negb ok) errors "Invalid Shopify domain format")
  else if String.eqb type "shopifyId" then
    let* gid := test PATTERNS_shopifyId v in
    let* invalid :=
      if gid then Ok false
      else let* numeric := test PATTERNS_numericId v in Ok (negb numeric) in
    Ok (push_if invalid errors "Invalid Shopify ID format")
  else if String.eqb type "token" then
    let* ok := test PATTERNS_token v in
    let errors := push_if (negb ok) errors "Invalid token format" in
    let* len := get_length v in
    let* len := ToNumber_or_throw len in
    Ok (push_if (num_lt len (of_Z 10)) errors
          "Token must be at least 10 characters long")
  else if String.eqb type "number" then
    let* num := ToNumber_or_throw v in
    if isNaN num then Ok (push errors "Must be a valid number")
    else
      let errors :=
        match min options with
        | Some lo =>
            push_if (num_lt num lo) errors
              ("Must be at least " ++ num_toString lo)
        | None => errors
        end in
      let errors :=
        match max options with
        | Some hi =>
            push_if (num_gt num hi) errors
              ("Must be at most " ++ num_toString hi)
        | None => errors
        end in
      Ok errors
  else if String.eqb type "string" then
    match v with
    | VStr s =>
        let errors :=
          match truthy_num (minLength options) with
          | Some lo =>
              push_if (num_lt (length_num v) lo) errors
                ("Must be at least " ++ num_toString lo ++ " characters long")
          | None => errors
          end in
        let errors :=
          match truthy_num (maxLength options) with
          | Some hi =>
              push_if (num_gt (length_num v) hi) errors
                ("Must be at most " ++ num_toString hi ++ " characters long")
          | None => errors
          end in
        let errors :=
          match pattern options with
          | Some re => push_if (negb (regex_test re s)) errors "Invalid format"
          | None => errors
          end in
        Ok errors
    | _ => Ok (push errors "Must be a string")
    end
  else if String.eqb type "array" then
    match v with
    | VArr items =>
        let errors :=
          match truthy_num (minItems options) with
          | Some lo =>
              push_if (num_lt (length_num v) lo) errors
                ("Must have at least " ++ num_toString lo ++ " items")
          | None => errors
          end in
        let errors :=
          match truthy_num (maxItems options) with
          | Some hi =>
              push_if (num_gt (length_num v) hi) errors
                ("Must have at most " ++ num_toString hi ++ " items")
          | None => errors
          end in
        Ok errors
    | _ => Ok (push errors "Must be an array")
    end
  else Ok errors.

(** A rule of a schema.  [options] and [validation] may be absent, and then
    default to [{}] in the callee. *)
Record Rule : Type := {
  type : string;
  options : option Options;
  validation : option Options;
}.

Definition or_empty (o : option Options) : Options :=
  match o with Some x => x | None => no_options end.

(** [data[field]] on the own properties of the record: undefined for an
    absent one.  This is what the program reads for every field name that is
    not inherited from [Object.prototype]. *)
Definition get (data : gmap string value) (field : string) : value :=
  match data !! field with Some x => x | None => VUndefined end.

(** One pass of the loop over [Object.entries(schema)]. *)
Definition visit_field `{Host} (data : gmap string value) (field : string)
    (rules : Rule) (acc : gmap string value * gmap string (list string))
  : result thrown (gmap string value * gmap string (list string)) :=
  let '(sanitized, errors) := acc in
  let raw := get data field in
  (* Sanitize the input *)
  let* sanitizedValue :=
    lift (sanitizeInput raw (type rules) (or_empty (options rules))) in
  (* Validate the sanitized input *)
  let* fieldErrors :=
    lift (validateInput sanitizedValue (type rules)
            (or_empty (validation rules))) in
  if Nat.ltb 0 (List.length fieldErrors)
  then Ok (sanitized, <[field := fieldErrors]> errors)
  else Ok (<[field := sanitizedValue]> sanitized, errors).

(** The schema is given by [Object.entries(schema)]: its fields with their
    rules, in the order of the object, no field twice.  The input record is
    only read, one property at a time. *)
Definition validateAndSanitizeRequest `{Host} (data : gmap string value)
    (schema : list (string * Rule)) : result thrown (gmap string value) :=
  let* outcome :=
    fold_left
      (fun acc entry =>
         let* so_far := acc in
         visit_field data (fst entry) (snd entry) so_far)
      schema (Ok (∅, ∅)) in
  let '(sanitized, errors) := outcome in
  if Nat.ltb 0 (size errors) then
    Throw (App (createValidationError "request_validation"
                  "Request validation failed" (FieldErrors errors)))
  else Ok sanitized.

(** What one schema field contributes: its sanitized value and the errors
    that validating this value gives. *)
Definition cleaned `{Host} (data : gmap string value) (field : string)
    (rules : Rule) : value :=
  match sanitizeInput (get data field) (type rules) (or_empty (options rules)) with
  | Ok v => v
  | Throw _ => VUndefined
  end.

Definition errors_of `{Host} (data : gmap string value) (field : string)
    (rules : Rule) : list string :=
  match validateInput (cleaned data field rules) (type rules)
          (or_empty (validation rules)) with
  | Ok errs => errs
  | Throw _ => []
  end.

(** A field passes with its sanitized value, or fails with its errors. *)
Definition passes `{Host} (data : gmap string value) (field : string)
    (rules : Rule) : option value :=
  match errors_of data field rules with
  | [] => Some (cleaned data field rules)
  | _ :: _ => None
  end.

Definition fails `{Host} (data : gmap string value) (field : string)
    (rules : Rule) : option (list string) :=
  match errors_of data field rules with
  | [] => None
  | errs => Some errs
  end.

(** The object built by assigning [g field rules], where there is one, in
    the order of the schema. *)
Definition collect {V} (g : string -> Rule -> option V)
    (schema : list (string * Rule)) (acc : gmap string V) : gmap string V :=
  fold_left
    (fun m entry =>
       match g (fst entry) (snd entry) with
       | Some v => <[fst entry := v]> m
       | None => m
       end) schema acc.

(** *** The fields that the statements about a request speak of *)





(** Every value that the record holds for a field of the schema converts
    to a primitive. *)
Definition all_convertible (data : gmap string value)
    (schema : list (string * Rule)) : Prop :=
  forall field rules,
    In (field, rules) schema -> convertible (get data field) = true.


(** The empty values of the validator: null, undefined and the empty
    string. *)
Definition Empty (v : value) : Prop :=
  v = VNull \/ v = VUndefined \/ v = VStr "".

(** What the shopifyDomain branch does to a trimmed, lower-cased string. *)
Definition with_suffix (domain : string) : string :=
  if endsWith ".myshopify.com" domain then domain
  else domain ++ ".myshopify.com".

(** [{required: true}] *)
Definition required_only : Options :=
  {| allowNull := false; maxLength := None; min := None; max := None;
     itemType := None; maxItems := None; required := true;
     minLength := None; pattern := None; minItems := None |}.

(** [{required: true, min: lo}] *)
Definition required_min (lo : num) : Options :=
  {| allowNull := false; maxLength := None; min := Some lo; max := None;
     itemType := None; maxItems := None; required := true;
     minLength := None; pattern := None; minItems := None |}.

(** [{min: lo, max: hi}] *)
Definition with_bounds (lo hi : option num) : Options :=
  {| allowNull := false; maxLength := None; min := lo; max := hi;
     itemType := None; maxItems := None; required := false;
     minLength := None; pattern := None; minItems := None |}.

(** The default that the specification promises for an absent input of each
    type, in its words: 0 for number and integer, false for boolean, an
    empty object for json, an empty array for array, the empty string for
    the string-like types. *)
Definition claimed_absent_default (type : string) : value :=
  if String.eqb type "number" || String.eqb type "integer" then VNum (of_Z 0)
  else if String.eqb type "boolean" then VBool false
  else if String.eqb type "json" then VObj []
  else if String.eqb type "array" then VArr []
  else VStr "".

(** For the unit tests: sanitizing a string with no options, and whether a
    string validates with no options. *)
Definition sanitize_string (input type : string) : result native_error value :=
  sanitizeInput (H := rejecting_host) (VStr input) type no_options.

Definition is_valid (input type : string) : bool :=
  match validateInput (VStr input) type no_options with
  | Ok [] => true
  | _ => false
  end.

End Validation.

(** ** app/utils/rateLimiter.js *)

Module RateLimiter.
Import ErrorHandler.

Record RateLimitConfig : Type := {
  windowMs : Z;
  maxRequests : Z;
  skipSuccessfulRequests : bool;
  skipFailedRequests : bool;
}.

Definition api : RateLimitConfig :=
  {| windowMs := 60 * 1000; maxRequests := 60;
     skipSuccessfulRequests := false; skipFailedRequests := false |}.

Definition shopify : RateLimitConfig :=
  {| windowMs := 60 * 1000; maxRequests := 40;
     skipSuccessfulRequests := false; skipFailedRequests := true |}.

Definition external : RateLimitConfig :=
  {| windowMs := 60 * 1000; maxRequests := 100;
     skipSuccessfulRequests := false; skipFailedRequests := false |}.

Definition auth : RateLimitConfig :=
  {| windowMs := 15 * 60 * 1000; maxRequests := 10;
     skipSuccessfulRequests := true; skipFailedRequests := false |}.

Definition token : RateLimitConfig :=
  {| windowMs := 5 * 60 * 1000; maxRequests := 5;
     skipSuccessfulRequests := false; skipFailedRequests := false |}.

(** [RATE_LIMITS[type]] on the own properties of the table. *)
Definition RATE_LIMITS (type : string) : option RateLimitConfig :=
  if String.eqb type "api" then Some api
  else if String.eqb type "shopify" then Some shopify
  else if String.eqb type "external" then Some external
  else if String.eqb type "auth" then Some auth
  else if String.eqb type "token" then Some token
  else None.

(** [RATE_LIMITS[type] || RATE_LIMITS.api], for a [type] that is not a name
    inherited from [Object.prototype]: there the lookup gives a class of the
    table or undefined.  (On an inherited name it gives a method or an
    object, which is truthy and has none of the four properties.) *)
Definition config_of (type : string) : RateLimitConfig :=
  match RATE_LIMITS type with Some c => c | None => api end.

Definition generateKey (identifier endpoint type : string) : string :=
  type ++ ":" ++ identifier ++ ":" ++ endpoint.

(** What [getClientIdentifier] reads of a request: the [shop] parameter of
    its URL and two headers, each absent ([None]) or a string. *)
Record Request : Type := {
  shop : option string;
  x_forwarded_for : option string;
  x_real_ip : option string;
}.

Definition truthy_str (o : option string) : option string :=
  match o with
  | Some s => if String.eqb s "" then None else Some s
  | None => None
  end.

(** [s.split(',')[0]] *)
Definition first_field (s : string) : string :=
  fst (span (fun c => negb (is_char "," c)) s).

Definition getClientIdentifier (request : Request) : string :=
  match truthy_str (shop request) with
  | Some shop => shop
  | None =>
      match truthy_str (x_forwarded_for request) with
      | Some forwarded => trim (first_field forwarded)
      | None =>
          match truthy_str (x_real_ip request) with
          | Some ip => ip
          | None => "unknown"
          end
      end
  end.

Record RateLimitData : Type := {
  count : Z;
  resetTime : Z;
  firstRequest : Z;
}.

(** [cleanupExpiredEntries], at its own reading [now] of the clock. *)
Definition cleanupExpiredEntries (now : Z)
    (rateLimitStore : gmap string RateLimitData) : gmap string RateLimitData :=
  filter (fun kv => ¬ (resetTime kv.2 < now)) rateLimitStore.

Record RateLimitInfo : Type := {
  limit : Z;
  remaining : Z;
  reset : Z;
  retryAfter : option Z;
}.

(** [Math.ceil(a / b)] for a positive [b]. *)
Definition ceil_div (a b : Z) : Z := - ((- a) / b).

(** What one call of [checkRateLimit] reads from its environment: the clock,
    and, when [Math.random() < 0.01], the later clock reading taken inside
    [cleanupExpiredEntries]. *)
Record Env : Type := {
  now : Z;
  cleanup : option Z;
}.

Definition checkRateLimit (request : Request) (endpoint type : string)
    (env : Env) (rateLimitStore : gmap string RateLimitData)
  : gmap string RateLimitData * result AppError RateLimitInfo :=
  let config := config_of type in
  let identifier := getClientIdentifier request in
  let key := generateKey identifier endpoint type in
  let now := now env in
  (* Clean up expired entries periodically *)
  let rateLimitStore :=
    match cleanup env with
    | Some t => cleanupExpiredEntries t rateLimitStore
    | None => rateLimitStore
    end in
  (* Get or create rate limit data *)
  let newWindow :=
    {| count := 0; resetTime := now + windowMs config; firstRequest := now |} in
  let '(limitData, rateLimitStore) :=
    match rateLimitStore !! key with
    | Some limitData =>
        if resetTime limitData <? now
        then (newWindow, <[key := newWindow]> rateLimitStore)
        else (limitData, rateLimitStore)
    | None => (newWindow, <[key := newWindow]> rateLimitStore)
    end in
  (* Check if limit exceeded *)
  if maxRequests config <=? count limitData then
    let retryAfter := ceil_div (resetTime limitData - now) 1000 in
    (rateLimitStore, Throw (createRateLimitError (Some retryAfter)))
  else
    (* Increment counter *)
    let limitData :=
      {| count := count limitData + 1; resetTime := resetTime limitData;
         firstRequest := firstRequest limitData |} in
    let rateLimitStore := <[key := limitData]> rateLimitStore in
    (rateLimitStore,
     Ok {| limit := maxRequests config;
           remaining := Z.max 0 (maxRequests config - count limitData);
           reset := resetTime limitData;
           retryAfter :=
             if maxRequests config <=? count limitData
             then Some (ceil_div (resetTime limitData - now) 1000)
             else None |}).

(** The decrement shared by [recordSuccess] and [recordFailure]. *)
Definition decrement (key : string)
    (rateLimitStore : gmap string RateLimitData) : gmap string RateLimitData :=
  match rateLimitStore !! key with
  | Some limitData =>
      if 0 <? count limitData then
        <[key := {| count := count limitData - 1;
                    resetTime := resetTime limitData;
                    firstRequest := firstRequest limitData |}]> rateLimitStore
      else rateLimitStore
  | None => rateLimitStore
  end.

Definition recordSuccess (request : Request) (endpoint type : string)
    (rateLimitStore : gmap string RateLimitData) : gmap string RateLimitData :=
  let config := config_of type in
  if skipSuccessfulRequests config then
    decrement (generateKey (getClientIdentifier request) endpoint type)
      rateLimitStore
  else rateLimitStore.

Definition recordFailure (request : Request) (endpoint type : string)
    (rateLimitStore : gmap string RateLimitData) : gmap string RateLimitData :=
  let config := config_of type in
  if skipFailedRequests config then
    decrement (generateKey (getClientIdentifier request) endpoint type)
      rateLimitStore
  else rateLimitStore.

(** *** ShopifyRateLimiter *)

Record Bucket : Type := {
  tokens : Q;
  lastRefill : Z;
  maxTokens : Q;
  refillRate : Q;
}.

Definition newBucket (created : Z) : Bucket :=
  {| tokens := 40; lastRefill := created; maxTokens := 40; refillRate := 2 |}.

Definition set_tokens (b : Bucket) (t : Q) : Bucket :=
  {| tokens := t; lastRefill := lastRefill b; maxTokens := maxTokens b;
     refillRate := refillRate b |}.

(** Refill tokens based on time passed. *)
Definition refill (now : Z) (bucket : Bucket) : Bucket :=
  let timePassed := (inject_Z (now - lastRefill bucket) / 1000)%Q in
  let tokensToAdd := Qfloor (timePassed * refillRate bucket) in
  if 0 <? tokensToAdd then
    {| tokens := Qmin (maxTokens bucket) (tokens bucket + inject_Z tokensToAdd);
       lastRefill := now;
       maxTokens := maxTokens bucket;
       refillRate := refillRate bucket |}
  else bucket.

Record Availability : Type := {
  remainingTokens : Q;
  availableMax : Q;                      (* the [maxTokens] of the result *)
}.

(** [waitForAvailability] up to its [await], at the two clock readings
    [created] (taken when the bucket is created) and [now].  The bucket is a
    shared object, so what the function has written so far is in the map
    when the caller is suspended.  [inl waitTime]: suspended for that many
    milliseconds; [inr info]: returned without waiting. *)
Definition acquire_start (shop : string) (requestCost : Q) (created now : Z)
    (buckets : gmap string Bucket)
  : gmap string Bucket * (Z + Availability) :=
  let key := "shopify:" ++ shop in
  let bucket :=
    match buckets !! key with
    | Some bucket => bucket
    | None => newBucket created
    end in
  let bucket := refill now bucket in
  (* Check if we have enough tokens *)
  if Qlt_le_dec (tokens bucket) requestCost then
    let waitTime :=
      Qceiling ((requestCost - tokens bucket) / refillRate bucket * 1000)%Q in
    (<[key := bucket]> buckets, inl waitTime)
  else
    (* Consume tokens *)
    let bucket := set_tokens bucket (tokens bucket - requestCost)%Q in
    (<[key := bucket]> buckets,
     inr {| remainingTokens := tokens bucket; availableMax := maxTokens bucket |}).

(** [waitForAvailability] from the moment its timer fires: it reads the
    bucket as it is then. *)
Definition acquire_resume (shop : string) (requestCost : Q)
    (buckets : gmap string Bucket)
  : gmap string Bucket * option Availability :=
  let key := "shopify:" ++ shop in
  match buckets !! key with
  | Some bucket =>
      let bucket :=
        set_tokens bucket (Qmin (maxTokens bucket) (tokens bucket + requestCost))%Q in
      (<[key := bucket]> buckets,
       Some {| remainingTokens := tokens bucket;
               availableMax := maxTokens bucket |})
  | None => (buckets, None)
  end.

(** A call that runs alone: nothing else touches the map while it waits.
    The result holds the time waited, if any. *)
Definition waitForAvailability (shop : string) (requestCost : Q)
    (created now : Z) (buckets : gmap string Bucket)
  : gmap string Bucket * option (option Z * Availability) :=
  match acquire_start shop requestCost created now buckets with
  | (buckets, inr info) => (buckets, Some (None, info))
  | (buckets, inl waitTime) =>
      match acquire_resume shop requestCost buckets with
      | (buckets, Some info) => (buckets, Some (Some waitTime, info))
      | (buckets, None) => (buckets, None)
      end
  end.

(** *** Sequences of calls *)

(** The fixed catalog of limit classes. *)
Definition in_catalog (type : string) : Prop :=
  In type ["api"; "shopify"; "external"; "auth"; "token"].

(** A call on the fixed-window limiter. *)
Inductive Call : Type :=
| CheckRateLimit (request : Request) (endpoint type : string) (env : Env)
| RecordSuccess (request : Request) (endpoint type : string)
| RecordFailure (request : Request) (endpoint type : string).

Definition call_type (c : Call) : string :=
  match c with
  | CheckRateLimit _ _ type _ | RecordSuccess _ _ type
  | RecordFailure _ _ type => type
  end.

(** The store after a call; the result of a check is dropped. *)
Definition perform (c : Call) (rateLimitStore : gmap string RateLimitData)
  : gmap string RateLimitData :=
  match c with
  | CheckRateLimit request endpoint type env =>
      fst (checkRateLimit request endpoint type env rateLimitStore)
  | RecordSuccess request endpoint type =>
      recordSuccess request endpoint type rateLimitStore
  | RecordFailure request endpoint type =>
      recordFailure request endpoint type rateLimitStore
  end.

Definition run (calls : list Call) (rateLimitStore : gmap string RateLimitData)
  : gmap string RateLimitData :=
  fold_left (fun s c => perform c s) calls rateLimitStore.

(** Every entry was made for a class of the catalog, and holds a count
    between 0 and the maximum of that class. *)
Definition bounded (rateLimitStore : gmap string RateLimitData) : Prop :=
  forall key d,
    rateLimitStore !! key = Some d ->
    exists type identifier endpoint,
      in_catalog type /\ key = generateKey identifier endpoint type /\
      0 <= count d <= maxRequests (config_of type).

(** Consecutive checks for one request, endpoint and class, one per
    environment, with their results in order. *)
Fixpoint check_each (request : Request) (endpoint type : string)
    (envs : list Env) (rateLimitStore : gmap string RateLimitData)
  : gmap string RateLimitData * list (result AppError RateLimitInfo) :=
  match envs with
  | [] => (rateLimitStore, [])
  | env :: envs' =>
      let (s1, r) := checkRateLimit request endpoint type env rateLimitStore in
      let (s2, rs) := check_each request endpoint type envs' s1 in
      (s2, r :: rs)
  end.

(** The store as the lookup of a check finds it. *)
Definition swept (env : Env) (rateLimitStore : gmap string RateLimitData)
  : gmap string RateLimitData :=
  match cleanup env with
  | Some t => cleanupExpiredEntries t rateLimitStore
  | None => rateLimitStore
  end.

(** A check in [env] opens a window for [key]: it finds no entry, or an
    entry whose reset time has passed. *)
Definition opens_window (key : string) (env : Env)
    (rateLimitStore : gmap string RateLimitData) : Prop :=
  match swept env rateLimitStore !! key with
  | None => True
  | Some d => resetTime d < now env
  end.

(** A check in [env] falls inside the window that resets at [R]: none of
    its clock readings has passed [R]. *)
Definition inside_window (R : Z) (env : Env) : Prop :=
  now env <= R /\
  match cleanup env with Some t => t <= R | None => True end.

(** Sequential calls on the token bucket: shop, cost and the two clock
    readings of each call. *)
Record Acquire : Type := {
  acq_shop : string;
  acq_cost : Q;
  acq_created : Z;
  acq_now : Z;
}.

Definition acquire_all (calls : list Acquire) (buckets : gmap string Bucket)
  : gmap string Bucket :=
  fold_left
    (fun b c =>
       fst (waitForAvailability (acq_shop c) (acq_cost c) (acq_created c)
              (acq_now c) b))
    calls buckets.

Definition within_capacity (buckets : gmap string Bucket) : Prop :=
  forall key b, buckets !! key = Some b ->
    (0 <= tokens b /\ tokens b <= maxTokens b)%Q.

(** A whole number of tokens, of a size that a bucket can hold.  On whole
    numbers the sums, the differences and the halves that
    [waitForAvailability] computes are exact in the doubles of the
    program. *)
Definition whole (q : Q) : Prop :=
  exists z : Z, (q == inject_Z z)%Q /\ Z.abs z <= 2 ^ 31.



End RateLimiter.

(** ** rateLimiter.js: the wrapper of route handlers and the status query *)

Module Middleware.
Import ErrorHandler RateLimiter.

(** The [Headers] of a [Response].  Header names do not distinguish case
    and are kept in lower case; when the guard is immutable every [set]
    throws a TypeError. *)
Record Headers : Type := {
  immutable : bool;
  entries : gmap string string;
}.

Definition headers_set (name value : string) (headers : Headers)
  : result native_error Headers :=
  if immutable headers then Throw (TypeError "immutable")
  else Ok {| immutable := false;
             entries := <[toLowerCase name := value]> (entries headers) |}.

(** A [Response]; its body is a text, or null. *)
Record Response : Type := {
  status : Z;
  headers : Headers;
  body : option string;
}.

(** What a handler resolves to: a [Response], or some other value. *)
Inductive Returned : Type :=
| IsResponse (response : Response)
| NotResponse (v : value).

(** A route handler.  It is awaited, so what it stands for includes
    whatever else runs on the store until it settles. *)
Definition Handler (Args : Type) : Type :=
  Args -> gmap string RateLimitData
  -> gmap string RateLimitData * result thrown Returned.

(** [n.toString()] on an integer. *)
Definition Z_toString (n : Z) : string := num_toString (of_Z n).

(** Add rate limit headers to response. *)
Definition add_headers (rateLimitInfo : RateLimitInfo) (response : Response)
  : result native_error Response :=
  let* h :=
    headers_set "X-RateLimit-Limit" (Z_toString (limit rateLimitInfo))
      (headers response) in
  let* h :=
    headers_set "X-RateLimit-Remaining" (Z_toString (remaining rateLimitInfo))
      h in
  let* h :=
    headers_set "X-RateLimit-Reset" (Z_toString (reset rateLimitInfo)) h in
  let* h :=
    match retryAfter rateLimitInfo with
    | Some n =>
        if n =? 0 then Ok h else headers_set "Retry-After" (Z_toString n) h
    | None => Ok h
    end in
  Ok {| status := status response; headers := h; body := body response |}.

Definition withRateLimit {Args : Type} (request : Args -> Request)
    (handler : Handler Args) (endpoint type : string)
    (args : Args) (env : Env) (rateLimitStore : gmap string RateLimitData)
  : gmap string RateLimitData * result thrown Returned :=
  let request := request args in
  (* Check rate limit *)
  match checkRateLimit request endpoint type env rateLimitStore with
  | (rateLimitStore, Throw error) =>
      (* Record failure if needed *)
      (recordFailure request endpoint type rateLimitStore, Throw (App error))
  | (rateLimitStore, Ok rateLimitInfo) =>
      (* Execute the handler *)
      match handler args rateLimitStore with
      | (rateLimitStore, Throw error) =>
          (recordFailure request endpoint type rateLimitStore, Throw error)
      | (rateLimitStore, Ok response) =>
          (* Record success if needed *)
          let rateLimitStore :=
            recordSuccess request endpoint type rateLimitStore in
          match response with
          | IsResponse r =>
              match add_headers rateLimitInfo r with
              | Ok r => (rateLimitStore, Ok (IsResponse r))
              | Throw error =>
                  (recordFailure request endpoint type rateLimitStore,
                   Throw (Native error))
              end
          | NotResponse v => (rateLimitStore, Ok (NotResponse v))
          end
      end
  end.

(** The object that [getRateLimitStatus] returns; [reset] is null and
    [count] is absent when the key has no entry. *)
Record RateLimitStatus : Type := {
  status_limit : Z;
  status_remaining : Z;
  status_reset : option Z;
  status_windowMs : Z;
  status_count : option Z;
}.

Definition getRateLimitStatus (request : Request) (endpoint type : string)
    (rateLimitStore : gmap string RateLimitData) : RateLimitStatus :=
  let identifier := getClientIdentifier request in
  let key := generateKey identifier endpoint type in
  let config := config_of type in
  match rateLimitStore !! key with
  | None =>
      {| status_limit := maxRequests config;
         status_remaining := maxRequests config;
         status_reset := None;
         status_windowMs := windowMs config;
         status_count := None |}
  | Some limitData =>
      {| status_limit := maxRequests config;
         status_remaining := Z.max 0 (maxRequests config - count limitData);
         status_reset := Some (resetTime limitData);
         status_windowMs := windowMs config;
         status_count := Some (count limitData) |}
  end.

End Middleware.

(** ** app/utils/middleware.js *)

Module Embedding.
Import Middleware.

(** Add CORS headers for Shopify embedding. *)
Definition addCorsHeaders (headers : Headers) : result native_error Headers :=
  let* headers := headers_set "Access-Control-Allow-Origin" "*" headers in
  let* headers :=
    headers_set "Access-Control-Allow-Methods"
      "GET, POST, PUT, DELETE, OPTIONS" headers in
  let* headers :=
    headers_set "Access-Control-Allow-Headers"
      "Content-Type, Authorization, X-Shopify-Access-Token" headers in
  let* headers :=
    headers_set "Access-Control-Allow-Credentials" "true" headers in
  Ok headers.

(** Add Shopify embedding headers. *)
Definition addEmbeddingHeaders (headers : Headers)
  : result native_error Headers :=
  let* headers := headers_set "X-Frame-Options" "ALLOWALL" headers in
  let* headers :=
    headers_set "Content-Security-Policy"
      "frame-ancestors https://*.myshopify.com https://admin.shopify.com;"
      headers in
  Ok headers.

(** Add security headers. *)
Definition addSecurityHeaders (headers : Headers)
  : result native_error Headers :=
  let* headers := headers_set "X-Content-Type-Options" "nosniff" headers in
  let* headers := headers_set "X-XSS-Protection" "1; mode=block" headers in
  let* headers :=
    headers_set "Referrer-Policy" "strict-origin-when-cross-origin" headers in
  Ok headers.

Definition setupShopifyHeaders (headers : Headers)
  : result native_error Headers :=
  let* headers := addCorsHeaders headers in
  let* headers := addEmbeddingHeaders headers in
  let* headers := addSecurityHeaders headers in
  Ok headers.

(** [new Headers()] *)
Definition new_Headers : Headers := {| immutable := false; entries := ∅ |}.

(** Handle preflight OPTIONS requests; [None] is null. *)
Definition handlePreflight (method : string)
  : result native_error (option Response) :=
  if String.eqb method "OPTIONS" then
    let headers := new_Headers in
    let* headers := setupShopifyHeaders headers in
    Ok (Some {| status := 200; headers := headers; body := None |})
  else Ok None.

End Embedding.

(** ** errorHandler.js: the factories of the API clients and the error
    response *)

Module ErrorFactories.
Import ErrorHandler.

(** What these factories put under [context]. *)
Inductive ApiContext : Type :=
| ExternalApiContext (apiName : string) (originalStatusCode : Z)
    (responseData : value)
| DatabaseContext (operation : string) (originalError : option string)
| ShopifyApiContext (operation : string) (originalError : option string).

(** [AppError] as these factories build it; the creation timestamp is left
    out. *)
Record ApiError : Type := {
  message : string;
  type : ErrorType;
  statusCode : Z;
  severity : ErrorSeverity;
  context : ApiContext;
}.

Definition createExternalApiError (apiName : string) (statusCode : Z)
    (message : string) (responseData : value) : ApiError :=
  {| message := "External API error from " ++ apiName ++ ": " ++ message;
     type := EXTERNAL_API;
     statusCode :=
       if (400 <=? statusCode) && (statusCode <? 600) then statusCode else 502;
     severity := if 500 <=? statusCode then HIGH else MEDIUM;
     context := ExternalApiContext apiName statusCode responseData |}.

(** [originalError] stands for [originalError?.message]. *)
Definition createDatabaseError (operation : string)
    (originalError : option string) : ApiError :=
  {| message := "Database operation failed: " ++ operation;
     type := DATABASE;
     statusCode := 500;
     severity := HIGH;
     context := DatabaseContext operation originalError |}.

Definition createShopifyApiError (operation : string)
    (originalError : option string) (statusCode : option Z) : ApiError :=
  let statusCode := match statusCode with Some c => c | None => 500 end in
  {| message :=
       "Shopify API error during " ++ operation ++ ": " ++
       match originalError with
       | Some m => if String.eqb m "" then "Unknown error" else m
       | None => "Unknown error"
       end;
     type := SHOPIFY_API;
     statusCode := statusCode;
     severity := if 500 <=? statusCode then HIGH else MEDIUM;
     context := ShopifyApiContext operation originalError |}.

(** What a handler may throw: an [AppError] of either kind, another
    [Error] with its name and message, or a value that is not an error. *)
Inductive Raised : Type :=
| RaisedApp (e : AppError)
| RaisedApi (e : ApiError)
| RaisedError (name message : string)
| RaisedValue (v : value).

Inductive ErrorContext : Type :=
| NoContext
| AppContext (c : Context)
| ApiErrorContext (c : ApiContext).

(** The payload of the error response; its timestamp and the stack of the
    error are left out.  [details] is present in development only. *)
Record ErrorPayload : Type := {
  success : bool;
  error_type : string;
  error_message : string;
  details : option ErrorContext;
}.

Record ErrorResponse : Type := {
  status : Z;
  content_type : string;
  x_error_type : string;
  payload : ErrorPayload;
}.

(** What the platform throws here. *)
Inductive HostError : Type :=
| RangeError (msg : string)
| HostTypeError (msg : string).

(** The [Response] constructor, behind [json]: it takes a status from 200
    to 599, and no body with a null-body status. *)
Definition null_body_status (status : Z) : bool :=
  (status =? 204) || (status =? 205) || (status =? 304).

Definition json (payload : ErrorPayload) (status : Z) (type : string)
  : result HostError ErrorResponse :=
  if negb ((200 <=? status) && (status <=? 599)) then
    Throw (RangeError "The status provided is outside the range [200, 599]")
  else if null_body_status status then
    Throw (HostTypeError "Response with null body status cannot have body")
  else
    Ok {| status := status; content_type := "application/json";
          x_error_type := type; payload := payload |}.

Definition createErrorResponse (isDevelopment : bool) (error : Raised)
  : result HostError ErrorResponse :=
  (* Handle different error types *)
  let '(statusCode, type, message, context) :=
    match error with
    | RaisedApp e =>
        (ErrorHandler.statusCode e, ErrorHandler.type e,
         ErrorHandler.message e, AppContext (ErrorHandler.context e))
    | RaisedApi e =>
        (statusCode e, type e, message e, ApiErrorContext (context e))
    | RaisedError _ message =>
        if includes "fetch" message then (503, NETWORK, message, NoContext)
        else if includes "unauthorized" message
                || includes "authentication" message
        then (401, AUTHENTICATION, message, NoContext)
        else if includes "forbidden" message || includes "permission" message
        then (403, AUTHORIZATION, message, NoContext)
        else if includes "not found" message
        then (404, NOT_FOUND, message, NoContext)
        else (500, INTERNAL, message, NoContext)
    | RaisedValue _ =>
        (500, INTERNAL, "An unexpected error occurred", NoContext)
    end in
  (* Create response payload *)
  let responsePayload :=
    {| success := false;
       error_type := ErrorTypes type;
       error_message := message;
       details := if isDevelopment then Some context else None |} in
  json responsePayload statusCode (ErrorTypes type).

(** [asyncErrorHandler]: the wrapped handler has run and has returned [r],
    or thrown.  The catch block reads [error.message] before it builds the
    response. *)
Definition asyncErrorHandler {R : Type} (isDevelopment : bool)
    (handled : result Raised R) : result HostError (R + ErrorResponse) :=
  match handled with
  | Ok r => Ok (inl r)
  | Throw error =>
      match error with
      | RaisedValue v =>
          if is_nullish v then
            Throw (HostTypeError "Cannot read properties of null or undefined")
          else
            let* response := createErrorResponse isDevelopment error in
            Ok (inr response)
      | _ =>
          let* response := createErrorResponse isDevelopment error in
          Ok (inr response)
      end
  end.

End ErrorFactories.

(** ** app/utils/apiClient.js *)

Module ApiClient.
Import ErrorHandler ErrorFactories.

(** [new URL(url).hostname], and [None] when the constructor throws. *)
Class Network : Type := {
  URL_hostname : string -> option string;
}.

(** An error of the platform: what [fetch] and the readers of a body throw. *)
Record NativeError : Type := {
  name : string;
  native_message : string;
}.

(** What one call of [fetch] comes to: it rejects, or it gives a response
    with its status, status text and headers, and with what reading its body
    as text and as JSON gives. *)
Inductive Fetched : Type :=
| Rejected (error : NativeError)
| Responded (status : Z) (statusText : string)
    (headers : list (string * string))
    (text : result NativeError string) (parsed : result NativeError value).

(** [response.ok] *)
Definition ok (status : Z) : bool := (200 <=? status) && (status <=? 299).

(** The options of the constructor that [request] reads. *)
Record Client : Type := {
  baseURL : string;
  timeout : Z;
  retries : Z;
  retryDelay : Z;
  defaultHeaders : gmap string string;
}.

Record ClientOptions : Type := {
  opt_baseURL : option string;
  opt_timeout : option Z;
  opt_retries : option Z;
  opt_retryDelay : option Z;
  opt_headers : option (gmap string string);
}.

(** [o || d] on an optional integer: 0 and an absent property are falsy. *)
Definition Z_or (o : option Z) (d : Z) : Z :=
  match o with
  | Some n => if n =? 0 then d else n
  | None => d
  end.

Definition new_ApiClient (options : ClientOptions) : Client :=
  {| baseURL := Validation.str_or (opt_baseURL options) "";
     timeout := Z_or (opt_timeout options) 30000;
     retries := Z_or (opt_retries options) 3;
     retryDelay := Z_or (opt_retryDelay options) 1000;
     defaultHeaders :=
       match opt_headers options with Some h => h | None => ∅ end |}.

(** A platform that parses no URL, for closed examples: every API is the
    Unknown API. *)
Definition unparsed : Network := {| URL_hostname := fun _ => None |}.

Definition getApiName `{Network} (url : string) : string :=
  match URL_hostname url with
  | Some hostname => hostname
  | None => "Unknown API"
  end.

(** What the catch block of [request] holds: an error of the platform, or
    the [AppError] thrown inside the try. *)
Inductive Caught : Type :=
| CaughtNative (error : NativeError)
| CaughtApp (error : ApiError).

Definition shouldRetry (error : Caught) : bool :=
  match error with
  | CaughtNative e =>
      String.eqb (name e) "AbortError"
      || includes "network" (native_message e)
      || includes "timeout" (native_message e)
  | CaughtApp e =>
      ((500 <=? statusCode e) && (statusCode e <? 600))
      || includes "network" (message e)
      || includes "timeout" (message e)
  end.

Definition truthy (v : string) : bool := negb (String.eqb v "").

Definition sanitizeHeaders (headers : gmap string string) : gmap string string :=
  let sanitized := headers in
  (* Remove sensitive headers from logs *)
  let sanitized :=
    match sanitized !! "Authorization" with
    | Some v =>
        if truthy v then <["Authorization" := "[REDACTED]"]> sanitized
        else sanitized
    | None => sanitized
    end in
  let sanitized :=
    match sanitized !! "X-Shopify-Access-Token" with
    | Some v =>
        if truthy v then <["X-Shopify-Access-Token" := "[REDACTED]"]> sanitized
        else sanitized
    | None => sanitized
    end in
  sanitized.

(** The properties of an options object: a headers object, a string (the
    method, the body), or undefined. *)
Inductive Setting : Type :=
| SHeaders (h : gmap string string)
| SStr (s : string)
| SNum (n : Z)
| SUndefined.

(** [{...o}] of a setting that should hold headers. *)
Definition spread_headers (o : option Setting) : gmap string string :=
  match o with
  | Some (SHeaders h) => h
  | _ => ∅
  end.

(** The options that [request] passes on to [fetch].  A later spread wins:
    [a ∪ b] keeps the entries of [a]. *)
Definition requestOptions (client : Client) (options : gmap string Setting)
  : gmap string Setting :=
  options ∪
  {[ "timeout" := SNum (timeout client);
     "headers" :=
       SHeaders (spread_headers (options !! "headers") ∪
                 defaultHeaders client ∪
                 {[ "Content-Type" := "application/json";
                    "User-Agent" := "Shopify-App/1.0" ]}) ]}.

(** What [request] resolves to; the request id is left out. *)
Record Reply : Type := {
  data : value;
  reply_status : Z;
  reply_headers : list (string * string);
}.

(** What [request] throws: an [AppError], or undefined when the loop has not
    run. *)
Inductive Thrown : Type :=
| ThrownUndefined
| ThrownError (error : ApiError).

(** A run of [request]: the calls of [fetch] made, the delays waited in
    order, and how it ended. *)
Record Run : Type := {
  fetches : nat;
  delays : list Z;
  outcome : result Thrown Reply;
}.

Definition after_fetch (r : Run) : Run :=
  {| fetches := S (fetches r); delays := delays r; outcome := outcome r |}.

Definition after_delay (ms : Z) (r : Run) : Run :=
  {| fetches := fetches r; delays := ms :: delays r; outcome := outcome r |}.

Section Request.
Context `{Network}.
Variable client : Client.
(** The calls of [fetch] in order, the first one at index 1. *)
Variable fetch : Z -> Fetched.
Variable fullUrl : string.

(** The catch block of the loop, in the iteration [attempt]; [next] is the
    rest of the loop, from the following iteration on, given the last
    error. *)
Definition caught (attempt : Z) (next : Thrown -> Run) (error : Caught) : Run :=
  let lastError :=
    match error with
    | CaughtNative e =>
        if String.eqb (name e) "AbortError" then
          createExternalApiError (getApiName fullUrl) 408 "Request timeout" VNull
        else
          createExternalApiError (getApiName fullUrl) 500
            ("Network error: " ++ native_message e) VNull
    | CaughtApp e =>
        if String.eqb (ErrorTypes (type e)) "EXTERNAL_API_ERROR" then e
        else
          createExternalApiError (getApiName fullUrl) 500
            ("Network error: " ++ message e) VNull
    end in
  if (attempt <? retries client) && shouldRetry error then
    after_delay (retryDelay client * attempt) (next (ThrownError lastError))
  else
    {| fetches := 0; delays := []; outcome := Throw (ThrownError lastError) |}.

(** The error for a response that is not ok. *)
Definition http_error (status : Z) (statusText errorText : string) : ApiError :=
  createExternalApiError (getApiName fullUrl) status
    ("HTTP " ++ num_toString (of_Z status) ++ ": " ++ statusText)
    (VStr errorText).

(** The loop of [request] from the iteration [attempt] on, with [left]
    iterations to go at most. *)
Fixpoint attempts (left : nat) (attempt : Z) (lastError : Thrown) : Run :=
  match left with
  | O => {| fetches := 0; delays := []; outcome := Throw lastError |}
  | S left' =>
      let next := attempts left' (attempt + 1) in
      after_fetch
        match fetch attempt with
        | Rejected error => caught attempt next (CaughtNative error)
        | Responded status statusText headers text parsed =>
            if negb (ok status) then
              match text with
              | Throw error => caught attempt next (CaughtNative error)
              | Ok errorText =>
                  let error := http_error status statusText errorText in
                  (* Don't retry on client errors (4xx) *)
                  if (400 <=? status) && (status <? 500) then
                    caught attempt next (CaughtApp error)
                  else if attempt <? retries client then
                    after_delay (retryDelay client * attempt)
                      (next (ThrownError error))
                  else caught attempt next (CaughtApp error)
              end
            else
              match parsed with
              | Throw error => caught attempt next (CaughtNative error)
              | Ok data =>
                  {| fetches := 0; delays := [];
                     outcome :=
                       Ok {| data := data; reply_status := status;
                             reply_headers := headers |} |}
              end
        end
  end.

End Request.

(** [request(url, options)].  The loop runs for [attempt] from 1 to
    [retries]. *)
Definition request `{Network} (client : Client) (fetch : Z -> Fetched)
    (url : string) : Run :=
  let fullUrl :=
    if String.eqb (baseURL client) "" then url else baseURL client ++ url in
  attempts client fetch fullUrl (Z.to_nat (retries client)) 1 ThrownUndefined.

(** *** ShopifyApiClient *)

(** The constructor: the options of the caller come last in the spread and
    replace the base URL and the headers of the class. *)
Definition new_ShopifyApiClient (shop accessToken : string)
    (options : ClientOptions) : Client :=
  new_ApiClient
    {| opt_baseURL :=
         match opt_baseURL options with
         | Some b => Some b
         | None => Some ("https://" ++ shop ++ "/admin/api/2024-01")
         end;
       opt_timeout := opt_timeout options;
       opt_retries := opt_retries options;
       opt_retryDelay := opt_retryDelay options;
       opt_headers :=
         match opt_headers options with
         | Some h => Some h
         | None => Some {[ "X-Shopify-Access-Token" := accessToken ]}
         end |}.

(** The catch block of the Shopify client: what it throws for what it has
    caught.  Undefined has no [type] to read. *)
Definition convert (method : option string) (url : string) (thrown : Thrown)
  : native_error + ApiError :=
  match thrown with
  | ThrownUndefined =>
      inl (TypeError "Cannot read properties of undefined")
  | ThrownError error =>
      if String.eqb (ErrorTypes (type error)) "EXTERNAL_API_ERROR" then
        inr (createShopifyApiError
               (Validation.str_or method "GET" ++ " " ++ url)
               (Some (message error)) (Some (statusCode error)))
      else inr error
  end.

Record ShopifyRun : Type := {
  shopify_fetches : nat;
  shopify_delays : list Z;
  shopify_outcome : result (native_error + ApiError) Reply;
}.

(** [request] of the Shopify client: one token of the bucket of the shop is
    taken, or waited for, before the request is made; what the limiter
    returns is not used. *)
Definition ShopifyApiClient_request `{Network} (shop : string)
    (client : Client) (fetch : Z -> Fetched) (url : string)
    (method : option string) (created now : Z)
    (buckets : gmap string RateLimiter.Bucket)
  : gmap string RateLimiter.Bucket * ShopifyRun :=
  let buckets :=
    fst (RateLimiter.waitForAvailability shop 1 created now buckets) in
  let run := request client fetch url in
  (buckets,
   {| shopify_fetches := fetches run;
      shopify_delays := delays run;
      shopify_outcome :=
        match outcome run with
        | Ok result => Ok result
        | Throw error => Throw (convert method url error)
        end |}).

End ApiClient.

(** ** Vocabulary of the further properties *)

Module Vocabulary.

(** Every character of the string satisfies [p]. *)
Fixpoint all_chars (p : ascii -> bool) (s : string) : bool :=
  match s with
  | EmptyString => true
  | String c s' => p c && all_chars p s'
  end.

Definition no_colon (s : string) : bool :=
  all_chars (fun c => negb (is_char ":" c)) s.

(** The characters that the sanitizer leaves in a token and in a phone
    number. *)
Definition token_char (c : ascii) : bool := is_word c || one_of "-." c.
Definition phone_char (c : ascii) : bool :=
  is_digit c || one_of "+-()" c || is_space c.

(** The entry of the window that is running for [key] when a check is made
    in [env], if there is one: the entry that the lookup of the check finds
    and does not replace. *)
Definition current_window (key : string) (env : RateLimiter.Env)
    (rateLimitStore : gmap string RateLimiter.RateLimitData)
  : option RateLimiter.RateLimitData :=
  match RateLimiter.swept env rateLimitStore !! key with
  | Some d =>
      if RateLimiter.resetTime d <? RateLimiter.now env then None else Some d
  | None => None
  end.

(** The key that a call works on. *)
Definition call_key (c : RateLimiter.Call) : string :=
  match c with
  | RateLimiter.CheckRateLimit request endpoint type _
  | RateLimiter.RecordSuccess request endpoint type
  | RateLimiter.RecordFailure request endpoint type =>
      RateLimiter.generateKey (RateLimiter.getClientIdentifier request)
        endpoint type
  end.

(** The call reads no clock value after [t]. *)
Definition not_after (t : Z) (c : RateLimiter.Call) : Prop :=
  match c with
  | RateLimiter.CheckRateLimit _ _ _ env =>
      RateLimiter.now env <= t /\
      match RateLimiter.cleanup env with Some t' => t' <= t | None => True end
  | _ => True
  end.

(** A failure that passes: the call of [fetch] was aborted by the timeout,
    or the server answered with a status from 500 to 599 and a body that
    can be read. *)
Definition transient (f : ApiClient.Fetched) : Prop :=
  match f with
  | ApiClient.Rejected e => ApiClient.name e = "AbortError"
  | ApiClient.Responded status _ _ (Ok _) _ => 500 <= status <= 599
  | _ => False
  end.

(** The status code of the error that [request] keeps for such a failure. *)
Definition transient_status (f : ApiClient.Fetched) : Z :=
  match f with
  | ApiClient.Rejected _ => 408
  | ApiClient.Responded status _ _ _ _ => status
  end.

(** An answer that is ok, with a body that parses: what [request] returns
    for it. *)
Definition succeeded (f : ApiClient.Fetched) : option ApiClient.Reply :=
  match f with
  | ApiClient.Responded status _ headers _ (Ok data) =>
      if ApiClient.ok status
      then Some {| ApiClient.data := data; ApiClient.reply_status := status;
                   ApiClient.reply_headers := headers |}
      else None
  | _ => None
  end.

(** The waits of a run with [n] calls of [fetch]. *)
Definition backoff (retryDelay : Z) (n : nat) : list Z :=
  List.map (fun i => retryDelay * Z.of_nat i) (seq 1 (n - 1)).

(** The error of the platform that an attempt ends with, if it does: the
    one that [fetch] rejects with, or the one thrown when the body is read
    (as text when the answer is not ok, as JSON when it is). *)
Definition platform_error (f : ApiClient.Fetched) : option ApiClient.NativeError :=
  match f with
  | ApiClient.Rejected e => Some e
  | ApiClient.Responded status _ _ text parsed =>
      if ApiClient.ok status
      then match parsed with Throw e => Some e | Ok _ => None end
      else match text with Throw e => Some e | Ok _ => None end
  end.

(** The errors that the factories of errorHandler.js build, as the modules
    of the application use them, and the other values that can be thrown. *)
Inductive built_by_factory : ErrorFactories.Raised -> Prop :=
| built_validation (field msg : string) (v : ErrorHandler.rejected) :
    built_by_factory
      (ErrorFactories.RaisedApp (ErrorHandler.createValidationError field msg v))
| built_rate_limit (retryAfter : option Z) :
    built_by_factory
      (ErrorFactories.RaisedApp (ErrorHandler.createRateLimitError retryAfter))
| built_external (apiName : string) (status : Z) (msg : string) (data : value) :
    built_by_factory
      (ErrorFactories.RaisedApi
         (ErrorFactories.createExternalApiError apiName status msg data))
| built_database (operation : string) (original : option string) :
    built_by_factory
      (ErrorFactories.RaisedApi
         (ErrorFactories.createDatabaseError operation original))
| built_shopify (operation : string) (external : ErrorFactories.ApiError) :
    built_by_factory (ErrorFactories.RaisedApi external) ->
    built_by_factory
      (ErrorFactories.RaisedApi
         (ErrorFactories.createShopifyApiError operation
            (Some (ErrorFactories.message external))
            (Some (ErrorFactories.statusCode external))))
| built_shopify_default (operation : string) (original : option string) :
    built_by_factory
      (ErrorFactories.RaisedApi
         (ErrorFactories.createShopifyApiError operation original None))
| other_error (name message : string) :
    built_by_factory (ErrorFactories.RaisedError name message)
| other_value (v : value) :
    built_by_factory (ErrorFactories.RaisedValue v).

(** The status code that an error carries, if it carries one. *)
Definition carried_status (error : ErrorFactories.Raised) : option Z :=
  match error with
  | ErrorFactories.RaisedApp e => Some (ErrorHandler.statusCode e)
  | ErrorFactories.RaisedApi e => Some (ErrorFactories.statusCode e)
  | _ => None
  end.

(** The headers that [setupShopifyHeaders] leaves set, under the names
    that a [Headers] object keeps. *)
Definition shopify_headers : list (string * string) :=
  [ ("access-control-allow-origin", "*");
    ("access-control-allow-methods", "GET, POST, PUT, DELETE, OPTIONS");
    ("access-control-allow-headers",
     "Content-Type, Authorization, X-Shopify-Access-Token");
    ("access-control-allow-credentials", "true");
    ("x-frame-options", "ALLOWALL");
    ("content-security-policy",
     "frame-ancestors https://*.myshopify.com https://admin.shopify.com;");
    ("x-content-type-options", "nosniff");
    ("x-xss-protection", "1; mode=block");
    ("referrer-policy", "strict-origin-when-cross-origin") ].

(** *** What a pattern matches

    [denotes r p s n]: the pattern [r] matches the whole of [s], when the
    character before [s] is [p] and the character after it is [n] (none at
    the two ends of the input).  Stated for the patterns whose repetitions
    are over a character class, as in all the patterns of the validator. *)

Fixpoint last_or (p : option ascii) (s : string) : option ascii :=
  match s with
  | EmptyString => p
  | String c s' => last_or (Some c) s'
  end.

Definition head_or (s : string) (n : option ascii) : option ascii :=
  match s with
  | EmptyString => n
  | String c _ => Some c
  end.

Fixpoint denotes (r : regex) (p : option ascii) (s : string)
    (n : option ascii) : Prop :=
  match r with
  | Never => False
  | Eps => s = ""
  | Class f => exists c, s = String c "" /\ f c = true
  | Seq a b =>
      exists s1 s2,
        s = s1 ++ s2 /\ denotes a p s1 (head_or s2 n) /\
        denotes b (last_or p s1) s2 n
  | Alt a b => denotes a p s n \/ denotes b p s n
  | Star (Class f) => all_chars f s = true
  | Rep (Class f) lo hi =>
      all_chars f s = true /\ (lo <= String.length s <= hi)%nat
  | Star _ | Rep _ _ _ => False
  | Bol => s = "" /\ p = None
  | Eol => s = "" /\ n = None
  | WordB => s = "" /\ xorb (word_at p) (word_at n) = true
  end.

(** The repetitions of the pattern are over character classes. *)
Fixpoint simple (r : regex) : bool :=
  match r with
  | Seq a b | Alt a b => simple a && simple b
  | Star (Class _) | Rep (Class _) _ _ => true
  | Star _ | Rep _ _ _ => false
  | _ => true
  end.

(** The characters of the label of a shop domain. *)
Definition label_char (c : ascii) : bool := is_alnum c || is_char "-" c.

(** The characters of an email address before and after the at sign. *)
Definition local_char (c : ascii) : bool := is_alnum c || one_of "._%+-" c.
Definition domain_char (c : ascii) : bool := is_alnum c || one_of ".-" c.

End Vocabulary.

(** * Properties *)

(** ** Strings *)

Module StringFacts.

Lemma append_nil_r (s : string) : s ++ "" = s.
Proof. induction s as [|c s IH]; simpl; [reflexivity | now rewrite IH]. Qed.

Lemma append_assoc (a b c : string) : (a ++ b) ++ c = a ++ (b ++ c).
Proof. induction a as [|x a IH]; simpl; [reflexivity | now rewrite IH]. Qed.

Lemma startsWith_app (p s : string) : startsWith p (p ++ s) = true.
Proof.
  induction p as [|c p IH]; simpl; [reflexivity |].
  now rewrite Ascii.eqb_refl, IH.
Qed.

Lemma includes_here (sub s : string) : includes sub (sub ++ s) = true.
Proof.
  destruct sub as [|c sub]; destruct s as [|d s]; simpl;
    rewrite ?Ascii.eqb_refl, ?startsWith_app; reflexivity.
Qed.

Lemma includes_app_l (sub pre s : string) :
  includes sub s = true -> includes sub (pre ++ s) = true.
Proof.
  intros Hs. induction pre as [|c pre IH]; simpl; [exact Hs |].
  rewrite IH. apply orb_true_r.
Qed.

(** A string contains each of its infixes. *)
Lemma includes_infix (sub pre post : string) :
  includes sub (pre ++ sub ++ post) = true.
Proof. apply includes_app_l, includes_here. Qed.

Lemma endsWith_unfold (suf s : string) :
  endsWith suf s =
  String.eqb s suf ||
  match s with
  | EmptyString => false
  | String _ s' => endsWith suf s'
  end.
Proof. destruct s; reflexivity. Qed.

Lemma endsWith_app (suf pre : string) : endsWith suf (pre ++ suf) = true.
Proof.
  induction pre as [|c pre IH].
  - change ("" ++ suf) with suf.
    now rewrite endsWith_unfold, String.eqb_refl.
  - change (String c pre ++ suf) with (String c (pre ++ suf)).
    rewrite endsWith_unfold, IH. apply orb_true_r.
Qed.

(** An element of a joined list is an infix of the result. *)
Lemma join_infix (sep x : string) (xs : list string) :
  In x xs -> exists pre post, join sep xs = pre ++ x ++ post.
Proof.
  induction xs as [|y ys IH]; intros Hin; [destruct Hin |].
  destruct Hin as [-> | Hin].
  - destruct ys as [|z ys].
    + exists "", "". simpl. now rewrite append_nil_r.
    + exists "", (sep ++ join sep (z :: ys)). reflexivity.
  - destruct (IH Hin) as (pre & post & E).
    destruct ys as [|z ys]; [destruct Hin |].
    exists (y ++ sep ++ pre), post.
    change (join sep (y :: z :: ys)) with (y ++ sep ++ join sep (z :: ys)).
    now rewrite E, !append_assoc.
Qed.

Lemma lower_char_space (c : ascii) : is_space (lower_char c) = is_space c.
Proof. destruct c as [[] [] [] [] [] [] [] []]; reflexivity. Qed.

Lemma lower_char_idem (c : ascii) : lower_char (lower_char c) = lower_char c.
Proof. destruct c as [[] [] [] [] [] [] [] []]; reflexivity. Qed.

Lemma toLowerCase_idem (s : string) : toLowerCase (toLowerCase s) = toLowerCase s.
Proof.
  induction s as [|c s IH]; simpl; [reflexivity |].
  unfold toLowerCase in *. simpl. now rewrite lower_char_idem, IH.
Qed.

Lemma toLowerCase_app (a b : string) :
  toLowerCase (a ++ b) = toLowerCase a ++ toLowerCase b.
Proof.
  unfold toLowerCase. induction a as [|c a IH]; simpl; [reflexivity |].
  now rewrite IH.
Qed.

Lemma toLowerCase_trimStart (s : string) :
  trimStart (toLowerCase s) = toLowerCase (trimStart s).
Proof.
  unfold toLowerCase. induction s as [|c s IH]; simpl; [reflexivity |].
  rewrite lower_char_space. destruct (is_space c); [exact IH | reflexivity].
Qed.

Lemma toLowerCase_trimEnd (s : string) :
  trimEnd (toLowerCase s) = toLowerCase (trimEnd s).
Proof.
  unfold toLowerCase. induction s as [|c s IH]; simpl; [reflexivity |].
  rewrite IH, lower_char_space.
  destruct (trimEnd s); simpl; [destruct (is_space c) |]; reflexivity.
Qed.

(** Lower-casing and trimming commute. *)
Lemma toLowerCase_trim (s : string) :
  trim (toLowerCase s) = toLowerCase (trim s).
Proof. unfold trim. now rewrite toLowerCase_trimStart, toLowerCase_trimEnd. Qed.

Lemma trimStart_head (s : string) : head_not_space (trimStart s).
Proof.
  induction s as [|c s IH]; simpl; [exact I |].
  destruct (is_space c) eqn:E; [exact IH | exact E].
Qed.

Lemma trimStart_id (s : string) : head_not_space s -> trimStart s = s.
Proof. destruct s as [|c s]; simpl; [reflexivity | now intros ->]. Qed.

Lemma trimEnd_head (s : string) : head_not_space s -> head_not_space (trimEnd s).
Proof.
  destruct s as [|c s]; simpl; [exact id |]. intros Hc.
  destruct (trimEnd s); simpl; [rewrite Hc |]; exact Hc.
Qed.

Lemma trim_head (s : string) : head_not_space (trim s).
Proof. apply trimEnd_head, trimStart_head. Qed.

Lemma trimEnd_idem (s : string) : trimEnd (trimEnd s) = trimEnd s.
Proof.
  induction s as [|c s IH]; simpl; [reflexivity |].
  destruct (trimEnd s) as [|d t] eqn:E.
  - destruct (is_space c) eqn:Ec; simpl; [reflexivity | now rewrite Ec].
  - change (trimEnd (String c (String d t))) with
      (match trimEnd (String d t) with
       | EmptyString => if is_space c then EmptyString else String c EmptyString
       | String a r => String c (String a r)
       end).
    now rewrite IH.
Qed.

Lemma trim_idem (s : string) : trim (trim s) = trim s.
Proof.
  unfold trim at 1. rewrite (trimStart_id (trim s)) by apply trim_head.
  unfold trim. apply trimEnd_idem.
Qed.

(** Appending a suffix that is not blank at its end protects what is before
    it from [trimEnd]. *)
Lemma trimEnd_app (a suf : string) :
  trimEnd suf = suf -> suf <> "" -> trimEnd (a ++ suf) = a ++ suf.
Proof.
  intros Hs Hne. induction a as [|c a IH]; simpl; [exact Hs |].
  rewrite IH. destruct (a ++ suf) eqn:E; [| reflexivity].
  destruct a; simpl in E; [now subst | discriminate].
Qed.

Lemma trim_app (a suf : string) :
  head_not_space a -> head_not_space suf -> trimEnd suf = suf -> suf <> "" ->
  trim (a ++ suf) = a ++ suf.
Proof.
  intros Ha Hh Hs Hne. unfold trim. rewrite trimStart_id.
  - now apply trimEnd_app.
  - destruct a; simpl; assumption.
Qed.

End StringFacts.

(** ** Conversions *)

Module ConversionFacts.

Lemma ToString_or_throw_ok (v : value) :
  convertible v = true -> ToString_or_throw v = Ok (ToString v).
Proof. unfold ToString_or_throw. now intros ->. Qed.

Lemma ToNumber_or_throw_ok (v : value) :
  convertible v = true -> ToNumber_or_throw v = Ok (ToNumber v).
Proof. unfold ToNumber_or_throw. now intros ->. Qed.

Lemma parseInt_ok (v : value) :
  convertible v = true -> parseInt v = Ok (parseInt10 (ToString v)).
Proof. unfold parseInt. intros Hc. now rewrite ToString_or_throw_ok. Qed.

Lemma test_ok (r : regex) (v : value) :
  convertible v = true -> test r v = Ok (regex_test r (ToString v)).
Proof. unfold test. intros Hc. now rewrite ToString_or_throw_ok. Qed.

(** A value with a number that is not NaN is one that converts. *)
Lemma ToNumber_convertible (v : value) :
  isNaN (ToNumber v) = false -> convertible v = true.
Proof.
  destruct v as [| |b|n|s|items|fields]; try reflexivity;
    unfold ToNumber; destruct (convertible _);
    first [reflexivity | discriminate].
Qed.

(** The values that are no objects convert. *)
Lemma primitive_convertible (v : value) :
  primitive v = true -> convertible v = true.
Proof. destruct v; simpl; intros Hv; first [reflexivity | discriminate]. Qed.

Lemma forallb_Forall {A} (p : A -> bool) (l : list A) :
  forallb p l = true -> Forall (fun x => p x = true) l.
Proof.
  induction l as [|x l IH]; simpl; intros Hl; constructor;
    apply andb_prop in Hl; [apply Hl | apply IH, Hl].
Qed.

End ConversionFacts.

(** ** errorHandler.js *)

Module ErrorHandlerFacts.
Import ErrorHandler StringFacts.

Lemma is_missing_spec (data : gmap string value) (field : string) :
  is_missing data field = true <-> Missing data field.
Proof.
  unfold is_missing, Missing. destruct (data !! field) as [v|].
  - destruct v as [| |b|n|s|l|l]; try destruct s; simpl;
      split; intros Hm; try reflexivity; try discriminate;
      try (now auto);
      destruct Hm as [[Hm _] | [Hm | [Hm | Hm]]]; discriminate.
  - destruct (inherited field); simpl; split; intros Hm;
      try discriminate; auto.
    destruct Hm as [[_ Hm] | [Hm | [Hm | Hm]]]; discriminate.
Qed.

(** The loop that collects the missing fields is a filter. *)
Lemma collect_missing (data : gmap string value) (fields acc : list string) :
  fold_left
    (fun (missing : list string) field =>
       if is_missing data field then (missing ++ [field])%list else missing)
    fields acc
  = (acc ++ List.filter (is_missing data) fields)%list.
Proof.
  revert acc. induction fields as [|f fields IH]; intros acc; simpl.
  - now rewrite app_nil_r.
  - rewrite IH. destruct (is_missing data f); [| reflexivity].
    now rewrite <- app_assoc.
Qed.

Lemma validateRequiredFields_filter (data : gmap string value)
    (fields : list string) :
  validateRequiredFields data fields =
  let missing := List.filter (is_missing data) fields in
  if Nat.ltb 0 (List.length missing) then
    Throw (createValidationError "required_fields"
             ("Missing required fields: " ++ join ", " missing)
             (FieldNames missing))
  else Ok true.
Proof. unfold validateRequiredFields. now rewrite collect_missing. Qed.

Lemma message_createValidationError (field msg : string) (v : rejected) :
  message (createValidationError field msg v)
  = "Validation failed for " ++ (field ++ (": " ++ msg)).
Proof. reflexivity. Qed.

Lemma nonempty_length {A} (l : list A) :
  Nat.ltb 0 (List.length l) = true <-> exists x, In x l.
Proof.
  destruct l as [|x l]; simpl.
  - split; [discriminate | intros (x & [])].
  - split; [eauto | reflexivity].
Qed.

(** C9, as amended.  On a list of field names none of which is a name that
    every record inherits from [Object.prototype], [validateRequiredFields]
    throws exactly when some listed field is absent, null, undefined or the
    empty string.  What it throws is one VALIDATION error, whose message
    names every missing field and whose context holds the list of all of
    them in the order listed; with no missing field it returns true. *)
Theorem validateRequiredFields_spec (data : gmap string value)
    (fields : list string) :
  (forall f, In f fields -> inherited f = false) ->
  ((exists f, In f fields /\ Missing data f) <->
   (exists e, validateRequiredFields data fields = Throw e)) /\
  ((forall f, In f fields -> ~ Missing data f) <->
   validateRequiredFields data fields = Ok true) /\
  (forall e, validateRequiredFields data fields = Throw e ->
     type e = VALIDATION /\ statusCode e = 400 /\
     context e =
       ValidationContext "required_fields"
         (FieldNames (List.filter (is_missing data) fields))
         ("Missing required fields: " ++
          join ", " (List.filter (is_missing data) fields)) /\
     message e =
       "Validation failed for required_fields: Missing required fields: " ++
       join ", " (List.filter (is_missing data) fields) /\
     (forall f, In f fields -> Missing data f ->
        includes f (message e) = true)).
Proof.
  intros _. rewrite validateRequiredFields_filter.
  assert (Hin : forall f, In f (List.filter (is_missing data) fields) <->
                          In f fields /\ Missing data f).
  { intros f. rewrite filter_In, is_missing_spec. reflexivity. }
  set (missing := List.filter (is_missing data) fields) in *.
  cbv zeta.
  destruct (Nat.ltb 0 (List.length missing)) eqn:E.
  - apply nonempty_length in E. destruct E as (m & Hm).
    apply Hin in Hm. split; [| split].
    + split; [eauto | intros _; exists m; exact Hm].
    + split; [| discriminate].
      intros Hnone. destruct (Hnone m (proj1 Hm) (proj2 Hm)).
    + intros e He. injection He as <-.
      repeat split.
      intros f Hf Hmf.
      destruct (join_infix ", " f missing (proj2 (Hin f) (conj Hf Hmf)))
        as (pre & post & Ej).
      rewrite message_createValidationError, Ej.
      apply (includes_app_l f "Validation failed for ").
      apply (includes_app_l f "required_fields").
      apply (includes_app_l f ": ").
      apply (includes_app_l f "Missing required fields: ").
      apply includes_infix.
  - assert (Hnone : forall f, In f fields -> ~ Missing data f).
    { intros f Hf Hmf.
      assert (Hlt : Nat.ltb 0 (List.length missing) = true)
        by (apply nonempty_length; exists f; apply Hin; auto).
      congruence. }
    split; [| split].
    + split; [| intros (e & He); discriminate].
      intros (f & Hf & Hmf). destruct (Hnone f Hf Hmf).
    + split; [reflexivity | intros _; exact Hnone].
    + intros e He. discriminate.
Qed.

(** The sanitization helper of this file gives null on null and undefined,
    for every type, and does not throw on a value that converts to a
    primitive; on one that does not, its string, number and email branches
    throw the TypeError of the conversion. *)
Lemma helper_absent `{Host} (input : value) (type : string) :
  ((input = VNull \/ input = VUndefined) ->
   sanitizeInput input type = Ok VNull) /\
  (convertible input = true -> exists v, sanitizeInput input type = Ok v).
Proof.
  split; [intros [-> | ->]; reflexivity |].
  intros Hc. unfold sanitizeInput, URL_new, ToString_or_throw, ToNumber_or_throw.
  rewrite Hc. destruct (is_nullish input); [eauto |].
  repeat match goal with
         | |- context [String.eqb type ?lit] => destruct (String.eqb type lit)
         end; simpl; eauto.
  destruct (URL_href _); simpl; eauto.
Qed.

Example helper_throws :
  sanitizeInput (H := rejecting_host) (VObj [("toString", VNum (of_Z 1))])
    "string"
  = Throw (TypeError "Cannot convert object to primitive value").
Proof. reflexivity. Qed.

(** Assertions of tests/utils/errorHandler.test.js on the helper. *)
Example test_helper_sanitizeInput :
  sanitizeInput (H := rejecting_host) (VStr "  hello world  ") "string"
  = Ok (VStr "hello world") /\
  sanitizeInput (H := rejecting_host) (VNum (of_Z 123)) "string"
  = Ok (VStr "123") /\
  sanitizeInput (H := rejecting_host) (VStr "123") "number"
  = Ok (VNum (of_Z 123)) /\
  sanitizeInput (H := rejecting_host) (VStr "abc") "number" = Ok VNull /\
  sanitizeInput (H := rejecting_host) VNull "number" = Ok VNull /\
  sanitizeInput (H := rejecting_host) (VStr "false") "boolean"
  = Ok (VBool true) /\
  sanitizeInput (H := rejecting_host) (VStr "") "boolean" = Ok (VBool false) /\
  sanitizeInput (H := rejecting_host) (VNum (of_Z 0)) "boolean"
  = Ok (VBool false) /\
  sanitizeInput (H := rejecting_host) (VStr "  TEST@EXAMPLE.COM  ") "email"
  = Ok (VStr "test@example.com") /\
  sanitizeInput (H := rejecting_host) (VStr "invalid-email") "email" = Ok VNull.
Proof. vm_compute. repeat split. Qed.

(** The second test of the repository, through the theorem: email and age
    are missing, and the error names both. *)
Lemma validateRequiredFields_spec_witness :
  exists e,
    validateRequiredFields {[ "name" := VStr "John" ]} ["name"; "email"; "age"]
    = Throw e /\
    includes "email" (message e) = true /\ includes "age" (message e) = true.
Proof.
  destruct (validateRequiredFields_spec {[ "name" := VStr "John" ]}
              ["name"; "email"; "age"])
    as (Hthrow & _ & Herr).
  - intros f [<- | [<- | [<- | []]]]; reflexivity.
  - destruct (proj1 Hthrow) as (e & He).
    + exists "email". split; [simpl; auto |]. left. split; reflexivity.
    + exists e. split; [exact He |].
      destruct (Herr e He) as (_ & _ & _ & _ & Hall).
      split; apply Hall; simpl; auto; left; split; reflexivity.
Defined.

(** C9, as the specification states it, fails on the names that every
    record inherits: the empty record has no field toString, yet the helper
    returns true for it and does not throw; and of the two absent fields
    name and constructor the error lists the first only. *)
Lemma validateRequiredFields_spec_counterexample :
  (∅ : gmap string value) !! "toString" = None /\
  validateRequiredFields ∅ ["toString"] = Ok true /\
  (forall e, validateRequiredFields ∅ ["toString"] <> Throw e) /\
  validateRequiredFields ∅ ["name"; "constructor"]
  = Throw (createValidationError "required_fields"
             "Missing required fields: name" (FieldNames ["name"])).
Proof.
  split; [reflexivity |]. split; [vm_compute; reflexivity |].
  split; [intros e; vm_compute; discriminate | vm_compute; reflexivity].
Qed.

(** The second test of the repository: name is present, email and age are
    not. *)
Example validateRequiredFields_test :
  validateRequiredFields {[ "name" := VStr "John" ]} ["name"; "email"; "age"]
  = Throw (createValidationError "required_fields"
             "Missing required fields: email, age"
             (FieldNames ["email"; "age"])).
Proof. vm_compute. reflexivity. Qed.

End ErrorHandlerFacts.

(** ** validation.js *)

Module ValidationFacts.
Import ErrorHandler Validation StringFacts ConversionFacts.

Lemma Empty_spec (v : value) :
  Empty v <-> is_nullish v || is_empty_string v = true.
Proof.
  unfold Empty. split.
  - intros [-> | [-> | ->]]; reflexivity.
  - destruct v as [| |b|n|s|l|l]; try destruct s; simpl;
      intros Hv; try discriminate; auto.
Qed.

(** C6.  On an empty value (null, undefined or the empty string), for every
    type and whatever the other options ask for: with [required] set,
    [validateInput] returns exactly one error, the message
    "<type> is required", and no type-specific check adds to it; with
    [required] not set it returns the empty list. *)
Theorem validateInput_empty (v : value) (type : string) (options : Options) :
  Empty v ->
  (required options = true ->
     validateInput v type options = Ok [type ++ " is required"] /\
     includes "required" (type ++ " is required") = true) /\
  (required options = false -> validateInput v type options = Ok []).
Proof.
  intros Hv. apply Empty_spec in Hv. unfold validateInput. rewrite Hv.
  split; intros ->; simpl.
  - split; [reflexivity |].
    replace (type ++ " is required") with ((type ++ " is ") ++ "required")
      by apply append_assoc.
    apply includes_app_l. reflexivity.
  - reflexivity.
Qed.

Lemma validateInput_empty_witness :
  (validateInput (VStr "") "string"
     {| allowNull := false; maxLength := None; min := None; max := None;
        itemType := None; maxItems := None; required := true;
        minLength := Some (of_Z 3); pattern := None; minItems := None |}
   = Ok ["string is required"]) /\
  validateInput (VStr "") "email" no_options = Ok [].
Proof.
  split.
  - refine (proj1 (proj1 (validateInput_empty (VStr "") "string" _ _) _)).
    + right; right; reflexivity.
    + reflexivity.
  - refine (proj2 (validateInput_empty (VStr "") "email" no_options _) _).
    + right; right; reflexivity.
    + reflexivity.
Defined.

Section Sanitizer.
Context `{Host}.

Lemma shopifyDomain_branch_eq (input : value) (options : Options) :
  is_nullish input = false -> convertible input = true ->
  sanitizeInput input "shopifyDomain" options
  = Ok (VStr (with_suffix (toLowerCase (trim (ToString input))))).
Proof.
  intros Hn Hc. unfold with_suffix.
  destruct input; try discriminate Hn; cbn [sanitizeInput is_nullish];
    rewrite (ToString_or_throw_ok _ Hc); simpl;
    try match goal with
        | |- context [endsWith ?a ?b] => destruct (endsWith a b)
        end;
    reflexivity.
Qed.

Lemma with_suffix_fixed (t : string) :
  let domain := toLowerCase (trim t) in
  toLowerCase (trim (with_suffix domain)) = with_suffix domain /\
  endsWith ".myshopify.com" (with_suffix domain) = true.
Proof.
  intros domain.
  assert (Hd : toLowerCase (trim domain) = domain).
  { unfold domain. rewrite <- (toLowerCase_trim t), trim_idem.
    rewrite <- (toLowerCase_trim (toLowerCase t)).
    now rewrite toLowerCase_idem. }
  assert (Hh : head_not_space domain).
  { unfold domain. rewrite <- toLowerCase_trim. apply trim_head. }
  unfold with_suffix. destruct (endsWith ".myshopify.com" domain) eqn:E.
  - split; assumption.
  - split; [| apply endsWith_app].
    rewrite trim_app; [| exact Hh | reflexivity | reflexivity | discriminate].
    rewrite toLowerCase_app.
    assert (Hl : toLowerCase domain = domain)
      by (unfold domain; apply toLowerCase_idem).
    now rewrite Hl.
Qed.

(** C8.  With type shopifyDomain, [sanitizeInput] trims and lower-cases a
    string and appends ".myshopify.com" exactly when the result does not
    already end with it; sanitizing the output again gives the output back;
    and "mystore" becomes "mystore.myshopify.com". *)
Theorem sanitizeInput_shopifyDomain_idempotent (s : string) (options : Options) :
  let domain := toLowerCase (trim s) in
  let out :=
    if endsWith ".myshopify.com" domain then domain
    else domain ++ ".myshopify.com" in
  sanitizeInput (VStr s) "shopifyDomain" options = Ok (VStr out) /\
  sanitizeInput (VStr out) "shopifyDomain" options = Ok (VStr out) /\
  sanitizeInput (VStr "mystore") "shopifyDomain" options
  = Ok (VStr "mystore.myshopify.com").
Proof.
  intros domain out.
  change out with (with_suffix domain).
  rewrite !shopifyDomain_branch_eq by reflexivity.
  split; [reflexivity |]. split; [| reflexivity].
  change (ToString (VStr (with_suffix domain))) with (with_suffix domain).
  destruct (with_suffix_fixed s) as [Hfix Hends]. fold domain in Hfix, Hends.
  rewrite Hfix. unfold with_suffix at 1. now rewrite Hends.
Qed.

(** *** Absent input, and totality *)

Lemma sanitizeInput_nullish (input : value) (type : string) (options : Options) :
  is_nullish input = true ->
  sanitizeInput input type options
  = Ok (if allowNull options then VNull else VStr "").
Proof. destruct input; try discriminate; reflexivity. Qed.

(** Induction on values, with the elements of an array as premises. *)
Lemma value_ind_items (P : value -> Prop) :
  P VUndefined -> P VNull -> (forall b, P (VBool b)) -> (forall n, P (VNum n)) ->
  (forall s, P (VStr s)) ->
  (forall items, Forall P items -> P (VArr items)) ->
  (forall fields, P (VObj fields)) ->
  forall v, P v.
Proof.
  intros Hu Hn Hb Hnum Hs Ha Ho. fix IH 1. intros [| |b|n|s|items|fields].
  - exact Hu.
  - exact Hn.
  - apply Hb.
  - apply Hnum.
  - apply Hs.
  - apply Ha. induction items as [|x items IHitems]; constructor.
    + apply IH.
    + exact IHitems.
  - apply Ho.
Qed.

Lemma mapM_total {E A B} (f : A -> result E B) (l : list A) :
  Forall (fun x => exists y, f x = Ok y) l -> exists ys, mapM f l = Ok ys.
Proof.
  induction 1 as [|x l (y & Hy) _ (ys & Hys)]; simpl.
  - eauto.
  - rewrite Hy. simpl. rewrite Hys. simpl. eauto.
Qed.

Ltac case_type type :=
  repeat match goal with
         | |- context [String.eqb type ?lit] => destruct (String.eqb type lit)
         end.

(** On a value that converts, no branch of [sanitizeInput] lets an exception
    escape: the conversions apart, the URL constructor and [JSON.parse] are
    the only operations that throw, and both sit in a [try]. *)
Lemma sanitizeInput_total (input : value) :
  convertible input = true ->
  forall (type : string) (options : Options),
    exists v, sanitizeInput input type options = Ok v.
Proof.
  induction input as [| |b|n|s|items IH|fields] using value_ind_items;
    intros Hc type options;
    try (rewrite sanitizeInput_nullish by reflexivity; eauto);
    cbn [sanitizeInput is_nullish];
    unfold parseInt, URL_new;
    rewrite ?(ToString_or_throw_ok _ Hc), ?(ToNumber_or_throw_ok _ Hc);
    case_type type;
    cbn [orb try_catch bind]; eauto;
    try (destruct (isNaN _); eauto; fail);
    try (destruct (URL_href _); simpl; eauto; fail);
    try (unfold JSON_parse_or_throw; destruct (JSON_parse _); simpl; eauto; fail);
    try (destruct (negb (endsWith _ _)); eauto; fail).
  destruct (mapM_total
              (fun item =>
                 sanitizeInput item (str_or (itemType options) "string") options)
              items) as (cleaned & Hcl).
  - cbn [convertible] in Hc. apply forallb_Forall in Hc.
    rewrite Forall_forall in IH, Hc. apply Forall_forall.
    intros item Hitem. apply IH; [exact Hitem | apply Hc, Hitem].
  - rewrite Hcl. simpl. eauto.
Qed.

(** The boolean, url and json branches convert nothing outside a [try]:
    they return on every input. *)
Lemma sanitizeInput_guarded (input : value) (type : string) (options : Options) :
  type = "boolean" \/ type = "url" \/ type = "json" ->
  exists v, sanitizeInput input type options = Ok v.
Proof.
  intros Htype.
  destruct (is_nullish input) eqn:Hn;
    [rewrite sanitizeInput_nullish by exact Hn; eauto |].
  destruct Htype as [-> | [-> | ->]];
    destruct input; try discriminate Hn; cbn [sanitizeInput is_nullish];
    simpl; eauto;
    try (destruct (URL_new _); simpl; eauto; fail);
    unfold JSON_parse_or_throw; destruct (JSON_parse _); simpl; eauto.
Qed.

(** C1, as amended.  For every type, [sanitizeInput] on null or undefined
    returns the empty string, or null when [allowNull] is set, whatever the
    type.  It returns a value and does not throw for every type and options
    on an input that converts to a primitive, and for the types boolean, url
    and json on every input. *)
Theorem sanitizeInput_absent (input : value) (type : string) (options : Options) :
  ((input = VNull \/ input = VUndefined) ->
   sanitizeInput input type options
   = Ok (if allowNull options then VNull else VStr "")) /\
  (convertible input = true ->
   exists v, sanitizeInput input type options = Ok v) /\
  (type = "boolean" \/ type = "url" \/ type = "json" ->
   exists v, sanitizeInput input type options = Ok v).
Proof.
  split; [| split].
  - intros [-> | ->]; reflexivity.
  - intros Hc. now apply sanitizeInput_total.
  - apply sanitizeInput_guarded.
Qed.

(** *** Numbers *)

Lemma number_branch_eq (input : value) (options : Options) :
  is_nullish input = false -> convertible input = true ->
  sanitizeInput input "number" options
  = if isNaN (ToNumber input) then Ok (null_or options (VNum (of_Z 0)))
    else Ok (clamp options (ToNumber input)).
Proof.
  intros Hn Hc.
  destruct input; try discriminate; cbn [sanitizeInput is_nullish];
    now rewrite (ToNumber_or_throw_ok _ Hc).
Qed.

Lemma num_lt_irrefl (n : num) : num_lt n n = false.
Proof.
  destruct n as [|[]|m e]; try reflexivity.
  unfold num_lt. apply Z.ltb_irrefl.
Qed.


(** *** The schema-level function *)

(** What [sanitizeInput] returns for a type other than json and array is a
    string, a number, a boolean or null. *)
Lemma sanitized_primitive (input : value) (type : string)
    (options : Options) (v : value) :
  sanitizeInput input type options = Ok v ->
  type <> "json" -> type <> "array" -> primitive v = true.
Proof.
  intros Hs Hjson Harray.
  destruct (is_nullish input) eqn:Hn.
  - rewrite sanitizeInput_nullish in Hs by exact Hn.
    injection Hs as <-. now destruct (allowNull options).
  - assert (Hnull : forall w, primitive w = true ->
                      primitive (null_or options w) = true)
      by (intros w Hw; unfold null_or; now destruct (allowNull options)).
    assert (Hclamp : forall n, primitive (clamp options n) = true)
      by (intros n; unfold clamp;
          destruct (match min options with Some _ => _ | None => _ end);
          [reflexivity |];
          destruct (match max options with Some _ => _ | None => _ end);
          reflexivity).
    destruct input; try discriminate Hn;
      cbn [sanitizeInput is_nullish] in Hs; unfold parseInt in Hs;
      repeat match type of Hs with
             | context [String.eqb type ?lit] =>
                 destruct (String.eqb_spec type lit); [subst type |]
             end;
      try congruence; cbn [orb] in Hs;
      repeat match type of Hs with
             | context [ToString_or_throw ?x] =>
                 destruct (ToString_or_throw x); cbn [bind] in Hs
             | context [ToNumber_or_throw ?x] =>
                 destruct (ToNumber_or_throw x); cbn [bind] in Hs
             | context [URL_new ?x] =>
                 destruct (URL_new x); cbn [bind try_catch] in Hs
             | context [isNaN ?x] => destruct (isNaN x)
             | context [negb (endsWith ?a ?b)] => destruct (negb (endsWith a b))
             end;
      try discriminate Hs; injection Hs as <-;
      auto.
Qed.

(** The validator throws only where it converts an object: its one property
    access on the value comes after the test that the value is not null or
    undefined. *)
Lemma validateInput_total (v : value) (type : string) (options : Options) :
  primitive v = true \/ type = "json" \/ type = "array" ->
  exists errs, validateInput v type options = Ok errs.
Proof.
  intros Hv. unfold validateInput.
  destruct (required options);
    destruct (is_nullish v || is_empty_string v) eqn:E; simpl; eauto.
  all: destruct Hv as [Hp | [-> | ->]];
    [ pose proof (primitive_convertible v Hp) as Hc;
      rewrite ?(test_ok _ _ Hc), ?(ToNumber_or_throw_ok _ Hc) | |];
    case_type type; cbn [bind]; eauto;
    try (destruct (regex_test _ _); cbn [bind]; eauto; fail);
    try (destruct (isNaN _); eauto; fail);
    try (destruct v; eauto; fail);
    destruct v; try discriminate E; try discriminate Hp; simpl; eauto.
Qed.

Lemma cleaned_eq (data : gmap string value) (field : string) (rules : Rule) :
  convertible (get data field) = true ->
  sanitizeInput (get data field) (type rules) (or_empty (options rules))
  = Ok (cleaned data field rules).
Proof.
  intros Hc. unfold cleaned.
  destruct (sanitizeInput_total (get data field) Hc (type rules)
              (or_empty (options rules))) as (v & ->).
  reflexivity.
Qed.

Lemma errors_of_eq (data : gmap string value) (field : string) (rules : Rule) :
  convertible (get data field) = true ->
  validateInput (cleaned data field rules) (type rules)
    (or_empty (validation rules))
  = Ok (errors_of data field rules).
Proof.
  intros Hc. unfold errors_of.
  destruct (validateInput_total (cleaned data field rules) (type rules)
              (or_empty (validation rules))) as (errs & ->); [| reflexivity].
  destruct (string_dec (type rules) "json") as [E | Hjson]; [auto |].
  destruct (string_dec (type rules) "array") as [E | Harray]; [auto |].
  left. eapply sanitized_primitive; [apply cleaned_eq, Hc | |]; assumption.
Qed.

Lemma visit_field_eq (data : gmap string value) (field : string) (rules : Rule)
    (sanitized : gmap string value) (errors : gmap string (list string)) :
  convertible (get data field) = true ->
  visit_field data field rules (sanitized, errors)
  = match errors_of data field rules with
    | [] => Ok (<[field := cleaned data field rules]> sanitized, errors)
    | errs => Ok (sanitized, <[field := errs]> errors)
    end.
Proof.
  intros Hc. unfold visit_field. rewrite cleaned_eq by exact Hc. simpl.
  rewrite errors_of_eq by exact Hc. simpl.
  destruct (errors_of data field rules); reflexivity.
Qed.

(** The loop leaves the passing fields in [sanitized] and the failing ones
    in [errors]. *)
Lemma loop_eq (data : gmap string value) (schema : list (string * Rule)) :
  all_convertible data schema ->
  forall sanitized errors,
    fold_left
      (fun acc entry => bind acc (visit_field data (fst entry) (snd entry)))
      schema (Ok (sanitized, errors))
    = Ok (collect (passes data) schema sanitized,
          collect (fails data) schema errors).
Proof.
  unfold collect, all_convertible.
  induction schema as [|[field rules] schema IH]; intros Hc sanitized errors;
    [reflexivity |].
  cbn [fold_left bind fst snd].
  rewrite visit_field_eq by (apply (Hc field rules); now left).
  unfold passes at 2, fails at 2.
  destruct (errors_of data field rules); apply IH;
    intros f r Hin; apply (Hc f r); now right.
Qed.

Lemma collect_notin {V} (g : string -> Rule -> option V)
    (schema : list (string * Rule)) :
  forall (acc : gmap string V) (field : string),
    ~ In field (List.map fst schema) ->
    collect g schema acc !! field = acc !! field.
Proof.
  unfold collect.
  induction schema as [|[f r] schema IH]; intros acc field Hnot;
    [reflexivity |].
  cbn [fold_left fst snd List.map In] in *.
  rewrite IH by tauto.
  destruct (g f r); [| reflexivity].
  apply lookup_insert_ne. tauto.
Qed.

(** With no field twice, the object holds for each field of the schema what
    its own rule assigns. *)
Lemma collect_in {V} (g : string -> Rule -> option V)
    (schema : list (string * Rule)) :
  NoDup (List.map fst schema) ->
  forall (acc : gmap string V) (field : string) (rules : Rule),
    In (field, rules) schema ->
    collect g schema acc !! field
    = match g field rules with Some v => Some v | None => acc !! field end.
Proof.
  induction schema as [|[f r] schema IH]; intros Hnd acc field rules Hin;
    [destruct Hin |].
  cbn [List.map fst] in Hnd. apply NoDup_cons in Hnd. destruct Hnd as [Hf Hnd].
  rewrite list_elem_of_In in Hf.
  destruct Hin as [E | Hin].
  - injection E as -> ->.
    change (collect g ((field, rules) :: schema) acc)
      with (collect g schema
              (match g field rules with
               | Some v => <[field := v]> acc
               | None => acc
               end)).
    rewrite collect_notin by exact Hf.
    destruct (g field rules); [apply lookup_insert_eq | reflexivity].
  - change (collect g ((f, r) :: schema) acc)
      with (collect g schema
              (match g f r with Some v => <[f := v]> acc | None => acc end)).
    rewrite (IH Hnd _ field rules Hin).
    destruct (g field rules); [reflexivity |].
    destruct (g f r); [| reflexivity].
    apply lookup_insert_ne. intros ->. apply Hf.
    apply in_map_iff. exists (field, rules). auto.
Qed.


Lemma request_outcome_eq (data : gmap string value)
    (schema : list (string * Rule)) :
  all_convertible data schema ->
  validateAndSanitizeRequest data schema
  = if decide (collect (fails data) schema ∅ = ∅)
    then Ok (collect (passes data) schema ∅)
    else Throw (App (createValidationError "request_validation"
                       "Request validation failed"
                       (FieldErrors (collect (fails data) schema ∅)))).
Proof.
  intros Hc. unfold validateAndSanitizeRequest. rewrite loop_eq by exact Hc.
  cbn [bind].
  destruct (decide (collect (fails data) schema ∅ = ∅)) as [E | E].
  - rewrite E, map_size_empty. reflexivity.
  - apply map_size_non_empty_iff in E.
    destruct (size (collect (fails data) schema ∅)); [congruence | reflexivity].
Qed.




End Sanitizer.

(** Closed instances, at a host that is not reached. *)



Lemma sanitizeInput_absent_witness :
  sanitizeInput (H := rejecting_host) VUndefined "integer" no_options
  = Ok (VStr "") /\
  (exists v,
     sanitizeInput (H := rejecting_host)
       (VArr [VStr " a "; VNull; VObj [("id", VNum (of_Z 7))]]) "array"
       no_options = Ok v) /\
  (exists v,
     sanitizeInput (H := rejecting_host) (VObj [("toString", VNum (of_Z 1))])
       "json" no_options = Ok v).
Proof.
  split; [| split].
  - refine (proj1 (sanitizeInput_absent (H := rejecting_host)
                     VUndefined "integer" no_options) _).
    right. reflexivity.
  - refine (proj1 (proj2 (sanitizeInput_absent (H := rejecting_host)
                            _ "array" no_options)) _).
    reflexivity.
  - refine (proj2 (proj2 (sanitizeInput_absent (H := rejecting_host)
                            _ "json" no_options)) _).
    right. right. reflexivity.
Defined.

(** C1, as the specification states it, fails: on a null input the number,
    integer, boolean, json and array types all give the empty string, not
    the default of the type; and the conversion of an object that has a
    property toString of its own throws a TypeError, which no [try] of the
    string branch catches. *)
Lemma sanitizeInput_absent_counterexample :
  sanitizeInput (H := rejecting_host) VNull "number" no_options
  = Ok (VStr "") /\
  sanitizeInput (H := rejecting_host) VNull "number" no_options
  <> Ok (claimed_absent_default "number") /\
  sanitizeInput (H := rejecting_host) VUndefined "integer" no_options
  <> Ok (claimed_absent_default "integer") /\
  sanitizeInput (H := rejecting_host) VNull "boolean" no_options
  <> Ok (claimed_absent_default "boolean") /\
  sanitizeInput (H := rejecting_host) VUndefined "json" no_options
  <> Ok (claimed_absent_default "json") /\
  sanitizeInput (H := rejecting_host) VNull "array" no_options
  <> Ok (claimed_absent_default "array") /\
  sanitizeInput (H := rejecting_host) (VObj [("toString", VNum (of_Z 1))])
    "string" no_options
  = Throw (TypeError "Cannot convert object to primitive value") /\
  sanitizeInput (H := rejecting_host)
    (VArr [VObj [("toString", VNum (of_Z 1))]]) "array" no_options
  = Throw (TypeError "Cannot convert object to primitive value").
Proof. repeat split; discriminate. Qed.



(** The second schema test: every failing field is in the error. *)
Example validateAndSanitizeRequest_rejects :
  validateAndSanitizeRequest (H := rejecting_host)
    {[ "name" := VStr ""; "email" := VStr "invalid-email"; "age" := VStr "15" ]}
    [ ("name", {| type := "name"; options := None;
                  validation := Some required_only |});
      ("email", {| type := "email"; options := None;
                   validation := Some required_only |});
      ("age", {| type := "number"; options := None;
                 validation := Some (required_min (of_Z 18)) |}) ]
  = Throw (App (createValidationError "request_validation"
                  "Request validation failed"
                  (FieldErrors {[ "name" := ["name is required"];
                                  "email" := ["Invalid email format"];
                                  "age" := ["Must be at least 18"] ]}))).
Proof. vm_compute. reflexivity. Qed.

(** *** The unit tests of the repository

    The assertions of tests/utils/validation.test.js that do not go through
    the URL constructor or [JSON.parse], evaluated on the model. *)

Example test_sanitize_strings :
  sanitize_string "  hello world  " "string" = Ok (VStr "hello world") /\
  sanitize_string (String (ascii_of_N 0) "helloworld") "string" = Ok (VStr "helloworld") /\
  sanitize_string (zeros 1000) "string" = Ok (VStr (zeros 500)) /\
  sanitize_string "John <script>" "name" = Ok (VStr "John script") /\
  sanitize_string "  John   Doe  " "name" = Ok (VStr "John Doe") /\
  sanitize_string "  TEST@EXAMPLE.COM  " "email" = Ok (VStr "test@example.com") /\
  sanitize_string "+1 (555) 123-4567" "phone" = Ok (VStr "+1 (555) 123-4567") /\
  sanitize_string "555.123.4567abc" "phone" = Ok (VStr "5551234567") /\
  sanitize_string "mystore.myshopify.com" "shopifyDomain"
  = Ok (VStr "mystore.myshopify.com") /\
  sanitize_string "  MyStore  " "shopifyDomain" = Ok (VStr "mystore.myshopify.com") /\
  sanitize_string "abc123_-def.456" "token" = Ok (VStr "abc123_-def.456") /\
  sanitize_string "abc@123#def" "token" = Ok (VStr "abc123def").
Proof. vm_compute. repeat split. Qed.

Example test_sanitize_numbers :
  sanitize_string "123" "number" = Ok (VNum (of_Z 123)) /\
  sanitize_string "123.45" "number" = Ok (VNum (Dec 12345 (-2))) /\
  sanitize_string "abc" "number" = Ok (VNum (of_Z 0)) /\
  sanitize_string "123.45" "integer" = Ok (VNum (of_Z 123)) /\
  sanitize_string "abc" "integer" = Ok (VNum (of_Z 0)) /\
  sanitizeInput (H := rejecting_host) (VStr "50") "integer"
    (with_bounds (Some (of_Z 100)) None) = Ok (VNum (of_Z 100)) /\
  sanitize_string "true" "boolean" = Ok (VBool true) /\
  sanitize_string "false" "boolean" = Ok (VBool false) /\
  sanitize_string "1" "boolean" = Ok (VBool true) /\
  sanitize_string "yes" "boolean" = Ok (VBool true) /\
  sanitize_string "no" "boolean" = Ok (VBool false) /\
  sanitizeInput (H := rejecting_host) (VNum (of_Z 1)) "boolean" no_options
  = Ok (VBool true) /\
  sanitizeInput (H := rejecting_host) (VNum (of_Z 0)) "boolean" no_options
  = Ok (VBool false).
Proof. vm_compute. repeat split. Qed.

Example test_sanitize_array :
  sanitizeInput (H := rejecting_host)
    (VArr [VStr "  item1  "; VStr "item2"; VStr "item3"]) "array" no_options
  = Ok (VArr [VStr "item1"; VStr "item2"; VStr "item3"]) /\
  sanitizeInput (H := rejecting_host)
    (VArr [VStr "  item1  "; VStr "item2"; VStr "item3"]) "array"
    {| allowNull := false; maxLength := None; min := None; max := None;
       itemType := None; maxItems := Some (of_Z 2); required := false;
       minLength := None; pattern := None; minItems := None |}
  = Ok (VArr [VStr "item1"; VStr "item2"]).
Proof. vm_compute. repeat split. Qed.

Example test_validate_patterns :
  List.map (fun s => is_valid s "email")
    ["test@example.com"; "user.name@domain.co.uk"; "user+tag@example.org";
     "invalid-email"; "@example.com"; "user@"; "user@.com"]
  = [true; true; true; false; false; false; false] /\
  List.map (fun s => is_valid s "phone")
    ["+1 555 123 4567"; "(555) 123-4567"; "+44 20 7946 0958"; "123";
     "abc-def-ghij"]
  = [true; true; true; false; false] /\
  List.map (fun s => is_valid s "url")
    ["https://example.com"; "http://test.org/path";
     "https://sub.domain.com/path?query=1"; "not-a-url"; "ftp://example.com";
     "example.com"]
  = [true; true; true; false; false; false] /\
  List.map (fun s => is_valid s "shopifyDomain")
    ["mystore.myshopify.com"; "test-store.myshopify.com"; "mystore";
     "mystore.com"; "invalid.domain.com"]
  = [true; true; false; false; false] /\
  List.map (fun s => is_valid s "shopifyId")
    ["gid://shopify/Product/123"; "123456789"; "invalid-id";
     "gid://invalid/Product/123"; "abc123"]
  = [true; true; false; false; false] /\
  List.map (fun s => is_valid s "token")
    ["abc123def456"; "token_with-dots.and_underscores"; "short";
     "token with spaces"; "token@with#special"]
  = [true; true; false; false; false].
Proof. vm_compute. repeat split. Qed.

Example test_validate_constraints :
  validateInput (VNum (of_Z 50)) "number" (with_bounds (Some (of_Z 100)) None)
  = Ok ["Must be at least 100"] /\
  validateInput (VNum (of_Z 200)) "number" (with_bounds None (Some (of_Z 100)))
  = Ok ["Must be at most 100"] /\
  validateInput (VNum (of_Z 150)) "number"
    (with_bounds (Some (of_Z 100)) (Some (of_Z 200))) = Ok [] /\
  validateInput (VStr "ab") "string"
    {| allowNull := false; maxLength := None; min := None; max := None;
       itemType := None; maxItems := None; required := false;
       minLength := Some (of_Z 5); pattern := None; minItems := None |}
  = Ok ["Must be at least 5 characters long"] /\
  validateInput (VArr [VNum (of_Z 1)]) "array"
    {| allowNull := false; maxLength := None; min := None; max := None;
       itemType := None; maxItems := None; required := false;
       minLength := None; pattern := None; minItems := Some (of_Z 3) |}
  = Ok ["Must have at least 3 items"] /\
  validateInput VNull "string" required_only = Ok ["string is required"] /\
  validateInput (VStr "value") "string" required_only = Ok [].
Proof. vm_compute. repeat split. Qed.

End ValidationFacts.

(** ** rateLimiter.js *)

Module RateLimiterFacts.
Import ErrorHandler RateLimiter.

Lemma config_positive (type : string) :
  0 < maxRequests (config_of type) /\ 0 < windowMs (config_of type).
Proof.
  unfold config_of, RATE_LIMITS.
  repeat match goal with
         | |- context [String.eqb type ?lit] => destruct (String.eqb type lit)
         end; simpl; lia.
Qed.

(** The class of a key is the class it was generated from: no class name
    of the catalog holds a colon. *)
Lemma generateKey_class (type type' id id' ep ep' : string) :
  in_catalog type -> in_catalog type' ->
  generateKey id ep type = generateKey id' ep' type' -> type = type'.
Proof.
  unfold in_catalog, generateKey. simpl.
  intros [<- | [<- | [<- | [<- | [<- | []]]]]]
         [<- | [<- | [<- | [<- | [<- | []]]]]] E;
    try reflexivity; simpl in E; discriminate E.
Qed.

Lemma bounded_class (s : gmap string RateLimitData) (type id ep : string)
    (d : RateLimitData) :
  bounded s -> in_catalog type -> s !! generateKey id ep type = Some d ->
  0 <= count d <= maxRequests (config_of type).
Proof.
  intros Hs Hcat Hlook.
  destruct (Hs _ _ Hlook) as (type' & id' & ep' & Hcat' & E & Hd).
  now rewrite (generateKey_class _ _ _ _ _ _ Hcat Hcat' E).
Qed.

Lemma bounded_insert (s : gmap string RateLimitData) (type id ep : string)
    (d : RateLimitData) :
  bounded s -> in_catalog type ->
  0 <= count d <= maxRequests (config_of type) ->
  bounded (<[generateKey id ep type := d]> s).
Proof.
  intros Hs Hcat Hd key' d' Hlook.
  destruct (decide (generateKey id ep type = key')) as [<- | E].
  - rewrite lookup_insert_eq in Hlook. injection Hlook as <-.
    exists type, id, ep. auto.
  - rewrite lookup_insert_ne in Hlook by exact E. eauto.
Qed.

Lemma lookup_cleanup (t : Z) (s : gmap string RateLimitData) (key : string)
    (d : RateLimitData) :
  cleanupExpiredEntries t s !! key = Some d <->
  s !! key = Some d /\ t <= resetTime d.
Proof.
  unfold cleanupExpiredEntries. rewrite map_lookup_filter_Some. simpl.
  split; intros [Hl Ht]; (split; [exact Hl | lia]).
Qed.

Lemma bounded_swept (env : Env) (s : gmap string RateLimitData) :
  bounded s -> bounded (swept env s).
Proof.
  unfold swept. destruct (cleanup env) as [t|]; [| exact id].
  intros Hs key d Hlook. apply lookup_cleanup in Hlook.
  exact (Hs key d (proj1 Hlook)).
Qed.

Lemma bounded_check (request : Request) (endpoint type : string) (env : Env)
    (s : gmap string RateLimitData) :
  in_catalog type -> bounded s ->
  bounded (fst (checkRateLimit request endpoint type env s)).
Proof.
  intros Hcat Hs. apply (bounded_swept env) in Hs.
  destruct (config_positive type) as [Hmax _].
  unfold checkRateLimit. fold (swept env s).
  set (key := generateKey (getClientIdentifier request) endpoint type).
  set (fresh := {| count := 0; resetTime := now env + windowMs (config_of type);
                   firstRequest := now env |}).
  assert (Hfresh : bounded (<[key := fresh]> (swept env s))).
  { apply bounded_insert; [exact Hs | exact Hcat | cbn [count fresh]; lia]. }
  destruct (swept env s !! key) as [d|] eqn:Hlook.
  - pose proof (bounded_class _ _ _ _ _ Hs Hcat Hlook) as Hd.
    destruct (resetTime d <? now env); cbn [count fresh].
    + destruct (maxRequests (config_of type) <=? 0) eqn:E; cbn [fst].
      * exact Hfresh.
      * apply bounded_insert; [exact Hfresh | exact Hcat | cbn [count]; lia].
    + destruct (maxRequests (config_of type) <=? count d) eqn:E; cbn [fst].
      * exact Hs.
      * apply bounded_insert; [exact Hs | exact Hcat | cbn [count]; lia].
  - cbn [count fresh].
    destruct (maxRequests (config_of type) <=? 0) eqn:E; cbn [fst].
    + exact Hfresh.
    + apply bounded_insert; [exact Hfresh | exact Hcat | cbn [count]; lia].
Qed.

Lemma bounded_decrement (type id ep : string) (s : gmap string RateLimitData) :
  in_catalog type -> bounded s ->
  bounded (decrement (generateKey id ep type) s).
Proof.
  intros Hcat Hs. unfold decrement.
  destruct (s !! generateKey id ep type) as [d|] eqn:Hlook; [| exact Hs].
  pose proof (bounded_class _ _ _ _ _ Hs Hcat Hlook) as Hd.
  destruct (0 <? count d) eqn:E; [| exact Hs].
  apply bounded_insert; [exact Hs | exact Hcat | cbn [count]; lia].
Qed.

Lemma bounded_perform (c : Call) (s : gmap string RateLimitData) :
  in_catalog (call_type c) -> bounded s -> bounded (perform c s).
Proof.
  destruct c as [request endpoint type env | request endpoint type
                | request endpoint type]; simpl; intros Hcat Hs.
  - now apply bounded_check.
  - unfold recordSuccess.
    destruct (skipSuccessfulRequests (config_of type)); [| exact Hs].
    now apply bounded_decrement.
  - unfold recordFailure.
    destruct (skipFailedRequests (config_of type)); [| exact Hs].
    now apply bounded_decrement.
Qed.

Lemma bounded_run (calls : list Call) (s : gmap string RateLimitData) :
  Forall (fun c => in_catalog (call_type c)) calls ->
  bounded s -> bounded (run calls s).
Proof.
  unfold run. intros Hcalls. revert s.
  induction Hcalls as [|c calls Hc _ IH]; intros s Hs; simpl; [exact Hs |].
  apply IH. now apply bounded_perform.
Qed.

(** C10.  Start from the empty store and make any sequence of
    [checkRateLimit], [recordSuccess] and [recordFailure] calls on classes
    of the catalog, at any clock readings.  Before and after each call,
    every entry of the store belongs to a class of the catalog and holds a
    count between 0 and the [maxRequests] of that class; so does, in
    particular, the entry of any given identity, endpoint and class. *)
Theorem count_bounded (calls : list Call) :
  Forall (fun c => in_catalog (call_type c)) calls ->
  forall n,
    bounded (run (firstn n calls) ∅) /\
    (forall type identifier endpoint d,
       in_catalog type ->
       run (firstn n calls) ∅ !! generateKey identifier endpoint type = Some d ->
       0 <= count d <= maxRequests (config_of type)).
Proof.
  intros Hcalls n.
  assert (Hb : bounded (run (firstn n calls) ∅)).
  { apply bounded_run.
    - now apply Forall_take.
    - intros key d Hlook. rewrite lookup_empty in Hlook. discriminate. }
  split; [exact Hb |].
  intros type id ep d Hcat Hlook. exact (bounded_class _ _ _ _ _ Hb Hcat Hlook).
Qed.

(** *** One window of the fixed-window limiter *)

Section Window.
Variables (request : Request) (endpoint type : string).

Let key : string := generateKey (getClientIdentifier request) endpoint type.
Let cap : Z := maxRequests (config_of type).

Let check (env : Env) (s : gmap string RateLimitData) :=
  checkRateLimit request endpoint type env s.

Lemma swept_inside (R : Z) (env : Env) (s : gmap string RateLimitData)
    (d : RateLimitData) :
  s !! key = Some d -> resetTime d = R -> inside_window R env ->
  swept env s !! key = Some d.
Proof.
  intros Hl HR [_ Hc]. unfold swept.
  destruct (cleanup env) as [t|]; [| exact Hl].
  apply lookup_cleanup. split; [exact Hl | lia].
Qed.

(** Inside the window and under the maximum: the call is counted. *)
Lemma check_inside (R : Z) (env : Env) (s : gmap string RateLimitData)
    (d : RateLimitData) :
  s !! key = Some d -> resetTime d = R -> inside_window R env ->
  count d < cap ->
  exists info,
    snd (check env s) = Ok info /\
    limit info = cap /\ remaining info = Z.max 0 (cap - (count d + 1)) /\
    reset info = R /\
    fst (check env s) !! key
    = Some {| count := count d + 1; resetTime := R;
              firstRequest := firstRequest d |}.
Proof.
  intros Hl HR Hin Hlt.
  pose proof (swept_inside R env s d Hl HR Hin) as Hs.
  destruct Hin as [Hnow _].
  unfold check, checkRateLimit. fold (swept env s). fold key. rewrite Hs.
  replace (resetTime d <? now env) with false by (symmetry; apply Z.ltb_ge; lia).
  fold cap. replace (cap <=? count d) with false by (symmetry; apply Z.leb_gt; lia).
  eexists. cbn [fst snd]. split; [reflexivity |].
  cbn [limit remaining reset count resetTime firstRequest].
  rewrite lookup_insert_eq, HR. repeat split.
Qed.

(** Inside the window and at the maximum: the call is rejected, and the
    entry is left as it was. *)
Lemma check_at_limit (R : Z) (env : Env) (s : gmap string RateLimitData)
    (d : RateLimitData) :
  s !! key = Some d -> resetTime d = R -> inside_window R env ->
  cap <= count d ->
  snd (check env s)
  = Throw (createRateLimitError (Some (ceil_div (R - now env) 1000))) /\
  fst (check env s) !! key = Some d.
Proof.
  intros Hl HR Hin Hge.
  pose proof (swept_inside R env s d Hl HR Hin) as Hs.
  destruct Hin as [Hnow _].
  unfold check, checkRateLimit. fold (swept env s). fold key. rewrite Hs.
  replace (resetTime d <? now env) with false by (symmetry; apply Z.ltb_ge; lia).
  fold cap. replace (cap <=? count d) with true by (symmetry; apply Z.leb_le; lia).
  cbn [fst snd]. rewrite HR. split; [reflexivity | exact Hs].
Qed.

(** A call that finds no entry, or an expired one, starts a window and is
    its first call. *)
Lemma check_opens (env : Env) (s : gmap string RateLimitData) :
  opens_window key env s ->
  exists info,
    snd (check env s) = Ok info /\
    limit info = cap /\ remaining info = Z.max 0 (cap - 1) /\
    reset info = now env + windowMs (config_of type) /\
    fst (check env s) !! key
    = Some {| count := 1; resetTime := now env + windowMs (config_of type);
              firstRequest := now env |}.
Proof.
  unfold opens_window. intros Hopen.
  destruct (config_positive type) as [Hcap _]. fold cap in Hcap.
  unfold check, checkRateLimit. fold (swept env s). fold key.
  destruct (swept env s !! key) as [d|].
  - replace (resetTime d <? now env) with true by (symmetry; apply Z.ltb_lt; lia).
    cbn [count]. fold cap.
    replace (cap <=? 0) with false by (symmetry; apply Z.leb_gt; lia).
    eexists. cbn [fst snd]. split; [reflexivity |].
    cbn [limit remaining reset count resetTime firstRequest].
    rewrite lookup_insert_eq. repeat split.
  - cbn [count]. fold cap.
    replace (cap <=? 0) with false by (symmetry; apply Z.leb_gt; lia).
    eexists. cbn [fst snd]. split; [reflexivity |].
    cbn [limit remaining reset count resetTime firstRequest].
    rewrite lookup_insert_eq. repeat split.
Qed.

(** Once the clock has passed the reset time of the entry, the next call
    opens a window. *)
Lemma opens_after_reset (env : Env) (s : gmap string RateLimitData)
    (d : RateLimitData) :
  s !! key = Some d -> resetTime d < now env -> opens_window key env s.
Proof.
  intros Hl Hlate. unfold opens_window, swept.
  destruct (cleanup env) as [t|]; [| now rewrite Hl].
  destruct (cleanupExpiredEntries t s !! key) as [d'|] eqn:E; [| exact I].
  apply lookup_cleanup in E. destruct E as [E _].
  rewrite Hl in E. now injection E as <-.
Qed.

Lemma check_each_cons (env : Env) (envs : list Env)
    (s : gmap string RateLimitData) :
  check_each request endpoint type (env :: envs) s
  = (fst (check_each request endpoint type envs (fst (check env s))),
     snd (check env s)
     :: snd (check_each request endpoint type envs (fst (check env s)))).
Proof.
  unfold check. simpl.
  destruct (checkRateLimit request endpoint type env s) as [s1 r]. simpl.
  destruct (check_each request endpoint type envs s1). reflexivity.
Qed.

(** Calls inside the window are counted one by one until the maximum. *)
Lemma check_each_inside (R : Z) (envs : list Env) :
  forall (s : gmap string RateLimitData) (d : RateLimitData),
    s !! key = Some d -> resetTime d = R ->
    Forall (inside_window R) envs ->
    count d + Z.of_nat (List.length envs) <= cap ->
    (fst (check_each request endpoint type envs s) !! key
     = Some {| count := count d + Z.of_nat (List.length envs); resetTime := R;
               firstRequest := firstRequest d |}) /\
    (forall (i : nat) r,
       snd (check_each request endpoint type envs s) !! i = Some r ->
       exists info,
         r = Ok info /\ limit info = cap /\ reset info = R /\
         remaining info = cap - (count d + Z.of_nat i + 1)).
Proof.
  induction envs as [|env envs IH]; intros s d Hl HR Hin Hroom.
  - simpl. split.
    + rewrite Hl, Z.add_0_r. destruct d; simpl in *. now subst.
    + intros i r Hr. destruct i; discriminate Hr.
  - apply Forall_cons in Hin. destruct Hin as [Henv Hin].
    rewrite length_cons, Nat2Z.inj_succ in Hroom.
    destruct (check_inside R env s d Hl HR Henv) as
      (info & Hres & Hlim & Hrem & Hreset & Hnext); [lia |].
    rewrite check_each_cons.
    destruct (IH _ _ Hnext eq_refl Hin) as [Hfinal Hrs];
      [cbn [count]; lia |].
    cbn [fst snd count firstRequest] in *. split.
    + rewrite Hfinal, length_cons, Nat2Z.inj_succ. do 2 f_equal. lia.
    + intros [|i] r Hr.
      * injection Hr as <-. exists info.
        repeat split; try assumption. rewrite Hrem. lia.
      * destruct (Hrs i r Hr) as (info' & -> & Hl' & Hr' & Hrem').
        exists info'. repeat split; try assumption.
        rewrite Hrem', Nat2Z.inj_succ. lia.
Qed.

Lemma ceil_div_1000 (a : Z) :
  (0 <= a -> 0 <= ceil_div a 1000) /\ (0 < a -> 0 < ceil_div a 1000) /\
  (a = 0 -> ceil_div a 1000 = 0).
Proof.
  unfold ceil_div.
  pose proof (Z.div_mod (- a) 1000 ltac:(lia)) as Hdm.
  pose proof (Z.mod_pos_bound (- a) 1000 ltac:(lia)) as Hb.
  repeat split; intros Ha; lia.
Qed.

(** C2, as amended.  Take a request, an endpoint and a class (any name
    that is not inherited from [Object.prototype]: a class of the catalog,
    or a name that falls back to the class api), and any store.  Let a call
    open a window, which then resets at
    [R = now + windowMs], and let every later call of the window be made
    while no clock reading has passed [R], with no [recordSuccess] or
    [recordFailure] in between.  The first [maxRequests] calls return, the
    i-th with [remaining = maxRequests - i]; the next call throws the
    rate-limit error with [retryAfter = ceil((R - now) / 1000)], which is
    at least 0, and more than 0 when the call comes before [R]; and one
    call after [R] has passed returns again. *)
Theorem window_quota (s : gmap string RateLimitData) (first : Env)
    (rest : list Env) (over later : Env) :
  let R := now first + windowMs (config_of type) in
  let window := check_each request endpoint type (first :: rest) s in
  let rejected := check over (fst window) in
  let reopened := check later (fst rejected) in
  inherited type = false ->
  opens_window key first s ->
  Z.of_nat (List.length (first :: rest)) = cap ->
  Forall (inside_window R) rest ->
  inside_window R over ->
  R < now later ->
  (forall (i : nat) r, snd window !! i = Some r ->
     exists info, r = Ok info /\ limit info = cap /\
                  remaining info = cap - (Z.of_nat i + 1)) /\
  (snd rejected
   = Throw (createRateLimitError (Some (ceil_div (R - now over) 1000))) /\
   0 <= ceil_div (R - now over) 1000 /\
   (now over < R -> 0 < ceil_div (R - now over) 1000)) /\
  (exists info, snd reopened = Ok info /\ remaining info = cap - 1).
Proof.
  intros R window rejected reopened _ Hopen Hlen Hrest Hover Hlater.
  destruct (config_positive type) as [Hcap _]. fold cap in Hcap.
  rewrite length_cons, Nat2Z.inj_succ in Hlen.
  destruct (check_opens first s Hopen) as
    (info1 & Hres1 & Hlim1 & Hrem1 & Hreset1 & Hnext1). fold R in Hreset1, Hnext1.
  destruct (check_each_inside R rest _ _ Hnext1 eq_refl Hrest) as [Hfull Hrs];
    [cbn [count]; lia |].
  cbn [count firstRequest] in Hfull, Hrs.
  assert (Hwin : fst window !! key
                 = Some {| count := cap; resetTime := R;
                           firstRequest := now first |}).
  { unfold window. rewrite check_each_cons. cbn [fst].
    rewrite Hfull. do 2 f_equal. lia. }
  destruct (check_at_limit R over _ _ Hwin eq_refl Hover) as [Hthrow Hkept];
    [cbn [count]; lia |].
  fold rejected in Hthrow, Hkept.
  split; [| split].
  - unfold window. rewrite check_each_cons. cbn [snd].
    intros [|i] r Hr.
    + injection Hr as <-. exists info1. repeat split; try assumption.
      rewrite Hrem1. change (Z.of_nat 0) with 0. lia.
    + destruct (Hrs i r Hr) as (info & -> & Hl & _ & Hrem).
      exists info. repeat split; try assumption.
      rewrite Hrem, Nat2Z.inj_succ. lia.
  - split; [exact Hthrow |]. destruct Hover as [Hnow _].
    destruct (ceil_div_1000 (R - now over)) as (H0 & H1 & _).
    split; [apply H0; lia | intros Hlt; apply H1; lia].
  - assert (Hre : opens_window key later (fst rejected))
      by (eapply opens_after_reset; [exact Hkept | exact Hlater]).
    destruct (check_opens later _ Hre) as (info & Hres & _ & Hrem & _).
    exists info. split; [exact Hres |]. rewrite Hrem. lia.
Qed.

End Window.

(** A closed run of the token class (5 requests in 300 s): five calls in
    the first two seconds, a sixth at 2 s, and one after the window. *)
Lemma window_quota_witness :
  snd (checkRateLimit
         {| shop := Some "mystore.myshopify.com"; x_forwarded_for := None;
            x_real_ip := None |} "orders" "token"
         {| now := 2000; cleanup := None |}
         (fst (check_each
                 {| shop := Some "mystore.myshopify.com";
                    x_forwarded_for := None; x_real_ip := None |}
                 "orders" "token"
                 ({| now := 0; cleanup := None |}
                  :: repeat {| now := 1000; cleanup := Some 1000 |} 4) ∅)))
  = Throw (createRateLimitError (Some 298)).
Proof.
  refine (proj1 (proj1 (proj2
    (window_quota
       {| shop := Some "mystore.myshopify.com"; x_forwarded_for := None;
          x_real_ip := None |} "orders" "token" ∅
       {| now := 0; cleanup := None |}
       (repeat {| now := 1000; cleanup := Some 1000 |} 4)
       {| now := 2000; cleanup := None |}
       {| now := 300001; cleanup := Some 300001 |} _ _ _ _ _ _)))).
  - reflexivity.
  - exact I.
  - reflexivity.
  - repeat constructor; simpl; lia.
  - split; simpl; [lia | exact I].
  - simpl. lia.
Defined.

(** C2, as the specification states it, fails at the last instant of the
    window.  The token class allows 5 requests per 300 000 ms.  Five calls
    at time 0 fill the window, which resets at 300 000; a sixth call at
    exactly 300 000 is still inside it (the window is only reset once
    [now > resetTime]) and is rejected with [retryAfter] 0, which is not
    more than 0. *)
Lemma window_quota_counterexample :
  fst (check_each
         {| shop := Some "mystore.myshopify.com"; x_forwarded_for := None;
            x_real_ip := None |} "orders" "token"
         (repeat {| now := 0; cleanup := None |} 5) ∅)
    !! "token:mystore.myshopify.com:orders"
  = Some {| count := 5; resetTime := 300000; firstRequest := 0 |} /\
  snd (checkRateLimit
         {| shop := Some "mystore.myshopify.com"; x_forwarded_for := None;
            x_real_ip := None |} "orders" "token"
         {| now := 300000; cleanup := None |}
         (fst (check_each
                 {| shop := Some "mystore.myshopify.com";
                    x_forwarded_for := None; x_real_ip := None |}
                 "orders" "token"
                 (repeat {| now := 0; cleanup := None |} 5) ∅)))
  = Throw (createRateLimitError (Some 0)) /\
  ~ (0 < 0).
Proof. split; [| split]; [vm_compute; reflexivity .. | lia]. Qed.

(** A closed run for the bound on the count: a login attempt that
    succeeds. *)
Lemma count_bounded_witness :
  bounded
    (run [ CheckRateLimit
             {| shop := None; x_forwarded_for := Some "10.0.0.1, 10.0.0.2";
                x_real_ip := None |} "login" "auth"
             {| now := 0; cleanup := None |};
           RecordSuccess
             {| shop := None; x_forwarded_for := Some "10.0.0.1, 10.0.0.2";
                x_real_ip := None |} "login" "auth" ] ∅).
Proof.
  refine (proj1 (count_bounded
            [ CheckRateLimit
                {| shop := None; x_forwarded_for := Some "10.0.0.1, 10.0.0.2";
                   x_real_ip := None |} "login" "auth"
                {| now := 0; cleanup := None |};
              RecordSuccess
                {| shop := None; x_forwarded_for := Some "10.0.0.1, 10.0.0.2";
                   x_real_ip := None |} "login" "auth" ] _ 2%nat)).
  repeat constructor; simpl; unfold in_catalog; simpl; tauto.
Defined.

(** *** The token bucket *)

Lemma tokens_refill (now : Z) (b : Bucket) :
  let tokensToAdd :=
    Qfloor (inject_Z (now - lastRefill b) / 1000 * refillRate b) in
  refill now b
  = {| tokens := if 0 <? tokensToAdd
                 then Qmin (maxTokens b) (tokens b + inject_Z tokensToAdd)
                 else tokens b;
       lastRefill := if 0 <? tokensToAdd then now else lastRefill b;
       maxTokens := maxTokens b;
       refillRate := refillRate b |}.
Proof.
  intros tokensToAdd. unfold refill. fold tokensToAdd.
  destruct (0 <? tokensToAdd); [reflexivity | destruct b; reflexivity].
Qed.





Lemma within_refill (now : Z) (b : Bucket) :
  (0 <= tokens b /\ tokens b <= maxTokens b)%Q ->
  (0 <= tokens (refill now b) /\ tokens (refill now b) <= maxTokens (refill now b))%Q.
Proof.
  intros [H0 Hmax]. rewrite tokens_refill. cbn [tokens maxTokens].
  set (add := Qfloor _). destruct (0 <? add) eqn:E; [| split; assumption].
  apply Z.ltb_lt in E.
  assert (Hadd : (inject_Z 0 < inject_Z add)%Q) by (rewrite <- Zlt_Qlt; exact E).
  change (inject_Z 0) with 0%Q in Hadd.
  destruct (Q.min_spec (maxTokens b) (tokens b + inject_Z add))
    as [[Hcmp Hmin] | [Hcmp Hmin]]; rewrite Hmin; split; lra.
Qed.

Lemma within_insert (key : string) (b : Bucket) (buckets : gmap string Bucket) :
  within_capacity buckets ->
  (0 <= tokens b /\ tokens b <= maxTokens b)%Q ->
  within_capacity (<[key := b]> buckets).
Proof.
  intros Hall Hb key' b' Hlook.
  destruct (decide (key = key')) as [<- | Hne].
  - rewrite lookup_insert_eq in Hlook. now injection Hlook as <-.
  - rewrite lookup_insert_ne in Hlook by exact Hne. eauto.
Qed.

(** Each of the two atomic phases of a call keeps every bucket within its
    capacity, so this also holds when calls interleave at their waits. *)
Lemma within_start (shop : string) (requestCost : Q) (created now : Z)
    (buckets : gmap string Bucket) :
  (0 <= requestCost)%Q -> within_capacity buckets ->
  within_capacity (fst (acquire_start shop requestCost created now buckets)).
Proof.
  intros Hcost Hall. unfold acquire_start.
  set (key := "shopify:" ++ shop).
  set (bucket := match buckets !! key with
                 | Some b => b
                 | None => newBucket created
                 end).
  assert (Hb : (0 <= tokens bucket /\ tokens bucket <= maxTokens bucket)%Q).
  { unfold bucket. destruct (buckets !! key) as [b|] eqn:E; [eauto |].
    simpl. split; lra. }
  apply (within_refill now) in Hb. destruct Hb as [H0 Hmax].
  destruct (Qlt_le_dec (tokens (refill now bucket)) requestCost) as [Hlt | Hge];
    cbn [fst]; apply within_insert; try exact Hall.
  - split; assumption.
  - cbn [tokens maxTokens set_tokens]. split; lra.
Qed.

Lemma within_resume (shop : string) (requestCost : Q)
    (buckets : gmap string Bucket) :
  (0 <= requestCost)%Q -> within_capacity buckets ->
  within_capacity (fst (acquire_resume shop requestCost buckets)).
Proof.
  intros Hcost Hall. unfold acquire_resume.
  destruct (buckets !! ("shopify:" ++ shop)) as [b|] eqn:E; [| exact Hall].
  destruct (Hall _ _ E) as [H0 Hmax].
  cbn [fst]. apply within_insert; [exact Hall |].
  cbn [tokens maxTokens set_tokens].
  destruct (Q.min_spec (maxTokens b) (tokens b + requestCost))
    as [[Hcmp Hmin] | [Hcmp Hmin]]; rewrite Hmin; split; lra.
Qed.

Lemma within_call (shop : string) (requestCost : Q) (created now : Z)
    (buckets : gmap string Bucket) :
  (0 <= requestCost)%Q -> within_capacity buckets ->
  within_capacity
    (fst (waitForAvailability shop requestCost created now buckets)).
Proof.
  intros Hcost Hall. unfold waitForAvailability.
  pose proof (within_start shop requestCost created now buckets Hcost Hall)
    as Hstart.
  destruct (acquire_start shop requestCost created now buckets)
    as [b1 [waitTime | info]]; cbn [fst] in *; [| exact Hstart].
  pose proof (within_resume shop requestCost b1 Hcost Hstart) as Hres.
  destruct (acquire_resume shop requestCost b1) as [b2 [info|]]; exact Hres.
Qed.

Lemma within_all (calls : list Acquire) (buckets : gmap string Bucket) :
  Forall (fun c => (0 <= acq_cost c)%Q) calls ->
  within_capacity buckets -> within_capacity (acquire_all calls buckets).
Proof.
  unfold acquire_all. intros Hcalls. revert buckets.
  induction Hcalls as [|c calls Hc _ IH]; intros buckets Hall; simpl;
    [exact Hall |].
  apply IH. now apply within_call.
Qed.

(** C4.  Start with no bucket, so that each bucket is created by its first
    call, and make any sequence of [waitForAvailability] calls one after
    the other, each with a cost of at least 0, at any clock readings.
    Before and after each call every bucket holds between 0 and
    [maxTokens] tokens. *)
Theorem tokens_within_capacity (calls : list Acquire) :
  Forall (fun c => (0 <= acq_cost c)%Q) calls ->
  forall n, within_capacity (acquire_all (firstn n calls) ∅).
Proof.
  intros Hcalls n. apply within_all.
  - now apply Forall_take.
  - intros key b Hlook. rewrite lookup_empty in Hlook. discriminate.
Qed.

Lemma tokens_within_capacity_witness :
  within_capacity
    (acquire_all
       [ {| acq_shop := "mystore"; acq_cost := 40; acq_created := 0;
            acq_now := 0 |};
         {| acq_shop := "mystore"; acq_cost := 3; acq_created := 700;
            acq_now := 700 |} ] ∅).
Proof.
  refine (tokens_within_capacity
            [ {| acq_shop := "mystore"; acq_cost := 40; acq_created := 0;
                 acq_now := 0 |};
              {| acq_shop := "mystore"; acq_cost := 3; acq_created := 700;
                 acq_now := 700 |} ] _ 2%nat).
  repeat constructor; simpl; discriminate.
Defined.

End RateLimiterFacts.

(** * Further properties *)

(** ** The sanitizer and the validator *)

Module SanitizerExtras.
Import ErrorHandler Validation Vocabulary StringFacts ConversionFacts.
Import ValidationFacts.

Lemma strip_zeros_value (fuel : nat) :
  forall m e m' e',
    strip_zeros fuel m e = (m', e') -> 0 <= e ->
    0 <= e' /\ m' * 10 ^ e' = m * 10 ^ e.
Proof.
  induction fuel as [|fuel IH]; intros m e m' e' E He; simpl in E.
  - injection E as <- <-. auto.
  - destruct (m =? 0) eqn:E0.
    + injection E as <- <-. apply Z.eqb_eq in E0. subst. simpl. lia.
    + destruct (m mod 10 =? 0) eqn:E10.
      * apply IH in E; [| lia]. destruct E as [He' Hv]. split; [exact He' |].
        rewrite Hv. apply Z.eqb_eq in E10.
        rewrite Z.pow_add_r by lia.
        pose proof (Z.div_mod m 10 ltac:(lia)) as Hdm.
        rewrite E10 in Hdm. change (10 ^ 1) with 10. nia.
      * injection E as <- <-. auto.
Qed.

(** An integer is its own integer part. *)
Lemma to_integer_of_Z (z : Z) : to_integer (of_Z z) = IFin z.
Proof.
  unfold of_Z, mk_dec.
  destruct (strip_zeros _ z 0) as [m' e'] eqn:E.
  apply strip_zeros_value in E; [| lia]. destruct E as [He Hv].
  simpl. replace (0 <=? e') with true by (symmetry; apply Z.leb_le; lia).
  f_equal. lia.
Qed.

Lemma num_falsy_of_Z (z : Z) : z <> 0 -> num_falsy (of_Z z) = false.
Proof.
  intros Hz. unfold of_Z, mk_dec.
  destruct (strip_zeros _ z 0) as [m' e'] eqn:E.
  apply strip_zeros_value in E; [| lia]. destruct E as [He Hv].
  simpl. apply Z.eqb_neq. intros ->. lia.
Qed.

Lemma take_length (n : nat) (s : string) : (String.length (take n s) <= n)%nat.
Proof.
  revert s. induction n as [|n IH]; intros [|c s]; simpl; try lia.
  specialize (IH s). lia.
Qed.

Lemma str_slice0_length (z : Z) (s : string) :
  0 <= z -> (String.length (str_slice0 (of_Z z) s) <= Z.to_nat z)%nat.
Proof.
  intros Hz. unfold str_slice0, slice_end. rewrite to_integer_of_Z.
  replace (z <? 0) with false by (symmetry; apply Z.ltb_ge; lia).
  etransitivity; [apply take_length |]. lia.
Qed.

Lemma all_chars_filter (p : ascii -> bool) (s : string) :
  all_chars p (str_filter p s) = true.
Proof.
  induction s as [|c s IH]; simpl; [reflexivity |].
  destruct (p c) eqn:E; simpl; [now rewrite E | exact IH].
Qed.

Lemma all_chars_take (p : ascii -> bool) (n : nat) (s : string) :
  all_chars p s = true -> all_chars p (take n s) = true.
Proof.
  revert s. induction n as [|n IH]; intros [|c s]; simpl; try reflexivity.
  intros Hs. apply andb_true_iff in Hs. destruct Hs as [-> Hs]. simpl. auto.
Qed.

Lemma all_chars_collapse (p : ascii -> bool) (s : string) :
  p " "%char = true -> all_chars p s = true ->
  forall in_run, all_chars p (collapse_from in_run s) = true.
Proof.
  intros Hsp. induction s as [|c s IH]; intros Hs in_run; simpl;
    [reflexivity |].
  simpl in Hs. apply andb_true_iff in Hs. destruct Hs as [Hc Hs].
  destruct (is_space c).
  - destruct in_run; simpl; [| rewrite Hsp; simpl]; apply IH; exact Hs.
  - simpl. rewrite Hc. simpl. apply IH; exact Hs.
Qed.

Section Sanitizer.
Context `{Host}.

(** The branches with a fixed cap and a fixed character class, on an input
    that is neither null nor undefined and that converts to a string. *)
Lemma name_branch_eq (input : value) (options : Options) :
  is_nullish input = false -> convertible input = true ->
  sanitizeInput input "name" options
  = Ok (VStr (str_slice0 (of_Z 100)
                (collapse_spaces
                   (remove_all dangerous (trim (ToString input)))))).
Proof.
  intros Hn Hc.
  destruct input; try discriminate; cbn [sanitizeInput is_nullish];
    now rewrite (ToString_or_throw_ok _ Hc).
Qed.

Lemma email_branch_eq (input : value) (options : Options) :
  is_nullish input = false -> convertible input = true ->
  sanitizeInput input "email" options
  = Ok (VStr (str_slice0 (of_Z 254) (toLowerCase (trim (ToString input))))).
Proof.
  intros Hn Hc.
  destruct input; try discriminate; cbn [sanitizeInput is_nullish];
    now rewrite (ToString_or_throw_ok _ Hc).
Qed.

Lemma phone_branch_eq (input : value) (options : Options) :
  is_nullish input = false -> convertible input = true ->
  sanitizeInput input "phone" options
  = Ok (VStr (str_slice0 (of_Z 20)
                (trim (str_filter phone_char (ToString input))))).
Proof.
  intros Hn Hc.
  destruct input; try discriminate; cbn [sanitizeInput is_nullish];
    now rewrite (ToString_or_throw_ok _ Hc).
Qed.

Lemma token_branch_eq (input : value) (options : Options) :
  is_nullish input = false -> convertible input = true ->
  sanitizeInput input "token" options
  = Ok (VStr (str_slice0 (of_Z 1000)
                (str_filter token_char (trim (ToString input))))).
Proof.
  intros Hn Hc.
  destruct input; try discriminate; cbn [sanitizeInput is_nullish];
    now rewrite (ToString_or_throw_ok _ Hc).
Qed.

Lemma string_branch_eq (input : value) (options : Options) :
  is_nullish input = false -> convertible input = true ->
  sanitizeInput input "string" options
  = Ok (VStr (str_slice0 (num_or (maxLength options) (of_Z 500))
                (remove_all is_control (trim (ToString input))))).
Proof.
  intros Hn Hc.
  destruct input; try discriminate; cbn [sanitizeInput is_nullish];
    now rewrite (ToString_or_throw_ok _ Hc).
Qed.

(** X1.  On an input that is neither null nor undefined, and that converts
    to a primitive, the sanitizer returns a string of at most 100 code units
    for a name, 254 for an email, 20 for a phone number and 1000 for a
    token; for type string it returns at most 500 code units when no
    [maxLength] is given, and at most [n] when [maxLength] is a positive
    integer [n]. *)
Theorem sanitized_length_caps (input : value) (options : Options) :
  is_nullish input = false ->
  convertible input = true ->
  (exists s, sanitizeInput input "name" options = Ok (VStr s) /\
             (String.length s <= 100)%nat) /\
  (exists s, sanitizeInput input "email" options = Ok (VStr s) /\
             (String.length s <= 254)%nat) /\
  (exists s, sanitizeInput input "phone" options = Ok (VStr s) /\
             (String.length s <= 20)%nat) /\
  (exists s, sanitizeInput input "token" options = Ok (VStr s) /\
             (String.length s <= 1000)%nat) /\
  (maxLength options = None ->
   exists s, sanitizeInput input "string" options = Ok (VStr s) /\
             (String.length s <= 500)%nat) /\
  (forall n, 0 < n -> maxLength options = Some (of_Z n) ->
   exists s, sanitizeInput input "string" options = Ok (VStr s) /\
             (String.length s <= Z.to_nat n)%nat).
Proof.
  intros Hn Hc.
  rewrite name_branch_eq, email_branch_eq, phone_branch_eq, token_branch_eq,
    string_branch_eq by assumption.
  repeat split.
  - eexists. split; [reflexivity |]. apply (str_slice0_length 100). lia.
  - eexists. split; [reflexivity |]. apply (str_slice0_length 254). lia.
  - eexists. split; [reflexivity |]. apply (str_slice0_length 20). lia.
  - eexists. split; [reflexivity |]. apply (str_slice0_length 1000). lia.
  - intros ->. eexists. split; [reflexivity |].
    apply (str_slice0_length 500). lia.
  - intros n Hpos ->. eexists. split; [reflexivity |].
    unfold num_or. rewrite num_falsy_of_Z by lia.
    apply str_slice0_length. lia.
Qed.

(** X2.  On an input that is neither null nor undefined, and that converts
    to a primitive: a sanitized token holds only letters, digits,
    underscore, hyphen and dot; a sanitized phone number only digits, plus,
    hyphen, parentheses and white space; a sanitized name none of the
    characters less-than, greater-than, ampersand, single quote and double
    quote; a sanitized string no control character. *)
Theorem sanitized_characters (input : value) (options : Options) :
  is_nullish input = false ->
  convertible input = true ->
  (exists s, sanitizeInput input "token" options = Ok (VStr s) /\
             all_chars token_char s = true) /\
  (exists s, sanitizeInput input "phone" options = Ok (VStr s) /\
             all_chars phone_char s = true) /\
  (exists s, sanitizeInput input "name" options = Ok (VStr s) /\
             all_chars (fun c => negb (dangerous c)) s = true) /\
  (exists s, sanitizeInput input "string" options = Ok (VStr s) /\
             all_chars (fun c => negb (is_control c)) s = true).
Proof.
  intros Hn Hconv.
  rewrite name_branch_eq, phone_branch_eq, token_branch_eq,
    string_branch_eq by assumption.
  clear Hn Hconv.
  repeat split; eexists; (split; [reflexivity |]); unfold str_slice0;
    apply all_chars_take.
  - apply all_chars_filter.
  - (* trimming removes characters only *)
    generalize (all_chars_filter phone_char (ToString input)).
    generalize (str_filter phone_char (ToString input)). intros t Ht.
    unfold trim.
    assert (Hstart : all_chars phone_char (trimStart t) = true).
    { induction t as [|c t IH]; simpl in *; [reflexivity |].
      apply andb_true_iff in Ht. destruct Ht as [Hc Ht].
      destruct (is_space c); [auto | simpl; now rewrite Hc, Ht]. }
    revert Hstart. generalize (trimStart t). clear. intros t.
    induction t as [|c t IH]; simpl; [reflexivity |]. intros Ht.
    apply andb_true_iff in Ht. destruct Ht as [Hc Ht]. specialize (IH Ht).
    destruct (trimEnd t); simpl.
    + destruct (is_space c); simpl; [reflexivity | now rewrite Hc].
    + simpl in IH. now rewrite Hc, IH.
  - unfold collapse_spaces. apply all_chars_collapse; [reflexivity |].
    apply (all_chars_filter (fun c => negb (dangerous c))).
  - apply (all_chars_filter (fun c => negb (is_control c))).
Qed.

(** *** Arrays *)

Lemma mapM_lookup {E A B} (f : A -> result E B) (l : list A) :
  forall ys, mapM f l = Ok ys ->
    List.length ys = List.length l /\
    forall (i : nat) y, ys !! i = Some y ->
      exists x, l !! i = Some x /\ f x = Ok y.
Proof.
  induction l as [|x l IH]; intros ys Hm; simpl in Hm.
  - injection Hm as <-. split; [reflexivity |]. intros i y Hy.
    destruct i; discriminate.
  - destruct (f x) as [y0|] eqn:Ex; [| discriminate]. simpl in Hm.
    destruct (mapM f l) as [ys0|] eqn:El; [| discriminate]. simpl in Hm.
    injection Hm as <-. destruct (IH ys0 eq_refl) as [Hlen Hall].
    split; [simpl; now rewrite Hlen |].
    intros [|i] y Hy; simpl in Hy.
    + injection Hy as <-. exists x. auto.
    + apply Hall in Hy. exact Hy.
Qed.

(** X3.  With type array, an input that is an array whose elements convert
    to primitives is sanitized element by element with the item type
    (string when none is given) and the same options, in order, and cut
    after the first [maxItems] elements, 100 when [maxItems] is not given;
    an input that is not an array, and neither null nor undefined, gives the
    empty array. *)
Theorem sanitized_array (options : Options) :
  (forall items,
     convertible (VArr items) = true ->
     exists out,
       sanitizeInput (VArr items) "array" options = Ok (VArr out) /\
       (maxItems options = None ->
        List.length out = Nat.min 100 (List.length items)) /\
       (forall n, 0 < n -> maxItems options = Some (of_Z n) ->
        List.length out = Nat.min (Z.to_nat n) (List.length items)) /\
       (forall (i : nat) y, out !! i = Some y ->
          exists x, items !! i = Some x /\
            sanitizeInput x (str_or (itemType options) "string") options
            = Ok y)) /\
  (forall input,
     is_nullish input = false -> (forall items, input <> VArr items) ->
     sanitizeInput input "array" options = Ok (VArr [])).
Proof.
  split.
  - intros items Hc.
    destruct (mapM_total
                (fun item =>
                   sanitizeInput item (str_or (itemType options) "string")
                     options) items) as (mapped & Hm).
    { cbn [convertible] in Hc. apply forallb_Forall in Hc.
      eapply Forall_impl; [exact Hc |].
      intros x Hx. now apply sanitizeInput_total. }
    destruct (mapM_lookup _ _ _ Hm) as [Hlen Hall].
    exists (list_slice0 (num_or (maxItems options) (of_Z 100)) mapped).
    split; [| split; [| split]].
    + cbn [sanitizeInput is_nullish]. simpl String.eqb. cbn [orb].
      rewrite Hm. reflexivity.
    + intros ->. unfold list_slice0, slice_end, num_or.
      rewrite to_integer_of_Z.
      change (100 <? 0) with false. cbv iota.
      rewrite length_take, Hlen. lia.
    + intros n Hpos ->. unfold list_slice0, slice_end, num_or.
      rewrite num_falsy_of_Z by lia. rewrite to_integer_of_Z.
      replace (n <? 0) with false by (symmetry; apply Z.ltb_ge; lia).
      rewrite length_take, Hlen. lia.
    + intros i y Hy. unfold list_slice0 in Hy.
      apply lookup_take_Some in Hy. destruct Hy as [Hy _].
      exact (Hall i y Hy).
  - intros input Hn Hnot.
    destruct input; try discriminate; try reflexivity.
    destruct (Hnot items eq_refl).
Qed.

(** *** Numbers *)

Lemma validate_number_eq (v : value) (options : Options) :
  is_nullish v || is_empty_string v = false ->
  convertible v = true ->
  validateInput v "number" options
  = if isNaN (ToNumber v) then Ok ["Must be a valid number"]
    else
      Ok ((match min options with
           | Some lo =>
               if num_lt (ToNumber v) lo
               then [("Must be at least " ++ num_toString lo)%string] else []
           | None => []
           end ++
           match max options with
           | Some hi =>
               if num_gt (ToNumber v) hi
               then [("Must be at most " ++ num_toString hi)%string] else []
           | None => []
           end)%list).
Proof.
  intros Hv Hc. unfold validateInput. rewrite Hv, !andb_false_r.
  simpl String.eqb. cbv iota. rewrite (ToNumber_or_throw_ok _ Hc). cbn [bind].
  destruct (isNaN (ToNumber v)); [reflexivity |].
  unfold push_if, push.
  destruct (min options) as [lo|]; destruct (max options) as [hi|];
    repeat match goal with
           | |- context [if ?b then _ else _] => destruct b
           end; reflexivity.
Qed.

(** With type number, a value that converts to a primitive and is not null,
    undefined or the empty string has no validation error exactly when it
    converts to a number
    that is not NaN, not below a supplied [min] and not above a supplied
    [max]; otherwise the errors are, in this order, the message for [min]
    and the message for [max], or the single message for a NaN. *)
Lemma validate_number_range (v : value) (options : Options) :
  is_nullish v || is_empty_string v = false ->
  convertible v = true ->
  let num := ToNumber v in
  let below :=
    match min options with Some lo => num_lt num lo | None => false end in
  let above :=
    match max options with Some hi => num_gt num hi | None => false end in
  (validateInput v "number" options = Ok [] <->
   isNaN num = false /\ below = false /\ above = false) /\
  (isNaN num = true ->
   validateInput v "number" options = Ok ["Must be a valid number"]) /\
  (isNaN num = false -> below = true -> above = true ->
   exists lo hi,
     min options = Some lo /\ max options = Some hi /\
     validateInput v "number" options
     = Ok ["Must be at least " ++ num_toString lo;
           "Must be at most " ++ num_toString hi]).
Proof.
  intros Hv Hc num below above. rewrite validate_number_eq by assumption.
  fold num. unfold below, above.
  destruct (isNaN num); [split; [| split]; try discriminate;
                         [split; [discriminate | intros [? _]; discriminate]
                         | reflexivity] |].
  destruct (min options) as [lo|]; destruct (max options) as [hi|];
    try destruct (num_lt num lo); try destruct (num_gt num hi);
    (split; [split; [try discriminate; auto
                    | intros (_ & Hb & Ha); try discriminate; reflexivity]
            | split; [discriminate |]]);
    intros _ Hb Ha; try discriminate.
  exists lo, hi. auto.
Qed.

(** X4.  Sanitizing and then validating a number with the same bounds: when
    the input converts to a number that is not NaN, and [min] is not above
    [max] where both are given, the sanitized number passes the validation
    of type number with no error. *)
Theorem clamped_number_validates (input : value) (options : Options) :
  is_nullish input = false ->
  isNaN (ToNumber input) = false ->
  match min options, max options with
  | Some lo, Some hi => num_lt hi lo = false
  | _, _ => True
  end ->
  exists r,
    sanitizeInput input "number" options = Ok (VNum r) /\
    validateInput (VNum r) "number" options = Ok [].
Proof.
  intros Hn Hnum Hord.
  rewrite number_branch_eq by (try exact Hn; now apply ToNumber_convertible).
  rewrite Hnum. set (num := ToNumber input) in *.
  assert (Hgoal : forall r,
            isNaN r = false ->
            match min options with Some lo => num_lt r lo | None => false end
            = false ->
            match max options with Some hi => num_gt r hi | None => false end
            = false ->
            validateInput (VNum r) "number" options = Ok []).
  { intros r Hr Hb Ha. rewrite validate_number_eq by reflexivity.
    cbn [ToNumber]. rewrite Hr.
    destruct (min options); destruct (max options);
      rewrite ?Hb, ?Ha; reflexivity. }
  assert (Hnan : forall a b, num_lt a b = true -> isNaN a = false /\ isNaN b = false).
  { intros [|[]|m e] [|[]|m' e']; simpl; intros; try discriminate; auto. }
  unfold clamp.
  destruct (min options) as [lo|] eqn:Elo; destruct (max options) as [hi|] eqn:Ehi.
  - destruct (num_lt num lo) eqn:Hb.
    + exists lo. split; [reflexivity |]. apply Hgoal.
      * exact (proj2 (Hnan _ _ Hb)).
      * apply num_lt_irrefl.
      * exact Hord.
    + destruct (num_gt num hi) eqn:Ha.
      * exists hi. split; [reflexivity |]. apply Hgoal.
        -- exact (proj1 (Hnan _ _ Ha)).
        -- exact Hord.
        -- apply num_lt_irrefl.
      * exists num. split; [reflexivity |]. apply Hgoal; assumption.
  - destruct (num_lt num lo) eqn:Hb.
    + exists lo. split; [reflexivity |]. apply Hgoal.
      * exact (proj2 (Hnan _ _ Hb)).
      * apply num_lt_irrefl.
      * reflexivity.
    + exists num. split; [reflexivity |]. apply Hgoal; auto.
  - destruct (num_gt num hi) eqn:Ha.
    + exists hi. split; [reflexivity |]. apply Hgoal.
      * exact (proj1 (Hnan _ _ Ha)).
      * reflexivity.
      * apply num_lt_irrefl.
    + exists num. split; [reflexivity |]. apply Hgoal; auto.
  - exists num. split; [reflexivity |]. apply Hgoal; auto.
Qed.

(** *** Shopify domains *)

(** X6.  With type shopifyDomain, every input that is neither null nor
    undefined, and that converts to a primitive, gives a string that ends
    with ".myshopify.com" and is in lower case. *)
Theorem sanitized_domain_suffix (input : value) (options : Options) :
  is_nullish input = false ->
  convertible input = true ->
  exists out,
    sanitizeInput input "shopifyDomain" options = Ok (VStr out) /\
    endsWith ".myshopify.com" out = true /\
    toLowerCase out = out.
Proof.
  intros Hn Hc. rewrite shopifyDomain_branch_eq by assumption.
  eexists. split; [reflexivity |].
  set (d := toLowerCase (trim (ToString input))).
  assert (Hd : toLowerCase d = d) by apply toLowerCase_idem.
  unfold with_suffix. destruct (endsWith ".myshopify.com" d) eqn:E.
  - auto.
  - split; [apply endsWith_app |]. rewrite toLowerCase_app, Hd. reflexivity.
Qed.

(** *** Requests *)

Lemma validate_required_empty (v : value) (type : string) (options : Options) :
  is_nullish v || is_empty_string v = true ->
  validateInput v type options
  = Ok (if required options then [(type ++ " is required")%string] else []).
Proof.
  intros Hv. unfold validateInput. rewrite Hv.
  destruct (required options); reflexivity.
Qed.

(** X7.  Take a record whose values for the fields of the schema convert to
    primitives.  A field that its rule marks as required, whose name the
    record does not inherit, and that the record does not have, or has as
    null or undefined, makes [validateAndSanitizeRequest] throw the
    validation error of status 400, whatever the type and the other options
    of the rule are and whatever else the other fields hold; the error lists
    the field with the single message "<type> is required". *)
Theorem required_field_missing (data : gmap string value)
    (schema : list (string * Rule)) (field : string) (rules : Rule) :
  NoDup (List.map fst schema) ->
  all_convertible data schema ->
  In (field, rules) schema ->
  inherited field = false ->
  required (or_empty (validation rules)) = true ->
  is_nullish (get data field) = true ->
  exists e errors,
    validateAndSanitizeRequest data schema = Throw (App e) /\
    ErrorHandler.type e = VALIDATION /\ statusCode e = 400 /\
    context e = ValidationContext "request_validation" (FieldErrors errors)
                  "Request validation failed" /\
    errors !! field = Some [(type rules ++ " is required")%string].
Proof.
  intros Hnd Hconv Hin _ Hreq Hraw.
  assert (Hfail : fails data field rules
                  = Some [(type rules ++ " is required")%string]).
  { unfold fails, errors_of, cleaned.
    rewrite sanitizeInput_nullish by exact Hraw.
    rewrite validate_required_empty, Hreq; [reflexivity |].
    destruct (allowNull _); reflexivity. }
  assert (Hlook : collect (fails data) schema ∅ !! field
                  = Some [(type rules ++ " is required")%string]).
  { rewrite (collect_in _ _ Hnd _ _ _ Hin), Hfail. reflexivity. }
  rewrite request_outcome_eq by exact Hconv.
  destruct (decide (collect (fails data) schema ∅ = ∅)) as [E | E].
  - rewrite E, lookup_empty in Hlook. discriminate.
  - eexists. eexists. split; [reflexivity |]. repeat split. exact Hlook.
Qed.

Lemma num_lt_not_nan (a b : num) :
  num_lt a b = true -> isNaN a = false /\ isNaN b = false.
Proof.
  destruct a as [|[]|m e], b as [|[]|m' e']; simpl; intros; try discriminate;
    auto.
Qed.

(** X8.  Sanitizing with type number and then validating the result with
    type number, as a request field of that type is treated, never reports
    "Must be a valid number", whatever the two option records are and
    whatever the input is, as long as it converts to a primitive: an input
    whose number is NaN has been replaced by 0, by null or by the empty
    string before the validator sees it. *)
Theorem number_field_never_invalid (input : value) (options validation : Options) :
  convertible input = true ->
  exists v errs,
    sanitizeInput input "number" options = Ok v /\
    validateInput v "number" validation = Ok errs /\
    ~ In "Must be a valid number" errs.
Proof.
  intros Hc.
  assert (Hempty : forall v, is_nullish v || is_empty_string v = true ->
            exists errs, validateInput v "number" validation = Ok errs /\
                         ~ In "Must be a valid number" errs).
  { intros v Hv. rewrite validate_required_empty by exact Hv.
    eexists. split; [reflexivity |].
    destruct (required validation); simpl; [| tauto].
    intros [E | []]. discriminate E. }
  assert (Hnum : forall r, isNaN r = false ->
            exists errs, validateInput (VNum r) "number" validation = Ok errs /\
                         ~ In "Must be a valid number" errs).
  { intros r Hr. rewrite validate_number_eq by reflexivity.
    cbn [ToNumber]. rewrite Hr. eexists. split; [reflexivity |].
    intros Hin. apply in_app_or in Hin.
    destruct Hin as [Hin | Hin];
      [destruct (min validation) as [lo|] | destruct (max validation) as [hi|]];
      try destruct (num_lt r lo); try destruct (num_gt r hi);
      simpl in Hin; try tauto; destruct Hin as [E | []]; discriminate E. }
  destruct (is_nullish input) eqn:Hn.
  - rewrite sanitizeInput_nullish by exact Hn.
    destruct (Hempty (if allowNull options then VNull else VStr ""))
      as (errs & He & Hnot); [destruct (allowNull options); reflexivity |].
    eauto.
  - rewrite number_branch_eq by assumption.
    destruct (isNaN (ToNumber input)) eqn:Hnan.
    + unfold null_or. destruct (allowNull options).
      * destruct (Hempty VNull eq_refl) as (errs & He & Hnot). eauto.
      * destruct (Hnum (of_Z 0) eq_refl) as (errs & He & Hnot). eauto.
    + unfold clamp.
      destruct (min options) as [lo|].
      * destruct (num_lt (ToNumber input) lo) eqn:Hb.
        -- destruct (Hnum lo (proj2 (num_lt_not_nan _ _ Hb)))
             as (errs & He & Hnot). eauto.
        -- destruct (max options) as [hi|].
           ++ destruct (num_gt (ToNumber input) hi) eqn:Ha.
              ** destruct (Hnum hi (proj1 (num_lt_not_nan _ _ Ha)))
                   as (errs & He & Hnot). eauto.
              ** destruct (Hnum _ Hnan) as (errs & He & Hnot). eauto.
           ++ destruct (Hnum _ Hnan) as (errs & He & Hnot). eauto.
      * destruct (max options) as [hi|].
        -- destruct (num_gt (ToNumber input) hi) eqn:Ha.
           ++ destruct (Hnum hi (proj1 (num_lt_not_nan _ _ Ha)))
                as (errs & He & Hnot). eauto.
           ++ destruct (Hnum _ Hnan) as (errs & He & Hnot). eauto.
        -- destruct (Hnum _ Hnan) as (errs & He & Hnot). eauto.
Qed.

End Sanitizer.

Lemma sanitized_length_caps_witness :
  exists s,
    sanitizeInput (H := rejecting_host) (VStr (zeros 300)) "name" no_options
    = Ok (VStr s) /\ (String.length s <= 100)%nat.
Proof.
  exact (proj1 (sanitized_length_caps (H := rejecting_host)
                  (VStr (zeros 300)) no_options eq_refl eq_refl)).
Defined.

Lemma sanitized_characters_witness :
  exists s,
    sanitizeInput (H := rejecting_host) (VStr "abc@123#def") "token" no_options
    = Ok (VStr s) /\ all_chars token_char s = true.
Proof.
  exact (proj1 (sanitized_characters (H := rejecting_host)
                  (VStr "abc@123#def") no_options eq_refl eq_refl)).
Defined.

Lemma sanitized_array_witness :
  exists out,
    sanitizeInput (H := rejecting_host)
      (VArr [VStr " a "; VNum (of_Z 5); VNull; VObj [("id", VNum (of_Z 7))]])
      "array" no_options = Ok (VArr out) /\
    List.length out = 4%nat.
Proof.
  destruct (proj1 (sanitized_array (H := rejecting_host) no_options)
              [VStr " a "; VNum (of_Z 5); VNull; VObj [("id", VNum (of_Z 7))]]
              eq_refl)
    as (out & Hout & Hlen & _).
  exists out. split; [exact Hout | exact (Hlen eq_refl)].
Defined.

Lemma number_field_never_invalid_witness :
  exists v errs,
    sanitizeInput (H := rejecting_host) (VArr [VStr "abc"]) "number"
      no_options = Ok v /\
    validateInput v "number" (required_min (of_Z 18)) = Ok errs /\
    ~ In "Must be a valid number" errs.
Proof.
  exact (number_field_never_invalid (H := rejecting_host) (VArr [VStr "abc"])
           no_options (required_min (of_Z 18)) eq_refl).
Defined.

Lemma validate_number_range_witness :
  validateInput (VNum (of_Z 5)) "number"
    (with_bounds (Some (of_Z 1)) (Some (of_Z 10))) = Ok [].
Proof.
  apply (proj1 (validate_number_range (VNum (of_Z 5))
                  (with_bounds (Some (of_Z 1)) (Some (of_Z 10)))
                  eq_refl eq_refl)).
  vm_compute. auto.
Defined.

Lemma clamped_number_validates_witness :
  exists r,
    sanitizeInput (H := rejecting_host) (VStr "150") "number"
      (with_bounds (Some (of_Z 0)) (Some (of_Z 100))) = Ok (VNum r) /\
    validateInput (VNum r) "number"
      (with_bounds (Some (of_Z 0)) (Some (of_Z 100))) = Ok [].
Proof.
  apply (clamped_number_validates (H := rejecting_host) (VStr "150")
           (with_bounds (Some (of_Z 0)) (Some (of_Z 100))));
    vm_compute; reflexivity.
Defined.

Lemma sanitized_domain_suffix_witness :
  exists out,
    sanitizeInput (H := rejecting_host) (VStr " My-Shop ") "shopifyDomain"
      no_options = Ok (VStr out) /\
    endsWith ".myshopify.com" out = true /\
    toLowerCase out = out.
Proof.
  exact (sanitized_domain_suffix (H := rejecting_host) (VStr " My-Shop ")
           no_options eq_refl eq_refl).
Defined.

(** A request with no fields, against a schema with one required field. *)
Lemma required_field_missing_witness :
  exists e errors,
    validateAndSanitizeRequest (H := rejecting_host) ∅
      [("email", {| type := "email"; options := None;
                    validation := Some required_only |})]
    = Throw (App e) /\
    ErrorHandler.type e = VALIDATION /\ statusCode e = 400 /\
    context e = ValidationContext "request_validation" (FieldErrors errors)
                  "Request validation failed" /\
    errors !! "email" = Some ["email is required"].
Proof.
  apply (required_field_missing (H := rejecting_host) ∅
           [("email", {| type := "email"; options := None;
                         validation := Some required_only |})]
           "email"
           {| type := "email"; options := None;
              validation := Some required_only |}).
  - repeat constructor. rewrite list_elem_of_In. simpl. tauto.
  - intros field rules [E | []]. injection E as <- <-. reflexivity.
  - simpl. auto.
  - reflexivity.
  - reflexivity.
  - reflexivity.
Defined.

End SanitizerExtras.

(** ** The fixed-window limiter *)

Module RateLimiterExtras.
Import ErrorHandler RateLimiter Vocabulary RateLimiterFacts.

(** *** Keys *)

Lemma no_colon_app (a b : string) : no_colon (a ++ String ":" b) = false.
Proof.
  unfold no_colon. induction a as [|c a IH]; simpl; [reflexivity |].
  rewrite IH. apply andb_false_r.
Qed.

Lemma split_first_colon (a a' r r' : string) :
  no_colon a = true -> no_colon a' = true ->
  a ++ String ":" r = a' ++ String ":" r' -> a = a' /\ r = r'.
Proof.
  unfold no_colon. revert a'.
  induction a as [|c a IH]; intros [|c' a']; simpl; intros Ha Ha' E.
  - injection E as <-. auto.
  - injection E as <- _. discriminate Ha'.
  - injection E as -> _. discriminate Ha.
  - injection E as <- E. apply andb_true_iff in Ha, Ha'.
    destruct (IH a' (proj2 Ha) (proj2 Ha') E) as [<- <-]. auto.
Qed.

Lemma split_last_colon (a a' e e' : string) :
  no_colon e = true -> no_colon e' = true ->
  a ++ String ":" e = a' ++ String ":" e' -> a = a' /\ e = e'.
Proof.
  intros He He'. revert a'.
  induction a as [|c a IH]; intros [|c' a']; simpl; intros E.
  - injection E as <-. auto.
  - injection E as _ E. rewrite E, no_colon_app in He. discriminate He.
  - injection E as _ E. rewrite <- E, no_colon_app in He'. discriminate He'.
  - injection E as <- E. destruct (IH a' E) as [<- <-]. auto.
Qed.

(** X9.  Two calls share a counter only if they agree on the class, the
    client identifier and the endpoint, provided that the two class names
    hold no colon and that either the identifiers or the endpoints hold
    none: then [generateKey] gives different keys to different triples. *)
Theorem generateKey_injective (type type' identifier identifier'
    endpoint endpoint' : string) :
  no_colon type = true -> no_colon type' = true ->
  (no_colon identifier = true /\ no_colon identifier' = true) \/
  (no_colon endpoint = true /\ no_colon endpoint' = true) ->
  generateKey identifier endpoint type = generateKey identifier' endpoint' type' ->
  type = type' /\ identifier = identifier' /\ endpoint = endpoint'.
Proof.
  unfold generateKey. intros Ht Ht' Hside E.
  destruct (split_first_colon _ _ _ _ Ht Ht' E) as [<- E'].
  split; [reflexivity |].
  destruct Hside as [[Hi Hi'] | [He He']].
  - exact (split_first_colon _ _ _ _ Hi Hi' E').
  - exact (split_last_colon _ _ _ _ He He' E').
Qed.

(** An IPv6 identifier holds colons; the endpoints of the routes hold
    none. *)
Lemma generateKey_injective_witness :
  "api" = "api" /\ "2001:db8::1" = "2001:db8::1" /\ "orders" = "orders".
Proof.
  apply (generateKey_injective "api" "api" "2001:db8::1" "2001:db8::1"
           "orders" "orders");
    [reflexivity | reflexivity | right; split; reflexivity | reflexivity].
Defined.

(** *** A check, by the window that is running *)

(** What a check does, in terms of the window it finds running. *)
Lemma check_eq (request : Request) (endpoint type : string) (env : Env)
    (s : gmap string RateLimitData) :
  let key := generateKey (getClientIdentifier request) endpoint type in
  let cap := maxRequests (config_of type) in
  let fresh := {| count := 0; resetTime := now env + windowMs (config_of type);
                  firstRequest := now env |} in
  let d := match current_window key env s with Some d => d | None => fresh end in
  let found :=
    match current_window key env s with
    | Some _ => swept env s
    | None => <[key := fresh]> (swept env s)
    end in
  checkRateLimit request endpoint type env s
  = if cap <=? count d
    then (found,
          Throw (createRateLimitError
                   (Some (ceil_div (resetTime d - now env) 1000))))
    else (<[key := {| count := count d + 1; resetTime := resetTime d;
                      firstRequest := firstRequest d |}]> found,
          Ok {| limit := cap;
                remaining := Z.max 0 (cap - (count d + 1));
                reset := resetTime d;
                retryAfter :=
                  if cap <=? count d + 1
                  then Some (ceil_div (resetTime d - now env) 1000)
                  else None |}).
Proof.
  intros key cap fresh d found. unfold d, found, current_window.
  unfold checkRateLimit. fold (swept env s). fold key. fold cap. fold fresh.
  destruct (swept env s !! key) as [d0|]; [destruct (resetTime d0 <? now env) |];
    cbn [count resetTime firstRequest];
    match goal with
    | |- context [cap <=? ?c] => destruct (cap <=? c)
    end; reflexivity.
Qed.

(** The verdict of a check depends on the store through the running window
    only. *)
Lemma verdict_window (request : Request) (endpoint type : string)
    (env env' : Env) (s s' : gmap string RateLimitData) :
  let key := generateKey (getClientIdentifier request) endpoint type in
  now env' = now env ->
  current_window key env' s' = current_window key env s ->
  snd (checkRateLimit request endpoint type env' s')
  = snd (checkRateLimit request endpoint type env s).
Proof.
  intros key Hnow E. rewrite !check_eq. fold key. cbv zeta. rewrite E, Hnow.
  repeat match goal with
         | |- context [if ?b then _ else _] => destruct b
         end; reflexivity.
Qed.

Lemma lookup_cleanup_None (t : Z) (s : gmap string RateLimitData)
    (key : string) :
  cleanupExpiredEntries t s !! key = None <->
  s !! key = None \/ exists d, s !! key = Some d /\ resetTime d < t.
Proof.
  destruct (s !! key) as [d|] eqn:E.
  - destruct (Z_lt_le_dec (resetTime d) t) as [Hlt | Hge].
    + split; [eauto |]. intros _.
      destruct (cleanupExpiredEntries t s !! key) as [d'|] eqn:E';
        [| reflexivity].
      apply lookup_cleanup in E'. destruct E' as [E' Hle].
      rewrite E in E'. injection E' as <-. lia.
    + assert (E' : cleanupExpiredEntries t s !! key = Some d)
        by (apply lookup_cleanup; auto).
      rewrite E'. split; [discriminate |].
      intros [? | (d' & Hd' & Hlt)]; [discriminate |].
      injection Hd' as <-. lia.
  - split; [auto |]. intros _.
    destruct (cleanupExpiredEntries t s !! key) as [d'|] eqn:E'; [| reflexivity].
    apply lookup_cleanup in E'. destruct E' as [E' _]. congruence.
Qed.

(** *** The random sweep *)

(** X10.  The sweep that a check runs with probability 1/100 does not show
    in the verdict: a check that sweeps at its clock reading [t] returns or
    throws what it would without the sweep, provided that the entry of its
    own key, if it has expired at [t], had already expired at the clock
    reading [now] of the check; and when the two readings are the same the
    store it leaves is the store that the check without the sweep leaves,
    less the entries that have expired. *)
Theorem sweep_unobservable (request : Request) (endpoint type : string)
    (env : Env) (t : Z) (s : gmap string RateLimitData) :
  let key := generateKey (getClientIdentifier request) endpoint type in
  let quiet := {| now := now env; cleanup := None |} in
  cleanup env = Some t ->
  (forall d, s !! key = Some d -> resetTime d < t -> resetTime d < now env) ->
  snd (checkRateLimit request endpoint type env s)
  = snd (checkRateLimit request endpoint type quiet s) /\
  (t = now env ->
   fst (checkRateLimit request endpoint type env s)
   = cleanupExpiredEntries t
       (fst (checkRateLimit request endpoint type quiet s))).
Proof.
  intros key quiet Hc Hexp.
  assert (Hwin : current_window key env s = current_window key quiet s).
  { unfold current_window, swept. rewrite Hc. cbn [cleanup now quiet].
    destruct (s !! key) as [d|] eqn:E.
    - destruct (Z_lt_le_dec (resetTime d) t) as [Hlt | Hge].
      + replace (cleanupExpiredEntries t s !! key) with (@None RateLimitData)
          by (symmetry; apply lookup_cleanup_None; eauto).
        replace (resetTime d <? now env) with true; [reflexivity |].
        symmetry. apply Z.ltb_lt. exact (Hexp d eq_refl Hlt).
      + replace (cleanupExpiredEntries t s !! key) with (Some d);
          [reflexivity |].
        symmetry. apply lookup_cleanup. auto.
    - replace (cleanupExpiredEntries t s !! key) with (@None RateLimitData);
        [reflexivity |].
      symmetry. apply lookup_cleanup_None. auto. }
  split.
  - apply verdict_window; [reflexivity | exact Hwin].
  - intros ->. destruct (config_positive type) as [_ Hw].
    rewrite !check_eq. fold key. cbv zeta. rewrite Hwin.
    cbn [now quiet]. unfold swept at 3 4. cbn [cleanup quiet].
    unfold swept. rewrite Hc.
    assert (Hkeep : forall d' m,
              now env <= resetTime d' ->
              cleanupExpiredEntries (now env) (<[key := d']> m)
              = <[key := d']> (cleanupExpiredEntries (now env) m)).
    { intros d' m Hd'. unfold cleanupExpiredEntries.
      apply map_filter_insert_True. simpl. lia. }
    destruct (current_window key quiet s) as [d|] eqn:Ed.
    + assert (Hd : now env <= resetTime d).
      { unfold current_window in Ed. cbn [now quiet] in Ed.
        destruct (swept quiet s !! key) as [d0|]; [| discriminate].
        destruct (resetTime d0 <? now env) eqn:El; [discriminate |].
        injection Ed as <-. apply Z.ltb_ge in El. exact El. }
      destruct (maxRequests (config_of type) <=? count d); cbn [fst];
        [reflexivity |].
      rewrite Hkeep by exact Hd. reflexivity.
    + cbn [count resetTime firstRequest].
      destruct (maxRequests (config_of type) <=? 0); cbn [fst];
        rewrite !Hkeep by (cbn [resetTime]; lia); reflexivity.
Qed.

Lemma sweep_unobservable_witness :
  snd (checkRateLimit
         {| shop := Some "a.myshopify.com"; x_forwarded_for := None;
            x_real_ip := None |} "orders" "api"
         {| now := 5000; cleanup := Some 5000 |}
         {[ "api:a.myshopify.com:orders" :=
              {| count := 60; resetTime := 4000; firstRequest := 0 |} ]})
  = snd (checkRateLimit
           {| shop := Some "a.myshopify.com"; x_forwarded_for := None;
              x_real_ip := None |} "orders" "api"
           {| now := 5000; cleanup := None |}
           {[ "api:a.myshopify.com:orders" :=
                {| count := 60; resetTime := 4000; firstRequest := 0 |} ]}).
Proof.
  refine (proj1 (sweep_unobservable
                   {| shop := Some "a.myshopify.com"; x_forwarded_for := None;
                      x_real_ip := None |} "orders" "api"
                   {| now := 5000; cleanup := Some 5000 |} 5000
                   {[ "api:a.myshopify.com:orders" :=
                        {| count := 60; resetTime := 4000;
                           firstRequest := 0 |} ]} eq_refl _)).
  intros d _ Hd. exact Hd.
Defined.

(** *** Other keys *)

(** What calls on other keys can do to the entry of [key] before a check
    at [env]: nothing, or delete it once it has expired. *)
Lemma other_call_keeps_window (key : string) (env : Env) (c : Call)
    (s s' : gmap string RateLimitData) :
  call_key c <> key -> not_after (now env) c ->
  (s' !! key = s !! key \/
   s' !! key = None /\ exists d, s !! key = Some d /\ resetTime d < now env) ->
  (perform c s' !! key = s !! key \/
   perform c s' !! key = None /\
   exists d, s !! key = Some d /\ resetTime d < now env).
Proof.
  intros Hkey Hclock Hs.
  assert (Hdec : forall k, k <> key -> decrement k s' !! key = s' !! key).
  { intros k Hk. unfold decrement.
    destruct (s' !! k) as [d|]; [| reflexivity].
    destruct (0 <? count d); [| reflexivity].
    apply lookup_insert_ne. exact Hk. }
  destruct c as [request endpoint type env' | request endpoint type
                | request endpoint type]; cbn [perform call_key] in *.
  - set (k := generateKey (getClientIdentifier request) endpoint type) in *.
    destruct Hclock as [_ Hclock].
    assert (Hsw : swept env' s' !! key = s !! key \/
                  swept env' s' !! key = None /\
                  exists d, s !! key = Some d /\ resetTime d < now env).
    { unfold swept. destruct (cleanup env') as [t|]; [| exact Hs].
      destruct (cleanupExpiredEntries t s' !! key) as [d|] eqn:E.
      - apply lookup_cleanup in E. destruct E as [E _].
        destruct Hs as [Hs | [Hs _]]; [left | ]; congruence.
      - apply lookup_cleanup_None in E.
        destruct Hs as [Hs | Hs];
          [| right; split; [reflexivity | exact (proj2 Hs)]].
        destruct E as [E | (d & E & Hlt)]; [left; congruence |].
        right. split; [reflexivity |]. exists d. split; [congruence | lia]. }
    rewrite check_eq. fold k. cbv zeta.
    assert (Hfound : forall (m : gmap string RateLimitData) d0,
              <[k := d0]> m !! key = m !! key)
      by (intros m d0; apply lookup_insert_ne; exact Hkey).
    destruct (current_window k env' s');
      match goal with
      | |- context [if ?b then _ else _] => destruct b
      end; cbn [fst]; rewrite ?Hfound; exact Hsw.
  - unfold recordSuccess.
    destruct (skipSuccessfulRequests (config_of type)); [| exact Hs].
    rewrite Hdec by exact Hkey. exact Hs.
  - unfold recordFailure.
    destruct (skipFailedRequests (config_of type)); [| exact Hs].
    rewrite Hdec by exact Hkey. exact Hs.
Qed.

(** X11.  The verdict of a check does not depend on the calls that were
    made for other keys before it, whether checks, with or without a sweep,
    or records of success and failure, as long as none of them read a clock
    value after the one of the check: the check returns or throws what it
    would had those calls not been made. *)
Theorem other_keys_independent (request : Request) (endpoint type : string)
    (env : Env) (calls : list Call) (s : gmap string RateLimitData) :
  let key := generateKey (getClientIdentifier request) endpoint type in
  Forall (fun c => call_key c <> key /\ not_after (now env) c) calls ->
  snd (checkRateLimit request endpoint type env (run calls s))
  = snd (checkRateLimit request endpoint type env s).
Proof.
  intros key Hcalls.
  assert (Hrun : forall s',
            (s' !! key = s !! key \/
             s' !! key = None /\
             exists d, s !! key = Some d /\ resetTime d < now env) ->
            run calls s' !! key = s !! key \/
            run calls s' !! key = None /\
            exists d, s !! key = Some d /\ resetTime d < now env).
  { unfold run. induction Hcalls as [|c calls [Hk Hc] _ IH]; intros s' Hs';
      [exact Hs' |].
    cbn [fold_left]. apply IH.
    exact (other_call_keeps_window key env c s s' Hk Hc Hs'). }
  specialize (Hrun s (or_introl eq_refl)).
  apply verdict_window; [reflexivity |]. fold key.
  unfold current_window, swept.
  destruct (cleanup env) as [t|].
  - destruct (cleanupExpiredEntries t (run calls s) !! key) as [d|] eqn:E.
    + apply lookup_cleanup in E. destruct E as [E Ht].
      destruct Hrun as [Hrun | [Hrun _]]; [| congruence].
      replace (cleanupExpiredEntries t s !! key) with (Some d); [reflexivity |].
      symmetry. apply lookup_cleanup. split; [congruence | exact Ht].
    + destruct (cleanupExpiredEntries t s !! key) as [d|] eqn:E0;
        [| reflexivity].
      apply lookup_cleanup in E0. destruct E0 as [E0 Ht].
      apply lookup_cleanup_None in E.
      destruct Hrun as [Hrun | [_ (d' & Hd' & Hlt)]].
      * destruct E as [E | (d' & E & Hlt)]; [congruence |].
        assert (d' = d) by congruence. subst d'. lia.
      * assert (d' = d) by congruence. subst d'.
        replace (resetTime d <? now env) with true; [reflexivity |].
        symmetry. apply Z.ltb_lt. exact Hlt.
  - destruct Hrun as [-> | [-> (d & -> & Hlt)]]; [reflexivity |].
    replace (resetTime d <? now env) with true; [reflexivity |].
    symmetry. apply Z.ltb_lt. exact Hlt.
Qed.

(** Traffic of another shop does not change the verdict for this one. *)
Lemma other_keys_independent_witness :
  snd (checkRateLimit
         {| shop := Some "a.myshopify.com"; x_forwarded_for := None;
            x_real_ip := None |} "orders" "token"
         {| now := 2000; cleanup := None |}
         (run [CheckRateLimit
                 {| shop := Some "b.myshopify.com"; x_forwarded_for := None;
                    x_real_ip := None |} "orders" "token"
                 {| now := 1000; cleanup := Some 1000 |};
               RecordSuccess
                 {| shop := Some "b.myshopify.com"; x_forwarded_for := None;
                    x_real_ip := None |} "login" "auth"] ∅))
  = snd (checkRateLimit
           {| shop := Some "a.myshopify.com"; x_forwarded_for := None;
              x_real_ip := None |} "orders" "token"
           {| now := 2000; cleanup := None |} ∅).
Proof.
  apply (other_keys_independent
           {| shop := Some "a.myshopify.com"; x_forwarded_for := None;
              x_real_ip := None |} "orders" "token"
           {| now := 2000; cleanup := None |}).
  repeat constructor; simpl; try lia; discriminate.
Defined.

End RateLimiterExtras.

(** ** The wrapper of route handlers *)

Module MiddlewareExtras.
Import ErrorHandler RateLimiter Middleware Vocabulary RateLimiterFacts
  RateLimiterExtras.

Lemma current_window_lookup (key : string) (env : Env)
    (s : gmap string RateLimitData) (d : RateLimitData) :
  current_window key env s = Some d ->
  swept env s !! key = Some d /\ now env <= resetTime d.
Proof.
  unfold current_window. destruct (swept env s !! key) as [d0|]; [| discriminate].
  destruct (resetTime d0 <? now env) eqn:E; [discriminate |].
  intros [= <-]. apply Z.ltb_ge in E. auto.
Qed.

Lemma decrement_lookup (key : string) (s : gmap string RateLimitData)
    (d : RateLimitData) :
  s !! key = Some d -> 0 < count d ->
  decrement key s
  = <[key := {| count := count d - 1; resetTime := resetTime d;
                firstRequest := firstRequest d |}]> s.
Proof.
  intros Hl Hpos. unfold decrement. rewrite Hl.
  replace (0 <? count d) with true by (symmetry; apply Z.ltb_lt; lia).
  reflexivity.
Qed.

Lemma decrement_other (key key' : string) (s : gmap string RateLimitData) :
  key' <> key -> decrement key s !! key' = s !! key'.
Proof.
  intros Hk. unfold decrement. destruct (s !! key) as [d|]; [| reflexivity].
  destruct (0 <? count d); [| reflexivity].
  apply lookup_insert_ne. congruence.
Qed.

Section Wrapper.
Context {Args : Type} (request : Args -> Request).

(** A call at a full window, whatever the handler. *)
Lemma rejected_eq (handler : Handler Args) (endpoint type : string)
    (args : Args) (env : Env) (s : gmap string RateLimitData)
    (d : RateLimitData) :
  let key := generateKey (getClientIdentifier (request args)) endpoint type in
  current_window key env s = Some d ->
  maxRequests (config_of type) <= count d ->
  withRateLimit request handler endpoint type args env s
  = (recordFailure (request args) endpoint type (swept env s),
     Throw (App (createRateLimitError
                   (Some (ceil_div (resetTime d - now env) 1000))))).
Proof.
  intros key Hwin Hfull.
  unfold withRateLimit. rewrite check_eq. fold key. cbv zeta. rewrite Hwin.
  replace (maxRequests (config_of type) <=? count d) with true
    by (symmetry; apply Z.leb_le; lia).
  reflexivity.
Qed.

Lemma rejected_entry (endpoint type : string) (req : Request) (env : Env)
    (s : gmap string RateLimitData) (d : RateLimitData) :
  let key := generateKey (getClientIdentifier req) endpoint type in
  current_window key env s = Some d ->
  maxRequests (config_of type) <= count d ->
  recordFailure req endpoint type (swept env s) !! key
  = Some (if skipFailedRequests (config_of type)
          then {| count := count d - 1; resetTime := resetTime d;
                  firstRequest := firstRequest d |}
          else d) /\
  (forall key', key' <> key ->
     recordFailure req endpoint type (swept env s) !! key'
     = swept env s !! key').
Proof.
  intros key Hwin Hfull.
  destruct (current_window_lookup _ _ _ _ Hwin) as [Hlook Hd].
  destruct (config_positive type) as [Hcap _].
  unfold recordFailure. fold key.
  destruct (skipFailedRequests (config_of type)).
  - rewrite (decrement_lookup key _ d Hlook) by lia. split.
    + apply lookup_insert_eq.
    + intros key' Hk. apply lookup_insert_ne. congruence.
  - split; [exact Hlook | reflexivity].
Qed.

(** X12.  For a class of the catalog, or another name that is not inherited
    from [Object.prototype] and so falls back to the class api: when the
    window of the caller is full, the wrapped handler is not run: the call
    throws the rate-limit error of status 429 with
    [retryAfter = ceil((resetTime - now) / 1000)], whatever the handler is.
    The entries of other keys are left as the lookup found them.  The entry
    of the caller is left as it was too, except for a class with
    [skipFailedRequests] (the class shopify), where the rejected call
    itself takes one off the count. *)
Theorem limit_reached (handler : Handler Args) (endpoint type : string)
    (args : Args) (env : Env) (s : gmap string RateLimitData)
    (d : RateLimitData) :
  let key := generateKey (getClientIdentifier (request args)) endpoint type in
  let out := withRateLimit request handler endpoint type args env s in
  inherited type = false ->
  current_window key env s = Some d ->
  maxRequests (config_of type) <= count d ->
  snd out
  = Throw (App (createRateLimitError
                  (Some (ceil_div (resetTime d - now env) 1000)))) /\
  (forall handler' : Handler Args,
     withRateLimit request handler' endpoint type args env s = out) /\
  fst out !! key
  = Some (if skipFailedRequests (config_of type)
          then {| count := count d - 1; resetTime := resetTime d;
                  firstRequest := firstRequest d |}
          else d) /\
  (forall key', key' <> key -> fst out !! key' = swept env s !! key').
Proof.
  intros key out _ Hwin Hfull.
  unfold out. rewrite (rejected_eq handler _ _ _ _ _ d Hwin Hfull).
  cbn [fst snd]. split; [reflexivity |].
  split; [intros h; exact (rejected_eq h _ _ _ _ _ d Hwin Hfull) |].
  exact (rejected_entry endpoint type (request args) env s d Hwin Hfull).
Qed.

(** X13.  For the class shopify the limit does not hold calls back for the
    rest of the window: a call that is rejected at 40 leaves the count at
    39, so the next call made inside the same window passes the check,
    with nothing remaining. *)
Theorem shopify_rejection_readmits (handler : Handler Args) (endpoint : string)
    (args : Args) (env next : Env) (s : gmap string RateLimitData)
    (d : RateLimitData) :
  let key := generateKey (getClientIdentifier (request args)) endpoint "shopify" in
  let rejected := withRateLimit request handler endpoint "shopify" args env s in
  current_window key env s = Some d ->
  count d = 40 ->
  inside_window (resetTime d) next ->
  (exists e, snd rejected = Throw (App e) /\ statusCode e = 429) /\
  (exists info,
     snd (checkRateLimit (request args) endpoint "shopify" next (fst rejected))
     = Ok info /\ remaining info = 0).
Proof.
  intros key rejected Hwin Hcount Hnext.
  assert (Hfull : maxRequests (config_of "shopify") <= count d) by (cbn; lia).
  unfold rejected. rewrite (rejected_eq handler _ _ _ _ _ d Hwin Hfull).
  cbn [fst snd].
  split; [eexists; split; reflexivity |].
  destruct (rejected_entry endpoint "shopify" (request args) env s d Hwin Hfull)
    as [Hentry _].
  cbn in Hentry.
  destruct (check_inside (request args) endpoint "shopify" (resetTime d) next
              _ _ Hentry eq_refl Hnext)
    as (info & Hinfo & _ & Hrem & _); [cbn; lia |].
  exists info. split; [exact Hinfo |]. rewrite Hrem. cbn. lia.
Qed.

(** A check that returns has counted the call in the entry of its key. *)
Lemma check_admitted (endpoint type : string) (req : Request) (env : Env)
    (s s1 : gmap string RateLimitData) (info : RateLimitInfo) :
  let key := generateKey (getClientIdentifier req) endpoint type in
  let cap := maxRequests (config_of type) in
  let before :=
    match current_window key env s with Some d => count d | None => 0 end in
  let R :=
    match current_window key env s with
    | Some d => resetTime d
    | None => now env + windowMs (config_of type)
    end in
  checkRateLimit req endpoint type env s = (s1, Ok info) ->
  before < cap /\
  limit info = cap /\ remaining info = Z.max 0 (cap - (before + 1)) /\
  reset info = R /\
  retryAfter info
  = (if cap <=? before + 1 then Some (ceil_div (R - now env) 1000) else None) /\
  exists d1, s1 !! key = Some d1 /\ count d1 = before + 1 /\ resetTime d1 = R.
Proof.
  intros key cap before R. rewrite check_eq. fold key. fold cap. cbv zeta.
  unfold before, R.
  destruct (current_window key env s) as [d|];
    cbn [count resetTime firstRequest];
    match goal with
    | |- context [cap <=? ?c] => destruct (cap <=? c) eqn:E
    end; intros [= <- <-]; cbn [limit remaining reset retryAfter];
    apply Z.leb_gt in E;
    (split; [lia |]); repeat (split; [reflexivity |]);
    eexists; (split; [apply lookup_insert_eq |]); split; reflexivity.
Qed.

Lemma add_headers_mutable (info : RateLimitInfo) (r : Response) :
  immutable (headers r) = false ->
  exists r',
    add_headers info r = Ok r' /\ status r' = status r /\ body r' = body r /\
    immutable (headers r') = false /\
    entries (headers r')
    = (let h :=
         <["x-ratelimit-reset" := Z_toString (reset info)]>
           (<["x-ratelimit-remaining" := Z_toString (remaining info)]>
              (<["x-ratelimit-limit" := Z_toString (limit info)]>
                 (entries (headers r)))) in
       match retryAfter info with
       | Some n => if n =? 0 then h else <["retry-after" := Z_toString n]> h
       | None => h
       end).
Proof.
  intros Hm. unfold add_headers, headers_set. rewrite Hm. cbn.
  destruct (retryAfter info) as [n|]; [destruct (n =? 0) |]; cbn;
    eexists; repeat split.
Qed.

Lemma add_headers_immutable (info : RateLimitInfo) (r : Response) :
  immutable (headers r) = true ->
  add_headers info r = Throw (TypeError "immutable").
Proof. intros Hm. unfold add_headers, headers_set. now rewrite Hm. Qed.

(** No class of the catalog has both flags. *)
Lemma one_flag (type : string) :
  in_catalog type ->
  skipSuccessfulRequests (config_of type) && skipFailedRequests (config_of type)
  = false.
Proof.
  intros [<- | [<- | [<- | [<- | [<- | []]]]]]; reflexivity.
Qed.

(** X14.  A call that passes the check costs the caller one unit of the
    window, whether the handler returns or throws, with these exceptions:
    in a class with [skipSuccessfulRequests] (the class auth) a handler
    that returns costs nothing; in a class with [skipFailedRequests] (the
    class shopify) a handler that throws costs nothing; and a handler that
    returns a [Response] whose headers cannot be set counts as both, since
    the success is recorded first and setting the headers then throws.
    This holds for every store with counts that are not negative and every
    handler that leaves the entry of the caller alone, and the reset time
    of the window is not changed. *)
Theorem handler_accounting (handler : Handler Args) (endpoint type : string)
    (args : Args) (env : Env) (s s1 s2 : gmap string RateLimitData)
    (info : RateLimitInfo) (outcome : result thrown Returned) :
  let key := generateKey (getClientIdentifier (request args)) endpoint type in
  let before :=
    match current_window key env s with Some d => count d | None => 0 end in
  let refund :=
    match outcome with
    | Ok (IsResponse r) =>
        if immutable (headers r)
        then skipSuccessfulRequests (config_of type)
             || skipFailedRequests (config_of type)
        else skipSuccessfulRequests (config_of type)
    | Ok (NotResponse _) => skipSuccessfulRequests (config_of type)
    | Throw _ => skipFailedRequests (config_of type)
    end in
  in_catalog type -> bounded s ->
  checkRateLimit (request args) endpoint type env s = (s1, Ok info) ->
  handler args s1 = (s2, outcome) ->
  s2 !! key = s1 !! key ->
  exists d,
    fst (withRateLimit request handler endpoint type args env s) !! key = Some d /\
    count d = (if refund then before else before + 1) /\
    resetTime d = reset info.
Proof.
  intros key before refund Hcat Hs Hcheck Hhandler Hkeep.
  destruct (check_admitted endpoint type (request args) env s s1 info Hcheck)
    as (_ & _ & _ & Hreset & _ & d1 & Hd1 & Hcount & HR).
  fold key in Hd1, Hcount, HR, Hreset. fold before in Hcount.
  rewrite <- HR in Hreset.
  assert (Hbefore : 0 <= before).
  { unfold before. destruct (current_window key env s) as [d|] eqn:E; [| lia].
    apply current_window_lookup in E. destruct E as [E _].
    apply (bounded_swept env) in Hs.
    exact (proj1 (bounded_class _ _ _ _ _ Hs Hcat E)). }
  rewrite <- Hkeep in Hd1.
  assert (Hdec : forall flag : bool,
            exists d : RateLimitData,
              (if flag then decrement key s2 else s2) !! key = Some d /\
              count d = (if flag then before else before + 1) /\
              resetTime d = reset info).
  { intros [|].
    - rewrite (decrement_lookup key s2 d1 Hd1) by lia.
      eexists. split; [apply lookup_insert_eq |]. cbn. split; [lia | auto].
    - exists d1. auto. }
  unfold withRateLimit. rewrite Hcheck, Hhandler.
  destruct outcome as [[r | v] | e]; cbn [fst].
  - unfold refund. destruct (immutable (headers r)) eqn:Hm.
    + rewrite (add_headers_immutable info r Hm). cbn [fst].
      pose proof (one_flag type Hcat) as Hone.
      unfold recordSuccess, recordFailure. fold key.
      destruct (skipSuccessfulRequests (config_of type)),
        (skipFailedRequests (config_of type)); try discriminate Hone;
        first [exact (Hdec true) | exact (Hdec false)].
    + destruct (add_headers_mutable info r Hm) as (r' & -> & _).
      cbn [fst]. unfold recordSuccess. fold key. apply Hdec.
  - unfold recordSuccess. fold key. apply Hdec.
  - unfold recordFailure. fold key. apply Hdec.
Qed.

(** X15.  For a class of the catalog, or another name that is not inherited
    from [Object.prototype]: when the check passes and the handler returns
    a [Response] whose headers can be set, the wrapper returns that response
    with the same
    status and body and with the headers of the limiter set, under their
    lower-case names: the limit of the class, what remains of the window
    after this call, and the reset time; [Retry-After] is set exactly when
    this call took the last unit of the window and the window has not
    reached its reset time; every other header is as the handler left
    it. *)
Theorem response_headers (handler : Handler Args) (endpoint type : string)
    (args : Args) (env : Env) (s s1 s2 : gmap string RateLimitData)
    (info : RateLimitInfo) (r : Response) :
  let key := generateKey (getClientIdentifier (request args)) endpoint type in
  let cap := maxRequests (config_of type) in
  let before :=
    match current_window key env s with Some d => count d | None => 0 end in
  let R :=
    match current_window key env s with
    | Some d => resetTime d
    | None => now env + windowMs (config_of type)
    end in
  inherited type = false ->
  checkRateLimit (request args) endpoint type env s = (s1, Ok info) ->
  handler args s1 = (s2, Ok (IsResponse r)) ->
  immutable (headers r) = false ->
  exists r',
    snd (withRateLimit request handler endpoint type args env s)
    = Ok (IsResponse r') /\
    status r' = status r /\ body r' = body r /\
    entries (headers r') !! "x-ratelimit-limit" = Some (Z_toString cap) /\
    entries (headers r') !! "x-ratelimit-remaining"
    = Some (Z_toString (cap - (before + 1))) /\
    entries (headers r') !! "x-ratelimit-reset" = Some (Z_toString R) /\
    entries (headers r') !! "retry-after"
    = (if (before + 1 =? cap) && (now env <? R)
       then Some (Z_toString (ceil_div (R - now env) 1000))
       else entries (headers r) !! "retry-after") /\
    (forall name,
       ~ In name ["x-ratelimit-limit"; "x-ratelimit-remaining";
                  "x-ratelimit-reset"; "retry-after"] ->
       entries (headers r') !! name = entries (headers r) !! name).
Proof.
  intros key cap before R _ Hcheck Hhandler Hm.
  destruct (check_admitted endpoint type (request args) env s s1 info Hcheck)
    as (Hlt & Hlim & Hrem & Hreset & Hretry & _).
  fold key in Hlt, Hrem, Hreset, Hretry. fold cap in Hlt, Hlim, Hrem, Hretry.
  fold before in Hlt, Hrem, Hretry. fold R in Hreset, Hretry.
  assert (HR : now env <= R).
  { unfold R. destruct (current_window key env s) as [d|] eqn:E.
    - exact (proj2 (current_window_lookup _ _ _ _ E)).
    - destruct (config_positive type). lia. }
  destruct (add_headers_mutable info r Hm) as (r' & Hadd & Hst & Hbody & _ & Hent).
  exists r'. unfold withRateLimit. rewrite Hcheck, Hhandler, Hadd. cbn [snd].
  split; [reflexivity |]. split; [exact Hst |]. split; [exact Hbody |].
  rewrite Hent, Hlim, Hrem, Hreset, Hretry.
  replace (Z.max 0 (cap - (before + 1))) with (cap - (before + 1)) by lia.
  destruct (ceil_div_1000 type (R - now env)) as (_ & Hpos & Hzero).
  assert (Hcase :
    (if cap <=? before + 1 then Some (ceil_div (R - now env) 1000) else None)
    = (if (before + 1 =? cap) && (now env <? R)
       then Some (ceil_div (R - now env) 1000)
       else if before + 1 =? cap then Some 0 else None)).
  { destruct (Z.leb_spec cap (before + 1)), (Z.eqb_spec (before + 1) cap);
      try lia; cbn [andb]; [| reflexivity].
    destruct (Z.ltb_spec (now env) R); [reflexivity |].
    rewrite Hzero by lia. reflexivity. }
  rewrite Hcase.
  destruct ((before + 1 =? cap) && (now env <? R)) eqn:Elast.
  - apply andb_true_iff in Elast. destruct Elast as [_ Elast].
    apply Z.ltb_lt in Elast.
    replace (ceil_div (R - now env) 1000 =? 0) with false
      by (symmetry; apply Z.eqb_neq; specialize (Hpos ltac:(lia)); lia).
    repeat split;
      try (intros name Hname; cbn [In] in Hname);
      repeat (rewrite lookup_insert_ne by (try discriminate; intuition congruence));
      try apply lookup_insert_eq; reflexivity.
  - assert (Hsame :
      match (if before + 1 =? cap then Some 0 else None) with
      | Some n =>
          if n =? 0
          then <["x-ratelimit-reset" := Z_toString R]>
                 (<["x-ratelimit-remaining" := Z_toString (cap - (before + 1))]>
                    (<["x-ratelimit-limit" := Z_toString cap]>
                       (entries (headers r))))
          else <["retry-after" := Z_toString n]>
                 (<["x-ratelimit-reset" := Z_toString R]>
                    (<["x-ratelimit-remaining" := Z_toString (cap - (before + 1))]>
                       (<["x-ratelimit-limit" := Z_toString cap]>
                          (entries (headers r)))))
      | None =>
          <["x-ratelimit-reset" := Z_toString R]>
            (<["x-ratelimit-remaining" := Z_toString (cap - (before + 1))]>
               (<["x-ratelimit-limit" := Z_toString cap]>
                  (entries (headers r))))
      end
      = <["x-ratelimit-reset" := Z_toString R]>
          (<["x-ratelimit-remaining" := Z_toString (cap - (before + 1))]>
             (<["x-ratelimit-limit" := Z_toString cap]>
                (entries (headers r)))))
      by (destruct (before + 1 =? cap); reflexivity).
    cbv zeta. rewrite Hsame.
    repeat split;
      try (intros name Hname; cbn [In] in Hname);
      repeat (rewrite lookup_insert_ne by (try discriminate; intuition congruence));
      try apply lookup_insert_eq; reflexivity.
Qed.

End Wrapper.

(** *** The status query *)

(** X16.  For a class of the catalog, or another name that is not inherited
    from [Object.prototype]: right after a check that returns,
    [getRateLimitStatus] for the same request, endpoint and class reports
    what the check returned: the
    same limit, the same remaining count and the same reset time, together
    with the window length of the class and the count of the entry, which
    is the limit less what remains. *)
Theorem status_after_check (request : Request) (endpoint type : string)
    (env : Env) (s s1 : gmap string RateLimitData) (info : RateLimitInfo) :
  inherited type = false ->
  checkRateLimit request endpoint type env s = (s1, Ok info) ->
  let st := getRateLimitStatus request endpoint type s1 in
  status_limit st = limit info /\
  status_remaining st = remaining info /\
  status_reset st = Some (reset info) /\
  status_windowMs st = windowMs (config_of type) /\
  status_count st = Some (limit info - remaining info).
Proof.
  intros _ Hcheck st.
  destruct (check_admitted endpoint type request env s s1 info Hcheck)
    as (Hlt & Hlim & Hrem & Hreset & _ & d1 & Hd1 & Hcount & HR).
  unfold st, getRateLimitStatus. rewrite Hd1. cbn.
  rewrite Hlim, Hrem, Hreset, Hcount, HR.
  repeat split; f_equal; lia.
Qed.

(** Closed runs: one shop, identified by the [shop] parameter, and
    handlers that leave the store alone. *)

Lemma limit_reached_witness :
  snd (withRateLimit (fun request : Request => request)
         (fun _ s => (s, Ok (NotResponse VNull))) "orders" "token"
         {| shop := Some "a.myshopify.com"; x_forwarded_for := None;
            x_real_ip := None |}
         {| now := 2000; cleanup := None |}
         {[ "token:a.myshopify.com:orders" :=
              {| count := 5; resetTime := 300000; firstRequest := 0 |} ]})
  = Throw (App (createRateLimitError (Some 298))).
Proof.
  refine (proj1 (limit_reached (fun request : Request => request)
                   (fun _ s => (s, Ok (NotResponse VNull))) "orders" "token"
                   {| shop := Some "a.myshopify.com"; x_forwarded_for := None;
                      x_real_ip := None |}
                   {| now := 2000; cleanup := None |}
                   {[ "token:a.myshopify.com:orders" :=
                        {| count := 5; resetTime := 300000;
                           firstRequest := 0 |} ]}
                   {| count := 5; resetTime := 300000; firstRequest := 0 |}
                   _ _ _)).
  - reflexivity.
  - vm_compute. reflexivity.
  - cbn. lia.
Defined.

Lemma shopify_rejection_readmits_witness :
  exists info,
    snd (checkRateLimit
           {| shop := Some "a.myshopify.com"; x_forwarded_for := None;
              x_real_ip := None |} "orders" "shopify"
           {| now := 1500; cleanup := None |}
           (fst (withRateLimit (fun request : Request => request)
                   (fun _ s => (s, Ok (NotResponse VNull))) "orders" "shopify"
                   {| shop := Some "a.myshopify.com"; x_forwarded_for := None;
                      x_real_ip := None |}
                   {| now := 1000; cleanup := None |}
                   {[ "shopify:a.myshopify.com:orders" :=
                        {| count := 40; resetTime := 60000;
                           firstRequest := 0 |} ]})))
    = Ok info /\ remaining info = 0.
Proof.
  refine (proj2 (shopify_rejection_readmits (fun request : Request => request)
                   (fun _ s => (s, Ok (NotResponse VNull))) "orders"
                   {| shop := Some "a.myshopify.com"; x_forwarded_for := None;
                      x_real_ip := None |}
                   {| now := 1000; cleanup := None |}
                   {| now := 1500; cleanup := None |}
                   {[ "shopify:a.myshopify.com:orders" :=
                        {| count := 40; resetTime := 60000;
                           firstRequest := 0 |} ]}
                   {| count := 40; resetTime := 60000; firstRequest := 0 |}
                   _ _ _)).
  - vm_compute. reflexivity.
  - reflexivity.
  - split; cbn; [lia | exact I].
Defined.

(** A login that succeeds, class auth: the count is back at 0.  And a call
    of the class shopify whose handler returns a response with headers that
    cannot be set: the call ends with the TypeError of [set], and its unit
    is given back. *)
Lemma handler_accounting_witness :
  (exists d,
     fst (withRateLimit (fun request : Request => request)
            (fun _ s => (s, Ok (NotResponse VNull))) "login" "auth"
            {| shop := Some "a.myshopify.com"; x_forwarded_for := None;
               x_real_ip := None |}
            {| now := 1000; cleanup := None |} ∅)
     !! "auth:a.myshopify.com:login" = Some d /\
     count d = 0 /\ resetTime d = 901000) /\
  (exists d,
     fst (withRateLimit (fun request : Request => request)
            (fun _ s =>
               (s, Ok (IsResponse
                         {| status := 200;
                            headers := {| immutable := true; entries := ∅ |};
                            body := None |})))
            "orders" "shopify"
            {| shop := Some "a.myshopify.com"; x_forwarded_for := None;
               x_real_ip := None |}
            {| now := 1000; cleanup := None |} ∅)
     !! "shopify:a.myshopify.com:orders" = Some d /\
     count d = 0 /\ resetTime d = 61000).
Proof.
  split.
  - destruct (handler_accounting (fun request : Request => request)
                (fun _ s => (s, Ok (NotResponse VNull))) "login" "auth"
                {| shop := Some "a.myshopify.com"; x_forwarded_for := None;
                   x_real_ip := None |}
                {| now := 1000; cleanup := None |} ∅
                {[ "auth:a.myshopify.com:login" :=
                     {| count := 1; resetTime := 901000;
                        firstRequest := 1000 |} ]}
                {[ "auth:a.myshopify.com:login" :=
                     {| count := 1; resetTime := 901000;
                        firstRequest := 1000 |} ]}
                {| limit := 10; remaining := 9; reset := 901000;
                   retryAfter := None |}
                (Ok (NotResponse VNull)))
      as (d & Hd & Hcount & Hreset).
    + right. right. right. left. reflexivity.
    + intros key d Hd. rewrite lookup_empty in Hd. discriminate Hd.
    + vm_compute. reflexivity.
    + reflexivity.
    + reflexivity.
    + exists d. split; [exact Hd |]. split; [exact Hcount | exact Hreset].
  - destruct (handler_accounting (fun request : Request => request)
                (fun _ s =>
                   (s, Ok (IsResponse
                             {| status := 200;
                                headers := {| immutable := true;
                                              entries := ∅ |};
                                body := None |})))
                "orders" "shopify"
                {| shop := Some "a.myshopify.com"; x_forwarded_for := None;
                   x_real_ip := None |}
                {| now := 1000; cleanup := None |} ∅
                {[ "shopify:a.myshopify.com:orders" :=
                     {| count := 1; resetTime := 61000;
                        firstRequest := 1000 |} ]}
                {[ "shopify:a.myshopify.com:orders" :=
                     {| count := 1; resetTime := 61000;
                        firstRequest := 1000 |} ]}
                {| limit := 40; remaining := 39; reset := 61000;
                   retryAfter := None |}
                (Ok (IsResponse
                       {| status := 200;
                          headers := {| immutable := true; entries := ∅ |};
                          body := None |})))
      as (d & Hd & Hcount & Hreset).
    + right. left. reflexivity.
    + intros key d Hd. rewrite lookup_empty in Hd. discriminate Hd.
    + vm_compute. reflexivity.
    + reflexivity.
    + reflexivity.
    + exists d. split; [exact Hd |]. split; [exact Hcount | exact Hreset].
Defined.

(** The last call of a window of the class token, 2 s after its start. *)
Lemma response_headers_witness :
  exists r',
    snd (withRateLimit (fun request : Request => request)
           (fun _ s =>
              (s, Ok (IsResponse
                        {| status := 200;
                           headers := {| immutable := false;
                                         entries := {[ "content-type" :=
                                                         "application/json" ]} |};
                           body := Some "{}" |})))
           "save-token" "token"
           {| shop := Some "a.myshopify.com"; x_forwarded_for := None;
              x_real_ip := None |}
           {| now := 2000; cleanup := None |}
           {[ "token:a.myshopify.com:save-token" :=
                {| count := 4; resetTime := 300000; firstRequest := 0 |} ]})
    = Ok (IsResponse r') /\
    status r' = 200 /\
    entries (headers r') !! "x-ratelimit-remaining" = Some "0" /\
    entries (headers r') !! "retry-after" = Some "298" /\
    entries (headers r') !! "content-type" = Some "application/json".
Proof.
  destruct (response_headers (fun request : Request => request)
              (fun _ s =>
                 (s, Ok (IsResponse
                           {| status := 200;
                              headers := {| immutable := false;
                                            entries := {[ "content-type" :=
                                                            "application/json" ]} |};
                              body := Some "{}" |})))
              "save-token" "token"
              {| shop := Some "a.myshopify.com"; x_forwarded_for := None;
                 x_real_ip := None |}
              {| now := 2000; cleanup := None |}
              {[ "token:a.myshopify.com:save-token" :=
                   {| count := 4; resetTime := 300000; firstRequest := 0 |} ]}
              {[ "token:a.myshopify.com:save-token" :=
                   {| count := 5; resetTime := 300000; firstRequest := 0 |} ]}
              {[ "token:a.myshopify.com:save-token" :=
                   {| count := 5; resetTime := 300000; firstRequest := 0 |} ]}
              {| limit := 5; remaining := 0; reset := 300000;
                 retryAfter := Some 298 |}
              {| status := 200;
                 headers := {| immutable := false;
                               entries := {[ "content-type" :=
                                               "application/json" ]} |};
                 body := Some "{}" |})
    as (r' & Hres & Hstatus & _ & _ & Hrem & _ & Hretry & Hother).
  - reflexivity.
  - vm_compute. reflexivity.
  - reflexivity.
  - reflexivity.
  - exists r'. split; [exact Hres |]. split; [exact Hstatus |].
    split; [exact Hrem |]. split; [exact Hretry |].
    rewrite Hother; [reflexivity |].
    simpl. intuition discriminate.
Defined.

Lemma status_after_check_witness :
  status_remaining
    (getRateLimitStatus
       {| shop := Some "a.myshopify.com"; x_forwarded_for := None;
          x_real_ip := None |} "orders" "api"
       {[ "api:a.myshopify.com:orders" :=
            {| count := 1; resetTime := 61000; firstRequest := 1000 |} ]})
  = 59.
Proof.
  refine (proj1 (proj2 (status_after_check
                          {| shop := Some "a.myshopify.com";
                             x_forwarded_for := None; x_real_ip := None |}
                          "orders" "api" {| now := 1000; cleanup := None |} ∅
                          {[ "api:a.myshopify.com:orders" :=
                               {| count := 1; resetTime := 61000;
                                  firstRequest := 1000 |} ]}
                          {| limit := 60; remaining := 59; reset := 61000;
                             retryAfter := None |} _ _))).
  - reflexivity.
  - vm_compute. reflexivity.
Defined.

End MiddlewareExtras.

(** ** The API clients and the error response *)

Module ApiClientExtras.
Import ErrorHandler ErrorFactories ApiClient Vocabulary StringFacts.

(** *** The errors of the client *)

Lemma external_status (apiName : string) (status : Z) (msg : string)
    (responseData : value) :
  let e := createExternalApiError apiName status msg responseData in
  type e = EXTERNAL_API /\
  400 <= statusCode e <= 599 /\
  (400 <= status <= 599 -> statusCode e = status) /\
  (~ 400 <= status <= 599 -> statusCode e = 502).
Proof.
  cbn. destruct (Z.leb_spec 400 status), (Z.ltb_spec status 600); cbn;
    repeat split; intros; lia.
Qed.

Section Request.
Context `{Network}.
Variables (client : Client) (fetch : Z -> Fetched) (fullUrl : string).

(** The catch block throws an external API error with a status from 400 to
    599, or waits [retryDelay * attempt] and goes on, which it only does
    before the last attempt. *)
Lemma caught_cases (attempt : Z) (next : Thrown -> Run) (error : Caught) :
  match error with
  | CaughtApp e => type e = EXTERNAL_API /\ 400 <= statusCode e <= 599
  | CaughtNative _ => True
  end ->
  exists e,
    type e = EXTERNAL_API /\ 400 <= statusCode e <= 599 /\
    (caught client fullUrl attempt next error
     = {| fetches := 0; delays := []; outcome := Throw (ThrownError e) |} \/
     attempt < retries client /\
     caught client fullUrl attempt next error
     = after_delay (retryDelay client * attempt) (next (ThrownError e))).
Proof.
  intros Hgood. unfold caught.
  set (last := match error with CaughtNative _ => _ | CaughtApp _ => _ end).
  assert (Hlast : type last = EXTERNAL_API /\ 400 <= statusCode last <= 599).
  { unfold last. destruct error as [e | e].
    - destruct (String.eqb (name e) "AbortError"); split;
        first [reflexivity | cbn; lia].
    - destruct Hgood as [Ht Hs]. rewrite Ht. cbn. auto. }
  exists last. split; [exact (proj1 Hlast) |]. split; [exact (proj2 Hlast) |].
  destruct ((attempt <? retries client) && shouldRetry error) eqn:E.
  - right. apply andb_true_iff in E. destruct E as [E _].
    apply Z.ltb_lt in E. auto.
  - left. reflexivity.
Qed.

(** One iteration of the loop: it returns, it throws an external API error
    with a status from 400 to 599, or it waits [retryDelay * attempt] and
    goes on with the next attempt, which it only does before the last
    one. *)
Lemma attempts_step (left : nat) (attempt : Z) (lastError : Thrown) :
  let run := attempts client fetch fullUrl (S left) attempt lastError in
  (exists reply,
     run = {| fetches := 1; delays := []; outcome := Ok reply |}) \/
  (exists e,
     run = {| fetches := 1; delays := []; outcome := Throw (ThrownError e) |} /\
     type e = EXTERNAL_API /\ 400 <= statusCode e <= 599) \/
  (attempt < retries client /\
   exists e,
     type e = EXTERNAL_API /\ 400 <= statusCode e <= 599 /\
     run = after_fetch
             (after_delay (retryDelay client * attempt)
                (attempts client fetch fullUrl left (attempt + 1)
                   (ThrownError e)))).
Proof.
  cbn [attempts].
  set (next := attempts client fetch fullUrl left (attempt + 1)).
  assert (Hcaught : forall error,
            match error with
            | CaughtApp e => type e = EXTERNAL_API /\ 400 <= statusCode e <= 599
            | CaughtNative _ => True
            end ->
            let run := after_fetch (caught client fullUrl attempt next error) in
            (exists reply,
               run = {| fetches := 1; delays := []; outcome := Ok reply |}) \/
            (exists e,
               run = {| fetches := 1; delays := [];
                        outcome := Throw (ThrownError e) |} /\
               type e = EXTERNAL_API /\ 400 <= statusCode e <= 599) \/
            (attempt < retries client /\
             exists e,
               type e = EXTERNAL_API /\ 400 <= statusCode e <= 599 /\
               run = after_fetch
                       (after_delay (retryDelay client * attempt)
                          (next (ThrownError e))))).
  { intros error Hgood.
    destruct (caught_cases attempt next error Hgood)
      as (e & Ht & Hs & [-> | [Hlt ->]]).
    - right. left. exists e. auto.
    - right. right. split; [exact Hlt |]. exists e. auto. }
  assert (Hhttp : forall status statusText errorText,
            type (http_error fullUrl status statusText errorText) = EXTERNAL_API /\
            400 <= statusCode (http_error fullUrl status statusText errorText)
            <= 599).
  { intros. unfold http_error.
    split; [reflexivity | apply external_status]. }
  destruct (fetch attempt)
    as [e | status statusText headers [errorText | e] [data | e']].
  - apply Hcaught. exact I.
  - destruct (negb (ok status)).
    + destruct ((400 <=? status) && (status <? 500));
        [apply Hcaught, Hhttp |].
      destruct (attempt <? retries client) eqn:E; [| apply Hcaught, Hhttp].
      right. right. apply Z.ltb_lt in E. split; [exact E |].
      eexists. split; [| split; [| reflexivity]]; apply Hhttp.
    + left. eexists. reflexivity.
  - destruct (negb (ok status)).
    + destruct ((400 <=? status) && (status <? 500));
        [apply Hcaught, Hhttp |].
      destruct (attempt <? retries client) eqn:E; [| apply Hcaught, Hhttp].
      right. right. apply Z.ltb_lt in E. split; [exact E |].
      eexists. split; [| split; [| reflexivity]]; apply Hhttp.
    + apply Hcaught. exact I.
  - destruct (negb (ok status)); [apply Hcaught; exact I |].
    left. eexists. reflexivity.
  - destruct (negb (ok status)); apply Hcaught; exact I.
Qed.

(** The shape of a run of the loop that starts at [attempt] with as many
    iterations to go as the bound [retries] leaves. *)
Lemma attempts_shape (left : nat) :
  forall (attempt : Z) (lastError : Thrown),
    Z.of_nat (S left) = retries client - attempt + 1 ->
    let run := attempts client fetch fullUrl (S left) attempt lastError in
    exists n : nat,
      fetches run = S n /\ (n <= left)%nat /\
      delays run
      = List.map (fun i => retryDelay client * (attempt + Z.of_nat i)) (seq 0 n) /\
      match outcome run with
      | Ok _ => True
      | Throw t =>
          exists e, t = ThrownError e /\ type e = EXTERNAL_API /\
                    400 <= statusCode e <= 599
      end.
Proof.
  induction left as [|left IH]; intros attempt lastError Hinv run;
    [destruct (attempts_step 0 attempt lastError)
       as [(reply & Hrun) | [(e & Hrun & Ht & Hs) | (Hlt & e & Ht & Hs & Hrun)]]
    |destruct (attempts_step (S left) attempt lastError)
       as [(reply & Hrun) | [(e & Hrun & Ht & Hs) | (Hlt & e & Ht & Hs & Hrun)]]];
    fold run in Hrun;
    try (exists O; rewrite Hrun; cbn; repeat split; try lia; eauto; fail);
    try lia.
  specialize (IH (attempt + 1) (ThrownError e) ltac:(lia)).
  cbv zeta in IH. destruct IH as (n & Hf & Hn & Hd & Ho).
  exists (S n). rewrite Hrun. cbn [fetches delays outcome after_fetch after_delay].
  rewrite Hf, Hd. split; [reflexivity |]. split; [lia |].
  split; [| exact Ho].
  cbn [seq List.map]. rewrite Z.add_0_r. f_equal.
  rewrite <- seq_shift, List.map_map.
  apply List.map_ext. intros i. f_equal. lia.
Qed.

(** A passing failure before the last attempt: the loop waits and goes
    on. *)
Lemma transient_step (left : nat) (attempt : Z) (lastError : Thrown) :
  transient (fetch attempt) -> attempt < retries client ->
  exists e,
    attempts client fetch fullUrl (S left) attempt lastError
    = after_fetch
        (after_delay (retryDelay client * attempt)
           (attempts client fetch fullUrl left (attempt + 1) (ThrownError e))).
Proof.
  intros Ht Hlt. cbn [attempts]. apply Z.ltb_lt in Hlt.
  destruct (fetch attempt)
    as [e | status statusText headers [errorText | e] parsed]; cbn in Ht;
    [| | destruct Ht].
  - unfold caught. rewrite Hlt. cbn [shouldRetry]. rewrite Ht. cbn.
    eexists. reflexivity.
  - replace (negb (ok status)) with true
      by (unfold ok; symmetry; apply negb_true_iff, andb_false_iff; right;
          apply Z.leb_gt; lia).
    replace ((400 <=? status) && (status <? 500)) with false
      by (symmetry; apply andb_false_iff; right; apply Z.ltb_ge; lia).
    rewrite Hlt. eexists. reflexivity.
Qed.

(** A passing failure at the last attempt: its error is thrown. *)
Lemma transient_last (left : nat) (attempt : Z) (lastError : Thrown) :
  transient (fetch attempt) -> retries client <= attempt ->
  exists e,
    attempts client fetch fullUrl (S left) attempt lastError
    = {| fetches := 1; delays := []; outcome := Throw (ThrownError e) |} /\
    type e = EXTERNAL_API /\
    statusCode e = transient_status (fetch attempt).
Proof.
  intros Ht Hge. cbn [attempts]. apply Z.ltb_ge in Hge.
  destruct (fetch attempt)
    as [e | status statusText headers [errorText | e] parsed]; cbn in Ht;
    [| | destruct Ht].
  - unfold caught. rewrite Hge, Ht. cbn. eexists. repeat split.
  - replace (negb (ok status)) with true
      by (unfold ok; symmetry; apply negb_true_iff, andb_false_iff; right;
          apply Z.leb_gt; lia).
    replace ((400 <=? status) && (status <? 500)) with false
      by (symmetry; apply andb_false_iff; right; apply Z.ltb_ge; lia).
    rewrite Hge. unfold caught. rewrite Hge. cbn.
    eexists. split; [reflexivity |]. split; [reflexivity |].
    cbn [transient_status]. unfold http_error. cbn.
    replace ((400 <=? status) && (status <? 600)) with true; [reflexivity |].
    symmetry. apply andb_true_iff. split; [apply Z.leb_le | apply Z.ltb_lt]; lia.
Qed.

Lemma success_step (left : nat) (attempt : Z) (lastError : Thrown)
    (reply : Reply) :
  succeeded (fetch attempt) = Some reply ->
  attempts client fetch fullUrl (S left) attempt lastError
  = {| fetches := 1; delays := []; outcome := Ok reply |}.
Proof.
  intros Hs. cbn [attempts].
  destruct (fetch attempt) as [e | status statusText headers text [data | e]];
    cbn in Hs; try discriminate.
  destruct (ok status); [| discriminate]. injection Hs as <-. reflexivity.
Qed.

Lemma transient_then_success (k : nat) (reply : Reply) :
  forall (left : nat) (attempt : Z) (lastError : Thrown),
    (forall i, attempt <= i < attempt + Z.of_nat k -> transient (fetch i)) ->
    attempt + Z.of_nat k <= retries client ->
    succeeded (fetch (attempt + Z.of_nat k)) = Some reply ->
    attempts client fetch fullUrl (S (k + left)) attempt lastError
    = {| fetches := S k;
         delays := List.map (fun i => retryDelay client * (attempt + Z.of_nat i))
                     (seq 0 k);
         outcome := Ok reply |}.
Proof.
  induction k as [|k IH]; intros left attempt lastError Hall Hle Hs.
  - rewrite Z.add_0_r in Hs. apply success_step. exact Hs.
  - cbn [Nat.add].
    destruct (transient_step (S (k + left)) attempt lastError) as (e & ->);
      [apply Hall; lia | lia |].
    rewrite (IH left (attempt + 1) (ThrownError e)).
    + unfold after_fetch, after_delay. cbn [fetches delays outcome seq List.map].
      rewrite Z.add_0_r, <- seq_shift, List.map_map.
      rewrite (List.map_ext
                 (fun i => retryDelay client * (attempt + 1 + Z.of_nat i))
                 (fun x => retryDelay client * (attempt + Z.of_nat (S x))));
        [reflexivity |].
      intros i. f_equal. lia.
    + intros i Hi. apply Hall. lia.
    + lia.
    + replace (attempt + 1 + Z.of_nat k) with (attempt + Z.of_nat (S k))
        by lia.
      exact Hs.
Qed.

Lemma transient_throughout (left : nat) :
  forall (attempt : Z) (lastError : Thrown),
    Z.of_nat (S left) = retries client - attempt + 1 ->
    (forall i, attempt <= i <= retries client -> transient (fetch i)) ->
    exists e,
      fetches (attempts client fetch fullUrl (S left) attempt lastError) = S left /\
      outcome (attempts client fetch fullUrl (S left) attempt lastError)
      = Throw (ThrownError e) /\
      type e = EXTERNAL_API /\
      statusCode e = transient_status (fetch (retries client)).
Proof.
  induction left as [|left IH]; intros attempt lastError Hinv Hall.
  - destruct (transient_last 0 attempt lastError) as (e & -> & Ht & Hs);
      [apply Hall; lia | lia |].
    exists e. replace (retries client) with attempt by lia. auto.
  - destruct (transient_step (S left) attempt lastError) as (e & ->);
      [apply Hall; lia | lia |].
    destruct (IH (attempt + 1) (ThrownError e)) as (e' & Hf & Ho & Ht & Hs);
      [lia | intros i Hi; apply Hall; lia |].
    exists e'. cbn [after_fetch after_delay fetches outcome].
    rewrite Hf. auto.
Qed.

End Request.

(** X17.  Whatever the server and the network do, [request] calls [fetch]
    at most [retries] times, and between two calls it waits: [retryDelay]
    after the first call, twice that after the second, and so on, so that
    the waits of a run with n calls are [retryDelay * 1, ...,
    retryDelay * (n - 1)].  With [retries] below 1 it makes no call and
    throws undefined. *)
Theorem request_backoff `{Network} (client : Client) (fetch : Z -> Fetched)
    (url : string) :
  let run := request client fetch url in
  (fetches run <= Z.to_nat (retries client))%nat /\
  delays run
  = List.map (fun i => retryDelay client * Z.of_nat i) (seq 1 (fetches run - 1)) /\
  (retries client <= 0 ->
   run = {| fetches := 0; delays := []; outcome := Throw ThrownUndefined |}).
Proof.
  intros run. unfold run, request.
  set (fullUrl := if String.eqb (baseURL client) "" then url else _).
  destruct (Z.to_nat (retries client)) as [|left] eqn:E.
  - cbn. repeat split. lia.
  - destruct (attempts_shape client fetch fullUrl left 1 ThrownUndefined)
      as (n & Hf & Hn & Hd & _); [lia |].
    rewrite Hf, Hd. split; [lia |]. split; [| lia].
    cbn [Nat.sub]. rewrite Nat.sub_0_r, <- seq_shift, List.map_map.
    apply List.map_ext. intros i. f_equal. lia.
Qed.

(** X18.  With [retries] at least 1, [request] makes at least one call and
    either returns, or throws an [AppError] of type EXTERNAL_API whose
    status code lies between 400 and 599: never undefined, and never the
    error of the platform itself. *)
Theorem request_errors `{Network} (client : Client) (fetch : Z -> Fetched)
    (url : string) :
  0 < retries client ->
  let run := request client fetch url in
  (1 <= fetches run)%nat /\
  match outcome run with
  | Ok _ => True
  | Throw t =>
      exists e, t = ThrownError e /\ type e = EXTERNAL_API /\
                400 <= statusCode e <= 599
  end.
Proof.
  intros Hpos run. unfold run, request.
  set (fullUrl := if String.eqb (baseURL client) "" then url else _).
  destruct (Z.to_nat (retries client)) as [|left] eqn:E; [lia |].
  destruct (attempts_shape client fetch fullUrl left 1 ThrownUndefined)
    as (n & Hf & Hn & Hd & Ho); [lia |].
  rewrite Hf. split; [lia | exact Ho].
Qed.

(** X19.  Failures that pass are retried until an attempt succeeds: when
    the first [k - 1] calls of [fetch] are aborted by the timeout or
    answered with a status from 500 to 599, and the k-th call, with [k] no
    more than [retries], is answered with a status from 200 to 299 and a
    body that parses, [request] returns the data, status and headers of
    that answer after exactly [k] calls and the waits
    [retryDelay * 1, ..., retryDelay * (k - 1)]. *)
Theorem retried_until_success `{Network} (client : Client)
    (fetch : Z -> Fetched) (url : string) (k : nat) (reply : Reply) :
  (1 <= k)%nat -> Z.of_nat k <= retries client ->
  (forall i, 1 <= i < Z.of_nat k -> transient (fetch i)) ->
  succeeded (fetch (Z.of_nat k)) = Some reply ->
  request client fetch url
  = {| fetches := k; delays := backoff (retryDelay client) k;
       outcome := Ok reply |}.
Proof.
  intros Hk Hle Hall Hs. unfold request.
  set (fullUrl := if String.eqb (baseURL client) "" then url else _).
  replace (Z.to_nat (retries client))
    with (S ((k - 1) + (Z.to_nat (retries client) - k)))%nat by lia.
  rewrite (transient_then_success client fetch fullUrl (k - 1) reply).
  - unfold backoff. replace (S (k - 1)) with k by lia. f_equal.
    rewrite <- seq_shift, List.map_map.
    apply List.map_ext. intros i. f_equal. lia.
  - intros i Hi. apply Hall. lia.
  - lia.
  - replace (1 + Z.of_nat (k - 1)) with (Z.of_nat k) by lia. exact Hs.
Qed.

(** X20.  When every call of [fetch] is aborted by the timeout or answered
    with a status from 500 to 599, [request] gives up after exactly
    [retries] calls, having waited [retryDelay * (1 + ... + (retries - 1))]
    in all, and throws the error of the last attempt: status 408 for a
    timeout, and the status of the answer otherwise. *)
Theorem retries_exhausted `{Network} (client : Client) (fetch : Z -> Fetched)
    (url : string) :
  0 < retries client ->
  (forall i, 1 <= i <= retries client -> transient (fetch i)) ->
  let run := request client fetch url in
  exists e,
    fetches run = Z.to_nat (retries client) /\
    delays run = backoff (retryDelay client) (Z.to_nat (retries client)) /\
    outcome run = Throw (ThrownError e) /\
    type e = EXTERNAL_API /\
    statusCode e = transient_status (fetch (retries client)).
Proof.
  intros Hpos Hall run. unfold run, request.
  set (fullUrl := if String.eqb (baseURL client) "" then url else _).
  destruct (Z.to_nat (retries client)) as [|left] eqn:E; [lia |].
  destruct (transient_throughout client fetch fullUrl left 1 ThrownUndefined)
    as (e & Hf & Ho & Ht & Hs); [lia | exact Hall |].
  destruct (attempts_shape client fetch fullUrl left 1 ThrownUndefined)
    as (n & Hn & _ & Hd & _); [lia |].
  exists e. rewrite Hd, Hf. rewrite Hf in Hn. injection Hn as <-.
  repeat split; try assumption.
  unfold backoff. cbn [Nat.sub]. rewrite Nat.sub_0_r.
  rewrite <- seq_shift, List.map_map.
  apply List.map_ext. intros i. f_equal. lia.
Qed.

(** X21.  A client error is thrown at once, unless its message says
    otherwise.  When the first answer has a status from 400 to 499 and a
    body that can be read, [request] throws the error for that answer, with
    that status, after one call and no wait, provided that the message of
    the error, which holds the host name and the status text, includes
    neither "network" nor "timeout"; when it includes one of them and
    [retries] is more than 1, the call is made again after [retryDelay]. *)
Theorem client_error_not_retried `{Network} (client : Client)
    (fetch : Z -> Fetched) (url : string) (status : Z)
    (statusText errorText : string) (headers : list (string * string))
    (parsed : result NativeError value) :
  let fullUrl :=
    if String.eqb (baseURL client) "" then url else baseURL client ++ url in
  let e := http_error fullUrl status statusText errorText in
  let run := request client fetch url in
  0 < retries client ->
  fetch 1 = Responded status statusText headers (Ok errorText) parsed ->
  400 <= status <= 499 ->
  statusCode e = status /\
  (includes "network" (message e) || includes "timeout" (message e) = false ->
   run = {| fetches := 1; delays := []; outcome := Throw (ThrownError e) |}) /\
  (includes "network" (message e) || includes "timeout" (message e) = true ->
   1 < retries client ->
   (2 <= fetches run)%nat /\
   exists rest, delays run = retryDelay client * 1 :: rest).
Proof.
  intros fullUrl e run Hpos Hfetch Hstatus.
  assert (Hcode : statusCode e = status).
  { unfold e, http_error. cbn.
    replace ((400 <=? status) && (status <? 600)) with true; [reflexivity |].
    symmetry. apply andb_true_iff. split; [apply Z.leb_le | apply Z.ltb_lt]; lia. }
  split; [exact Hcode |].
  assert (Hrun : forall left,
            attempts client fetch fullUrl (S left) 1 ThrownUndefined
            = after_fetch
                (caught client fullUrl 1
                   (attempts client fetch fullUrl left (1 + 1)) (CaughtApp e))).
  { intros left. cbn [attempts]. rewrite Hfetch.
    replace (negb (ok status)) with true
      by (unfold ok; symmetry; apply negb_true_iff, andb_false_iff; right;
          apply Z.leb_gt; lia).
    replace ((400 <=? status) && (status <? 500)) with true; [reflexivity |].
    symmetry. apply andb_true_iff. split; [apply Z.leb_le | apply Z.ltb_lt]; lia. }
  assert (Hretry : shouldRetry (CaughtApp e)
                   = includes "network" (message e)
                     || includes "timeout" (message e)).
  { cbn [shouldRetry]. rewrite Hcode.
    replace ((500 <=? status) && (status <? 600)) with false;
      [reflexivity |].
    symmetry. apply andb_false_iff. left. apply Z.leb_gt. lia. }
  unfold run, request. fold fullUrl.
  destruct (Z.to_nat (retries client)) as [|left] eqn:E; [lia |].
  rewrite Hrun. unfold caught. rewrite Hretry.
  change (String.eqb (ErrorTypes (type e)) "EXTERNAL_API_ERROR") with true.
  cbv iota. split.
  - intros ->. rewrite andb_false_r. reflexivity.
  - intros -> Hmore.
    replace (1 <? retries client) with true by (symmetry; apply Z.ltb_lt; lia).
    cbn [andb after_fetch after_delay fetches delays outcome].
    destruct left as [|left]; [lia |].
    destruct (attempts_shape client fetch fullUrl left (1 + 1) (ThrownError e))
      as (n & Hf & _); [lia |].
    rewrite Hf. split; [lia |]. eexists. reflexivity.
Qed.

(** X22.  A failure of the platform is retried only when it is an abort or
    names itself a network or timeout failure in lower case.  When the
    first attempt ends with an error of the platform, thrown by [fetch] or
    by the reader of the body, for which [shouldRetry] is false (its name
    is not AbortError and its message includes neither "network" nor
    "timeout"), [request] throws at once, after one call and no wait, the
    external API error of status 500 whose message is
    "Network error: " followed by the message of the failure. *)
Theorem platform_error_not_retried `{Network} (client : Client)
    (fetch : Z -> Fetched) (url : string) (err : NativeError) :
  let fullUrl :=
    if String.eqb (baseURL client) "" then url else baseURL client ++ url in
  0 < retries client ->
  platform_error (fetch 1) = Some err ->
  shouldRetry (CaughtNative err) = false ->
  request client fetch url
  = {| fetches := 1; delays := [];
       outcome :=
         Throw (ThrownError
                  (createExternalApiError (getApiName fullUrl) 500
                     ("Network error: " ++ native_message err) VNull)) |}.
Proof.
  intros fullUrl Hpos Hplat Hretry.
  unfold request. fold fullUrl.
  destruct (Z.to_nat (retries client)) as [|left] eqn:E; [lia |].
  assert (Hname : String.eqb (name err) "AbortError" = false).
  { cbn [shouldRetry] in Hretry.
    apply orb_false_iff in Hretry. destruct Hretry as [Hretry _].
    apply orb_false_iff in Hretry. exact (proj1 Hretry). }
  assert (Hcaught : forall next,
            after_fetch (caught client fullUrl 1 next (CaughtNative err))
            = {| fetches := 1; delays := [];
                 outcome :=
                   Throw (ThrownError
                            (createExternalApiError (getApiName fullUrl) 500
                               ("Network error: " ++ native_message err)
                               VNull)) |}).
  { intros next. unfold caught. rewrite Hretry, andb_false_r, Hname.
    reflexivity. }
  cbn [attempts].
  destruct (fetch 1) as [e | status statusText headers text parsed];
    cbn [platform_error] in Hplat.
  - injection Hplat as ->. apply Hcaught.
  - destruct (ok status); cbn [negb].
    + destruct parsed as [data | e]; [discriminate |].
      injection Hplat as ->. apply Hcaught.
    + destruct text as [errorText | e]; [discriminate |].
      injection Hplat as ->. apply Hcaught.
Qed.

(** *** Headers *)

(** X23.  [sanitizeHeaders] leaves every header alone except the two
    named Authorization and X-Shopify-Access-Token, in exactly this
    spelling; under these two names the result never shows a value other
    than "[REDACTED]" or the empty string; it adds and removes no header,
    and applied again it changes nothing. *)
Theorem sanitizeHeaders_redacts (headers : gmap string string) :
  let out := sanitizeHeaders headers in
  (forall name,
     name <> "Authorization" -> name <> "X-Shopify-Access-Token" ->
     out !! name = headers !! name) /\
  (forall name v,
     name = "Authorization" \/ name = "X-Shopify-Access-Token" ->
     out !! name = Some v -> v = "[REDACTED]" \/ v = "") /\
  (forall name, out !! name = None <-> headers !! name = None) /\
  sanitizeHeaders out = out.
Proof.
  intros out.
  assert (Hredact : forall (key : string) (m : gmap string string),
            let m' := match m !! key with
                      | Some v => if truthy v then <[key := "[REDACTED]"]> m else m
                      | None => m
                      end in
            (forall name, name <> key -> m' !! name = m !! name) /\
            (forall v, m' !! key = Some v -> v = "[REDACTED]" \/ v = "") /\
            (m' !! key = None <-> m !! key = None)).
  { intros key m. cbv zeta. destruct (m !! key) as [v|] eqn:E.
    - unfold truthy. destruct (String.eqb_spec v "") as [-> | Hv]; cbn [negb].
      + rewrite E. split; [reflexivity |]. split; [| reflexivity].
        intros v [= <-]. auto.
      + split; [intros name Hn; apply lookup_insert_ne; congruence |].
        rewrite lookup_insert_eq. split; [intros v' [= <-]; auto |].
        split; discriminate.
    - rewrite E. split; [reflexivity |]. split; [discriminate | reflexivity]. }
  unfold out, sanitizeHeaders.
  set (m1 := match headers !! "Authorization" with Some _ => _ | None => _ end).
  destruct (Hredact "Authorization" headers) as (Ho1 & Hv1 & Hn1).
  fold m1 in Ho1, Hv1, Hn1.
  set (m2 := match m1 !! "X-Shopify-Access-Token" with Some _ => _ | None => _ end).
  destruct (Hredact "X-Shopify-Access-Token" m1) as (Ho2 & Hv2 & Hn2).
  fold m2 in Ho2, Hv2, Hn2.
  assert (Hauth : m2 !! "Authorization" = m1 !! "Authorization")
    by (apply Ho2; discriminate).
  split; [| split; [| split]].
  - intros name Ha Ht. rewrite Ho2 by exact Ht. apply Ho1. exact Ha.
  - intros name v [-> | ->] Hv.
    + rewrite Hauth in Hv. exact (Hv1 v Hv).
    + exact (Hv2 v Hv).
  - intros name.
    destruct (String.eqb_spec name "X-Shopify-Access-Token") as [-> | Ht].
    + rewrite Hn2. rewrite Ho1 by discriminate. reflexivity.
    + rewrite Ho2 by exact Ht.
      destruct (String.eqb_spec name "Authorization") as [-> | Ha];
        [exact Hn1 | now rewrite Ho1].
  - assert (Hfix : forall (key : string) (m : gmap string string),
              (forall v, m !! key = Some v -> v = "[REDACTED]" \/ v = "") ->
              match m !! key with
              | Some v => if truthy v then <[key := "[REDACTED]"]> m else m
              | None => m
              end = m).
    { intros key m Hm. destruct (m !! key) as [v|] eqn:E; [| reflexivity].
      destruct (Hm v eq_refl) as [-> | ->]; [| reflexivity].
      cbn. apply insert_id. exact E. }
    rewrite (Hfix "Authorization" m2)
      by (intros v Hv; rewrite Hauth in Hv; exact (Hv1 v Hv)).
    apply Hfix. exact Hv2.
Qed.

(** X24.  The headers that [request] passes to [fetch].  When the options
    of the call have no [headers] property, these are the default headers
    of the client over Content-Type application/json and User-Agent
    Shopify-App/1.0, and for a Shopify client made without a [headers]
    option they hold the access token.  When the options of the call have a
    [headers] property, the later spread of the options puts it in the
    place of the merged headers: [fetch] gets that property as it is, and
    so none of the defaults and not the access token, unless the caller
    has put them there. *)
Theorem request_headers (client : Client) (options : gmap string Setting) :
  (options !! "headers" = None ->
   requestOptions client options !! "headers"
   = Some (SHeaders (defaultHeaders client ∪
                     {[ "Content-Type" := "application/json";
                        "User-Agent" := "Shopify-App/1.0" ]})) /\
   forall shop accessToken clientOptions,
     client = new_ShopifyApiClient shop accessToken clientOptions ->
     opt_headers clientOptions = None ->
     (defaultHeaders client ∪
      ({[ "Content-Type" := "application/json";
          "User-Agent" := "Shopify-App/1.0" ]} : gmap string string))
     !! "X-Shopify-Access-Token" = Some accessToken) /\
  (forall v, options !! "headers" = Some v ->
     requestOptions client options !! "headers" = Some v).
Proof.
  unfold requestOptions. split.
  - intros Hnone. split.
    + rewrite lookup_union_r by exact Hnone.
      rewrite lookup_insert_ne by discriminate. rewrite lookup_singleton_eq.
      rewrite Hnone. cbn [spread_headers]. now rewrite (left_id ∅ _).
    + intros shop accessToken clientOptions -> Hopt.
      unfold new_ShopifyApiClient, new_ApiClient. cbn [defaultHeaders opt_headers].
      rewrite Hopt. apply lookup_union_Some_l. apply lookup_singleton_eq.
  - intros v Hv. apply lookup_union_Some_l. exact Hv.
Qed.

(** *** The Shopify client *)

(** X25.  With [retries] at least 1, the request of the Shopify client
    makes the calls and the waits of the underlying request and either
    returns its reply or throws an [AppError] of type SHOPIFY_API that
    carries the status code of the external API error, between 400 and 599,
    with severity high exactly from 500 on, and that names the method (GET
    when none is given) and the URL as its operation.  With [retries] below
    1 it throws a TypeError, for it reads the type of an error that is
    undefined. *)
Theorem shopify_errors `{Network} (shop : string) (client : Client)
    (fetch : Z -> Fetched) (url : string) (method : option string)
    (created now : Z) (buckets : gmap string RateLimiter.Bucket) :
  let run :=
    snd (ShopifyApiClient_request shop client fetch url method created now
           buckets) in
  shopify_fetches run = fetches (request client fetch url) /\
  shopify_delays run = delays (request client fetch url) /\
  (0 < retries client ->
   match shopify_outcome run with
   | Ok reply => outcome (request client fetch url) = Ok reply
   | Throw t =>
       exists external e,
         outcome (request client fetch url) = Throw (ThrownError external) /\
         t = inr e /\ type e = SHOPIFY_API /\
         statusCode e = statusCode external /\
         400 <= statusCode e <= 599 /\
         (severity e = HIGH <-> 500 <= statusCode e) /\
         context e
         = ShopifyApiContext (Validation.str_or method "GET" ++ " " ++ url)
             (Some (message external))
   end) /\
  (retries client <= 0 ->
   exists msg, shopify_outcome run = Throw (inl (TypeError msg))).
Proof.
  intros run. unfold run, ShopifyApiClient_request.
  cbn [snd shopify_fetches shopify_delays shopify_outcome].
  split; [reflexivity |]. split; [reflexivity |]. split.
  - intros Hpos. unfold request.
    set (fullUrl := if String.eqb (baseURL client) "" then url else _).
    destruct (Z.to_nat (retries client)) as [|left] eqn:E; [lia |].
    destruct (attempts_shape client fetch fullUrl left 1 ThrownUndefined)
      as (n & _ & _ & _ & Ho); [lia |].
    destruct (outcome (attempts client fetch fullUrl (S left) 1 ThrownUndefined))
      as [reply | t]; [reflexivity |].
    destruct Ho as (external & -> & Ht & Hs).
    exists external. eexists. split; [reflexivity |].
    unfold convert. rewrite Ht. cbn [ErrorTypes].
    change (String.eqb "EXTERNAL_API_ERROR" "EXTERNAL_API_ERROR") with true.
    cbv iota. split; [reflexivity |]. cbn.
    repeat split; try lia.
    + destruct (Z.leb_spec 500 (statusCode external)); [lia | discriminate].
    + intros Hhigh.
      replace (500 <=? statusCode external) with true
        by (symmetry; apply Z.leb_le; lia).
      reflexivity.
  - intros Hneg. unfold request.
    replace (Z.to_nat (retries client)) with O by lia.
    cbn. eexists. reflexivity.
Qed.

(** *** The error response *)

Lemma built_status (error : Raised) :
  built_by_factory error ->
  forall c, carried_status error = Some c -> 400 <= c <= 599.
Proof.
  intros Hb.
  induction Hb as [field msg v | r | api st msg data | op orig | op ext Hext IH
                  | op orig | nm msg | v];
    cbn; intros c [= <-]; try lia.
  - destruct ((400 <=? st) && (st <? 600)) eqn:E; [| lia].
    apply andb_true_iff in E. destruct E as [E1 E2].
    apply Z.leb_le in E1. apply Z.ltb_lt in E2. lia.
  - apply IH. reflexivity.
Qed.

(** X26.  For every error that the factories of errorHandler.js build as
    the application uses them, and for every other error or thrown value,
    [createErrorResponse] returns a response and does not throw; the
    status of the response is between 400 and 599, and it is the status
    code of the error when the error is an [AppError]; the payload has
    [success] false and the type that the X-Error-Type header shows, and
    outside development it has no details.  [asyncErrorHandler] turns
    such an error, thrown by its handler, into this response, unless what
    was thrown is null or undefined.  For an [AppError] whose status code
    is not between 200 and 599 the response cannot be built, and the call
    throws. *)
Theorem error_response (isDevelopment : bool) (error : Raised) :
  (built_by_factory error ->
   exists response,
     createErrorResponse isDevelopment error = Ok response /\
     400 <= status response <= 599 /\
     (forall c, carried_status error = Some c -> status response = c) /\
     success (payload response) = false /\
     error_type (payload response) = x_error_type response /\
     (isDevelopment = false -> details (payload response) = None) /\
     ((forall v, error = RaisedValue v -> is_nullish v = false) ->
      asyncErrorHandler (R := unit) isDevelopment (Throw error)
      = Ok (inr response))) /\
  (forall c, carried_status error = Some c -> ~ 200 <= c <= 599 ->
   exists e, createErrorResponse isDevelopment error = Throw e).
Proof.
  split.
  - intros Hbuilt. pose proof (built_status error Hbuilt) as Hrange.
    assert (Hjson : forall p c t,
              400 <= c <= 599 ->
              json p c t
              = Ok {| status := c; content_type := "application/json";
                      x_error_type := t; payload := p |}).
    { intros p c t Hc. unfold json, null_body_status.
      replace ((200 <=? c) && (c <=? 599)) with true
        by (symmetry; apply andb_true_iff; split; apply Z.leb_le; lia).
      replace (c =? 204) with false by (symmetry; apply Z.eqb_neq; lia).
      replace (c =? 205) with false by (symmetry; apply Z.eqb_neq; lia).
      replace (c =? 304) with false by (symmetry; apply Z.eqb_neq; lia).
      reflexivity. }
    assert (Hresp : exists response,
              createErrorResponse isDevelopment error = Ok response /\
              400 <= status response <= 599 /\
              (forall c, carried_status error = Some c -> status response = c) /\
              success (payload response) = false /\
              error_type (payload response) = x_error_type response /\
              (isDevelopment = false -> details (payload response) = None)).
    { destruct error as [e | e | name msg | v]; unfold createErrorResponse.
      - rewrite Hjson by (apply Hrange; reflexivity).
        eexists. split; [reflexivity |]. cbn.
        split; [apply Hrange; reflexivity |].
        split; [intros c [= <-]; reflexivity |]. repeat split.
        intros ->. reflexivity.
      - rewrite Hjson by (apply Hrange; reflexivity).
        eexists. split; [reflexivity |]. cbn.
        split; [apply Hrange; reflexivity |].
        split; [intros c [= <-]; reflexivity |]. repeat split.
        intros ->. reflexivity.
      - repeat match goal with
               | |- context [if ?b then _ else _] =>
                   lazymatch b with
                   | isDevelopment => fail
                   | _ => destruct b
                   end
               end;
          rewrite Hjson by lia;
          (eexists; split; [reflexivity |]; cbn;
           split; [lia |]; split; [discriminate |]; repeat split;
           intros ->; reflexivity).
      - rewrite Hjson by lia.
        eexists. split; [reflexivity |]. cbn.
        split; [lia |]. split; [discriminate |]. repeat split.
        intros ->. reflexivity. }
    destruct Hresp as (response & Hcreate & Hrest).
    exists response. split; [exact Hcreate |].
    repeat (split; [apply Hrest |]).
    intros Hvalue. unfold asyncErrorHandler.
    destruct error as [e | e | name msg | v]; rewrite ?Hcreate; try reflexivity.
    rewrite (Hvalue v eq_refl). reflexivity.
  - intros c Hc Hout.
    assert (Hjson : forall p t, exists e, json p c t = Throw e).
    { intros p t. unfold json.
      replace ((200 <=? c) && (c <=? 599)) with false; [eexists; reflexivity |].
      symmetry. apply andb_false_iff.
      destruct (Z.leb_spec 200 c); [right; apply Z.leb_gt; lia | auto]. }
    destruct error as [e | e | name msg | v]; cbn in Hc; try discriminate;
      injection Hc as <-; unfold createErrorResponse; apply Hjson.
Qed.

(** Closed runs of a client with the default three attempts and the
    default delay of one second. *)

Lemma request_errors_witness :
  (1 <= fetches
          (request (H := unparsed) (new_ApiClient
              {| opt_baseURL := Some "https://backend.rushr-admin.com/api";
                 opt_timeout := None; opt_retries := None;
                 opt_retryDelay := None; opt_headers := None |})
             (fun _ => Responded 404 "Not Found" [] (Ok "") (Ok VNull))
             "/orders"))%nat /\
  match outcome
          (request (H := unparsed) (new_ApiClient
              {| opt_baseURL := Some "https://backend.rushr-admin.com/api";
                 opt_timeout := None; opt_retries := None;
                 opt_retryDelay := None; opt_headers := None |})
             (fun _ => Responded 404 "Not Found" [] (Ok "") (Ok VNull))
             "/orders") with
  | Ok _ => True
  | Throw t =>
      exists e, t = ThrownError e /\ type e = EXTERNAL_API /\
                400 <= statusCode e <= 599
  end.
Proof.
  apply (request_errors (H := unparsed) (new_ApiClient
              {| opt_baseURL := Some "https://backend.rushr-admin.com/api";
                 opt_timeout := None; opt_retries := None;
                 opt_retryDelay := None; opt_headers := None |})
           (fun _ => Responded 404 "Not Found" [] (Ok "") (Ok VNull))
           "/orders").
  reflexivity.
Defined.

(** A 503, then a 200. *)
Lemma retried_until_success_witness :
  request (H := unparsed) (new_ApiClient
              {| opt_baseURL := Some "https://backend.rushr-admin.com/api";
                 opt_timeout := None; opt_retries := None;
                 opt_retryDelay := None; opt_headers := None |})
    (fun i =>
       if i =? 1 then Responded 503 "Service Unavailable" [] (Ok "") (Ok VNull)
       else Responded 200 "OK" [] (Ok "") (Ok (VObj [])))
    "/orders"
  = {| fetches := 2; delays := [1000];
       outcome := Ok {| data := VObj []; reply_status := 200;
                        reply_headers := [] |} |}.
Proof.
  apply (retried_until_success (H := unparsed) (new_ApiClient
              {| opt_baseURL := Some "https://backend.rushr-admin.com/api";
                 opt_timeout := None; opt_retries := None;
                 opt_retryDelay := None; opt_headers := None |})
           (fun i =>
              if i =? 1
              then Responded 503 "Service Unavailable" [] (Ok "") (Ok VNull)
              else Responded 200 "OK" [] (Ok "") (Ok (VObj [])))
           "/orders" 2).
  - lia.
  - cbn. lia.
  - intros i Hi. replace i with 1 by lia. cbn. lia.
  - reflexivity.
Defined.

(** Three timeouts. *)
Lemma retries_exhausted_witness :
  exists e,
    fetches
      (request (H := unparsed) (new_ApiClient
              {| opt_baseURL := Some "https://backend.rushr-admin.com/api";
                 opt_timeout := None; opt_retries := None;
                 opt_retryDelay := None; opt_headers := None |})
         (fun _ => Rejected {| name := "AbortError";
                               native_message := "This operation was aborted" |})
         "/orders") = 3%nat /\
    delays
      (request (H := unparsed) (new_ApiClient
              {| opt_baseURL := Some "https://backend.rushr-admin.com/api";
                 opt_timeout := None; opt_retries := None;
                 opt_retryDelay := None; opt_headers := None |})
         (fun _ => Rejected {| name := "AbortError";
                               native_message := "This operation was aborted" |})
         "/orders") = [1000; 2000] /\
    outcome
      (request (H := unparsed) (new_ApiClient
              {| opt_baseURL := Some "https://backend.rushr-admin.com/api";
                 opt_timeout := None; opt_retries := None;
                 opt_retryDelay := None; opt_headers := None |})
         (fun _ => Rejected {| name := "AbortError";
                               native_message := "This operation was aborted" |})
         "/orders") = Throw (ThrownError e) /\
    type e = EXTERNAL_API /\ statusCode e = 408.
Proof.
  apply (retries_exhausted (H := unparsed) (new_ApiClient
              {| opt_baseURL := Some "https://backend.rushr-admin.com/api";
                 opt_timeout := None; opt_retries := None;
                 opt_retryDelay := None; opt_headers := None |})
           (fun _ => Rejected {| name := "AbortError";
                                 native_message := "This operation was aborted" |})
           "/orders").
  - reflexivity.
  - intros i _. reflexivity.
Defined.

Lemma client_error_not_retried_witness :
  request (H := unparsed) (new_ApiClient
              {| opt_baseURL := Some "https://backend.rushr-admin.com/api";
                 opt_timeout := None; opt_retries := None;
                 opt_retryDelay := None; opt_headers := None |})
    (fun _ => Responded 404 "Not Found" [] (Ok "no such order") (Ok VNull))
    "/orders/7"
  = {| fetches := 1; delays := [];
       outcome :=
         Throw (ThrownError
                  (createExternalApiError "Unknown API" 404
                     "HTTP 404: Not Found" (VStr "no such order"))) |}.
Proof.
  refine (proj1 (proj2
            (client_error_not_retried (H := unparsed) (new_ApiClient
              {| opt_baseURL := Some "https://backend.rushr-admin.com/api";
                 opt_timeout := None; opt_retries := None;
                 opt_retryDelay := None; opt_headers := None |})
               (fun _ => Responded 404 "Not Found" [] (Ok "no such order")
                           (Ok VNull))
               "/orders/7" 404 "Not Found" "no such order" [] (Ok VNull)
               _ _ _)) _).
  - reflexivity.
  - reflexivity.
  - lia.
  - vm_compute. reflexivity.
Defined.

(** The message of a failed [fetch] on Node: no retry. *)
Lemma platform_error_not_retried_witness :
  request (H := unparsed) (new_ApiClient
              {| opt_baseURL := Some "https://backend.rushr-admin.com/api";
                 opt_timeout := None; opt_retries := None;
                 opt_retryDelay := None; opt_headers := None |})
    (fun _ => Rejected {| name := "TypeError"; native_message := "fetch failed" |})
    "/orders"
  = {| fetches := 1; delays := [];
       outcome :=
         Throw (ThrownError
                  (createExternalApiError "Unknown API" 500
                     "Network error: fetch failed" VNull)) |}.
Proof.
  apply (platform_error_not_retried (H := unparsed) (new_ApiClient
              {| opt_baseURL := Some "https://backend.rushr-admin.com/api";
                 opt_timeout := None; opt_retries := None;
                 opt_retryDelay := None; opt_headers := None |})
           (fun _ => Rejected {| name := "TypeError";
                                 native_message := "fetch failed" |})
           "/orders" {| name := "TypeError"; native_message := "fetch failed" |}).
  - reflexivity.
  - reflexivity.
  - vm_compute. reflexivity.
Defined.

End ApiClientExtras.

(** ** The token bucket *)

Module BucketExtras.
Import RateLimiter RateLimiterFacts.

Lemma refill_grows (now : Z) (b : Bucket) :
  (tokens b <= maxTokens b)%Q -> (tokens b <= tokens (refill now b))%Q.
Proof.
  intros Hmax. rewrite tokens_refill. cbn [tokens].
  set (add := Qfloor _). destruct (0 <? add) eqn:E; [| lra].
  apply Z.ltb_lt in E.
  assert (Hadd : (inject_Z 0 < inject_Z add)%Q) by (rewrite <- Zlt_Qlt; exact E).
  change (inject_Z 0) with 0%Q in Hadd.
  destruct (Q.min_spec (maxTokens b) (tokens b + inject_Z add))
    as [[Hcmp Hmin] | [Hcmp Hmin]]; rewrite Hmin; lra.
Qed.

Lemma refill_maxTokens (now : Z) (b : Bucket) :
  maxTokens (refill now b) = maxTokens b.
Proof. rewrite tokens_refill. reflexivity. Qed.

(** X27.  A call that has had to wait leaves the bucket with at least its
    own cost in tokens, for it adds the cost where a call that does not
    wait takes it off.  So the next call of the same cost for the same
    shop, whenever it comes, does not wait: of two calls in a row at most
    one is held back.  This holds for every map of buckets within their
    capacity and every cost that is not above the capacity of the
    bucket. *)
Theorem wait_grants_next (shop : string) (requestCost : Q)
    (created now created' now' : Z) (buckets after : gmap string Bucket)
    (waitTime : Z) (info : Availability) :
  within_capacity buckets ->
  waitForAvailability shop requestCost created now buckets
  = (after, Some (Some waitTime, info)) ->
  (requestCost <= availableMax info)%Q ->
  (requestCost <= remainingTokens info)%Q /\
  exists info',
    snd (waitForAvailability shop requestCost created' now' after)
    = Some (None, info').
Proof.
  intros Hcap Hcall Hfits.
  unfold waitForAvailability, acquire_start in Hcall.
  set (key := "shopify:" ++ shop) in *.
  set (bucket := match buckets !! key with
                 | Some b => b
                 | None => newBucket created
                 end) in *.
  assert (Hb : (0 <= tokens bucket /\ tokens bucket <= maxTokens bucket)%Q).
  { unfold bucket. destruct (buckets !! key) as [b|] eqn:E; [eauto |].
    simpl. split; lra. }
  apply (within_refill now) in Hb. destruct Hb as [H0 Hmax].
  set (rb := refill now bucket) in *.
  destruct (Qlt_le_dec (tokens rb) requestCost) as [Hlt | Hge];
    [| discriminate Hcall].
  unfold acquire_resume in Hcall. fold key in Hcall.
  rewrite lookup_insert_eq in Hcall.
  injection Hcall as <- _ <-. cbn [availableMax remainingTokens tokens set_tokens] in *.
  set (granted := Qmin (maxTokens rb) (tokens rb + requestCost)) in *.
  assert (Hgranted : (requestCost <= granted /\ granted <= maxTokens rb)%Q).
  { unfold granted.
    destruct (Q.min_spec (maxTokens rb) (tokens rb + requestCost))
      as [[Hcmp Hmin] | [Hcmp Hmin]]; rewrite Hmin; split; lra. }
  split; [exact (proj1 Hgranted) |].
  unfold waitForAvailability, acquire_start. fold key.
  rewrite lookup_insert_eq.
  set (nb := set_tokens rb granted).
  pose proof (refill_grows now' nb (proj2 Hgranted)) as Hgrow.
  cbn [tokens nb set_tokens] in Hgrow.
  destruct (Qlt_le_dec (tokens (refill now' nb)) requestCost) as [Hlt' | Hge'].
  - exfalso. lra.
  - eexists. reflexivity.
Qed.

(** An empty bucket and a call for 40 tokens: the call waits 20 s, and a
    second call of the same cost goes through at once. *)
Lemma wait_grants_next_witness :
  exists info',
    snd (waitForAvailability "a.myshopify.com" 40 1000 1000
           (fst (waitForAvailability "a.myshopify.com" 40 0 0
                   {[ "shopify:a.myshopify.com" :=
                        {| tokens := 0; lastRefill := 0; maxTokens := 40;
                           refillRate := 2 |} ]})))
    = Some (None, info').
Proof.
  refine (proj2 (wait_grants_next "a.myshopify.com" 40 0 0 1000 1000
                   {[ "shopify:a.myshopify.com" :=
                        {| tokens := 0; lastRefill := 0; maxTokens := 40;
                           refillRate := 2 |} ]}
                   _ 20000
                   {| remainingTokens := Qmin 40 (0 + 40); availableMax := 40 |}
                   _ _ _)).
  - intros key b Hb.
    destruct (decide (key = "shopify:a.myshopify.com")) as [-> | Hne].
    + rewrite lookup_singleton_eq in Hb. injection Hb as <-. cbn. split; lra.
    + rewrite lookup_singleton_ne in Hb by congruence. discriminate Hb.
  - vm_compute. reflexivity.
  - cbn. lra.
Defined.

End BucketExtras.

(** ** The headers for embedding *)

Module EmbeddingExtras.
Import Validation Middleware Embedding Vocabulary.

Lemma setup_entries (headers : Headers) :
  immutable headers = false ->
  exists out,
    setupShopifyHeaders headers = Ok out /\ immutable out = false /\
    forall name,
      entries out !! name
      = match table_get name shopify_headers with
        | Some v => Some v
        | None => entries headers !! name
        end.
Proof.
  intros Hm.
  unfold setupShopifyHeaders, addCorsHeaders, addEmbeddingHeaders,
    addSecurityHeaders, headers_set.
  repeat match goal with
         | |- context [toLowerCase ?lit] =>
             let v := eval vm_compute in (toLowerCase lit) in
             change (toLowerCase lit) with v
         end.
  rewrite Hm. cbn [bind immutable entries].
  eexists. split; [reflexivity |]. split; [reflexivity |].
  intros name. cbn [entries table_get shopify_headers].
  repeat match goal with
         | |- context [String.eqb name ?lit] =>
             destruct (String.eqb_spec name lit) as [-> | ?]
         end;
    repeat first [ rewrite lookup_insert_eq
                 | rewrite lookup_insert_ne by congruence ];
    reflexivity.
Qed.

(** X28.  On headers that can be set, [setupShopifyHeaders] returns the
    headers with the four CORS headers, the two embedding headers and the
    three security headers at their fixed values, whatever these nine held
    before, and with every other header as it was; applied to its own
    result it changes nothing.  On immutable headers it throws.
    [handlePreflight] answers the method OPTIONS, in capitals, with status
    200, no body and exactly these nine headers, and every other method
    with null. *)
Theorem shopify_headers_set (headers : Headers) :
  (immutable headers = false ->
   exists out,
     setupShopifyHeaders headers = Ok out /\
     (forall name v, In (name, v) shopify_headers ->
        entries out !! name = Some v) /\
     (forall name, ~ In name (List.map fst shopify_headers) ->
        entries out !! name = entries headers !! name) /\
     setupShopifyHeaders out = Ok out) /\
  (immutable headers = true ->
   exists e, setupShopifyHeaders headers = Throw e) /\
  (exists response,
     handlePreflight "OPTIONS" = Ok (Some response) /\
     status response = 200 /\ body response = None /\
     entries (Middleware.headers response) = list_to_map shopify_headers) /\
  (forall method, method <> "OPTIONS" -> handlePreflight method = Ok None).
Proof.
  split; [| split; [| split]].
  - intros Hm. destruct (setup_entries headers Hm) as (out & Hout & Hmut & Hlook).
    exists out. split; [exact Hout |]. split; [| split].
    + intros name v Hin. rewrite Hlook.
      cbn in Hin.
      repeat (destruct Hin as [[= <- <-] | Hin]; [reflexivity |]).
      destruct Hin.
    + intros name Hnot. rewrite Hlook. cbn in Hnot.
      cbn [table_get shopify_headers].
      repeat match goal with
             | |- context [String.eqb name ?lit] =>
                 destruct (String.eqb_spec name lit) as [-> | ?];
                   [exfalso; apply Hnot; tauto |]
             end.
      reflexivity.
    + destruct (setup_entries out Hmut) as (out' & Hout' & Hmut' & Hlook').
      rewrite Hout'. f_equal.
      destruct out as [i m], out' as [i' m'].
      cbn [immutable entries] in Hmut, Hmut', Hlook, Hlook'. subst i i'.
      f_equal. apply map_eq. intros name. rewrite Hlook', Hlook.
      destruct (table_get name shopify_headers); reflexivity.
  - intros Hm. unfold setupShopifyHeaders, addCorsHeaders, headers_set.
    rewrite Hm. cbn. eexists. reflexivity.
  - eexists. split; [reflexivity |]. split; [reflexivity |].
    split; [reflexivity |]. vm_compute. reflexivity.
  - intros method Hne. unfold handlePreflight.
    destruct (String.eqb_spec method "OPTIONS"); [contradiction | reflexivity].
Qed.

End EmbeddingExtras.

(** ** The patterns of the validator *)

Module RegexFacts.
Import Vocabulary StringFacts.

Lemma app_nil_inv (a b : string) : a ++ b = "" -> a = "" /\ b = "".
Proof. destruct a; simpl; [auto | discriminate]. Qed.

Lemma last_or_None (p : option ascii) (s : string) :
  last_or p s = None -> s = "" /\ p = None.
Proof.
  revert p. induction s as [|c s IH]; intros p Hl; simpl in Hl; [auto |].
  destruct (IH _ Hl) as [_ Hc]. discriminate Hc.
Qed.

Lemma head_or_None (s : string) : head_or s None = None -> s = "".
Proof. destruct s; simpl; [auto | discriminate]. Qed.

Lemma all_chars_app (f : ascii -> bool) (a b : string) :
  all_chars f (a ++ b) = all_chars f a && all_chars f b.
Proof.
  induction a as [|c a IH]; simpl; [reflexivity |].
  rewrite IH. apply andb_assoc.
Qed.

Lemma length_app (a b : string) :
  String.length (a ++ b) = (String.length a + String.length b)%nat.
Proof. induction a as [|c a IH]; simpl; [reflexivity | now rewrite IH]. Qed.

Lemma split_at (n : nat) (s : string) :
  (n <= String.length s)%nat ->
  exists a b, s = a ++ b /\ String.length a = n.
Proof.
  revert s. induction n as [|n IH]; intros s Hn.
  - exists "", s. auto.
  - destruct s as [|c s]; simpl in Hn; [lia |].
    destruct (IH s ltac:(lia)) as (a & b & -> & Ha).
    exists (String c a), b. simpl. auto.
Qed.

(** *** The matcher is sound and complete for what a pattern denotes *)

Lemma nullable_denotes (r : regex) :
  simple r = true ->
  forall p n, nullable p n r = true <-> denotes r p "" n.
Proof.
  induction r as [| |f|a IHa b IHb|a IHa b IHb|a IHa|a IHa lo hi| | |];
    intros Hs p n; simpl in *.
  - split; [discriminate | tauto].
  - tauto.
  - split; [discriminate | intros (c & E & _); discriminate E].
  - apply andb_true_iff in Hs. destruct Hs as [Ha Hb].
    rewrite andb_true_iff, (IHa Ha), (IHb Hb). split.
    + intros [H1 H2]. exists "", "". auto.
    + intros (s1 & s2 & E & H1 & H2). symmetry in E.
      apply app_nil_inv in E. destruct E as [-> ->]. auto.
  - apply andb_true_iff in Hs. destruct Hs as [Ha Hb].
    rewrite orb_true_iff, (IHa Ha), (IHb Hb). tauto.
  - destruct a; try discriminate Hs. simpl. tauto.
  - destruct a; try discriminate Hs. simpl. rewrite orb_false_r.
    rewrite Nat.eqb_eq. split; [intros ->; split; [reflexivity | lia] | lia].
  - destruct p; split; try tauto; try discriminate; intros [_ E]; discriminate E.
  - destruct n; split; try tauto; try discriminate; intros [_ E]; discriminate E.
  - tauto.
Qed.

Lemma seq_denotes (a b : regex) (p : option ascii) (s : string)
    (n : option ascii) :
  denotes (seq_ a b) p s n <-> denotes (Seq a b) p s n.
Proof.
  destruct a; try reflexivity. simpl. split; [tauto |].
  intros (s1 & s2 & _ & [] & _).
Qed.

Lemma alt_denotes (a b : regex) (p : option ascii) (s : string)
    (n : option ascii) :
  denotes (alt_ a b) p s n <-> denotes (Alt a b) p s n.
Proof.
  destruct a; destruct b; try reflexivity; simpl; tauto.
Qed.

Lemma seq_simple (a b : regex) :
  simple a = true -> simple b = true -> simple (seq_ a b) = true.
Proof. intros Ha Hb. destruct a; simpl in *; rewrite ?Ha, ?Hb; auto. Qed.

Lemma alt_simple (a b : regex) :
  simple a = true -> simple b = true -> simple (alt_ a b) = true.
Proof.
  intros Ha Hb. destruct a; destruct b; simpl in *; rewrite ?Ha, ?Hb; auto.
Qed.

Lemma deriv_simple (r : regex) (p : option ascii) (c : ascii) :
  simple r = true -> simple (deriv p c r) = true.
Proof.
  induction r as [| |f|a IHa b IHb|a IHa b IHb|a IHa|a IHa lo hi| | |];
    intros Hs; simpl in *; try reflexivity.
  - destruct (f c); reflexivity.
  - apply andb_true_iff in Hs. destruct Hs as [Ha Hb].
    apply alt_simple; [apply seq_simple; auto |].
    destruct (nullable p (Some c) a); auto.
  - apply andb_true_iff in Hs. destruct Hs as [Ha Hb]. apply alt_simple; auto.
  - destruct a; try discriminate Hs. simpl.
    destruct (p0 c); reflexivity.
  - destruct a; try discriminate Hs. destruct hi; [reflexivity |]. simpl.
    destruct (p0 c); reflexivity.
Qed.

Lemma deriv_denotes (r : regex) :
  simple r = true ->
  forall p c s n,
    denotes (deriv p c r) (Some c) s n <-> denotes r p (String c s) n.
Proof.
  induction r as [| |f|a IHa b IHb|a IHa b IHb|a IHa|a IHa lo hi| | |];
    intros Hs p c s n; simpl in Hs; cbn [deriv].
  - simpl. tauto.
  - simpl. split; [tauto | discriminate].
  - destruct (f c) eqn:E; simpl.
    + split.
      * intros ->. exists c. auto.
      * intros (c' & [= <- <-] & _). reflexivity.
    + split; [tauto |]. intros (c' & [= <- _] & Hf). congruence.
  - apply andb_true_iff in Hs. destruct Hs as [Ha Hb].
    rewrite alt_denotes. cbn [denotes]. rewrite seq_denotes. cbn [denotes].
    split.
    + intros [(s1 & s2 & -> & H1 & H2) | H2].
      * exists (String c s1), s2. split; [reflexivity |].
        split; [apply (IHa Ha); exact H1 | exact H2].
      * destruct (nullable p (Some c) a) eqn:En; [| destruct H2].
        exists "", (String c s). split; [reflexivity |].
        split; [apply (nullable_denotes a Ha); exact En |].
        apply (IHb Hb). exact H2.
    + intros (s1 & s2 & E & H1 & H2). destruct s1 as [|c' s1].
      * simpl in E. subst s2. right.
        simpl in H1, H2. apply (nullable_denotes a Ha) in H1. rewrite H1.
        apply (IHb Hb). exact H2.
      * simpl in E. injection E as <- ->. left.
        exists s1, s2. split; [reflexivity |].
        split; [apply (IHa Ha); exact H1 | exact H2].
  - apply andb_true_iff in Hs. destruct Hs as [Ha Hb].
    rewrite alt_denotes. cbn [denotes]. rewrite (IHa Ha), (IHb Hb). tauto.
  - destruct a; try discriminate Hs. cbn [deriv denotes all_chars].
    destruct (p0 c) eqn:E; simpl.
    + split.
      * intros (s1 & s2 & -> & -> & H2). exact H2.
      * intros H2. exists "", s. auto.
    + split; [tauto | discriminate].
  - destruct a; try discriminate Hs. cbn [denotes all_chars String.length].
    destruct hi as [|hi]; [simpl; split; [tauto | lia] |].
    cbn [deriv]. destruct (p0 c) eqn:E; simpl.
    + split.
      * intros (s1 & s2 & -> & -> & H2 & Hl). simpl. split; [exact H2 | lia].
      * intros [H2 Hl]. exists "", s. simpl. repeat split; auto; lia.
    + split; [tauto | intros [Hf _]; discriminate Hf].
  - simpl. split; [tauto | intros [E _]; discriminate E].
  - simpl. split; [tauto | intros [E _]; discriminate E].
  - simpl. split; [tauto | intros [E _]; discriminate E].
Qed.

Lemma match_from_denotes (s : string) :
  forall (r : regex) (p : option ascii),
    simple r = true ->
    (match_from p r s = true <-> denotes r p s None).
Proof.
  induction s as [|c s IH]; intros r p Hs; simpl.
  - apply nullable_denotes. exact Hs.
  - rewrite (IH _ _ (deriv_simple r p c Hs)). apply deriv_denotes. exact Hs.
Qed.

(** A pattern between [^] and [$] is tested against the whole string. *)
Lemma anchored_test (body : regex) (s : string) :
  simple body = true ->
  (regex_test (Seq Bol (Seq body Eol)) s = true <-> denotes body None s None).
Proof.
  intros Hs. unfold regex_test. rewrite match_from_denotes
    by (simpl; rewrite Hs; reflexivity).
  cbn [denotes any_char]. split.
  - intros (s1 & s2 & -> & _ & s3 & s4 & -> & Hmid & _).
    destruct Hmid as (s5 & s6 & -> & [-> Hbol] & s7 & s8 & -> & Hbody & -> & Heol).
    apply last_or_None in Hbol. destruct Hbol as [-> _].
    apply head_or_None in Heol. subst s4.
    simpl in *. rewrite !append_nil_r. exact Hbody.
  - intros Hbody. exists "", s. split; [reflexivity |]. split; [reflexivity |].
    exists s, "". split; [now rewrite append_nil_r |]. split; [| reflexivity].
    exists "", s. split; [reflexivity |]. split; [auto |].
    exists s, "". split; [now rewrite append_nil_r |]. simpl. auto.
Qed.

Lemma lit_denotes (l s : string) (p n : option ascii) :
  denotes (Lit l) p s n <-> s = l.
Proof.
  revert s p. induction l as [|c l IH]; intros s p; simpl; [tauto |].
  split.
  - intros (s1 & s2 & -> & (c' & -> & Hc) & H2). apply IH in H2. subst s2.
    unfold is_char in Hc. apply Ascii.eqb_eq in Hc. subst c'. reflexivity.
  - intros ->. exists (String c ""), l. split; [reflexivity |]. split.
    + exists c. split; [reflexivity |]. apply Ascii.eqb_refl.
    + apply IH. reflexivity.
Qed.

Lemma lit_simple (l : string) : simple (Lit l) = true.
Proof. induction l as [|c l IH]; simpl; [reflexivity | exact IH]. Qed.

End RegexFacts.

(** ** What the validator accepts *)

Module PatternExtras.
Import ErrorHandler Validation Vocabulary StringFacts ValidationFacts
  SanitizerExtras RegexFacts.

Lemma num_lt_of_Z (a b : Z) : num_lt (of_Z a) (of_Z b) = (a <? b).
Proof.
  unfold of_Z, mk_dec.
  destruct (strip_zeros _ a 0) as [m1 e1] eqn:E1.
  destruct (strip_zeros _ b 0) as [m2 e2] eqn:E2.
  apply strip_zeros_value in E1; [| lia]. destruct E1 as [He1 Hv1].
  apply strip_zeros_value in E2; [| lia]. destruct E2 as [He2 Hv2].
  rewrite Z.pow_0_r, Z.mul_1_r in Hv1, Hv2. cbn [num_lt].
  set (e := Z.min e1 e2).
  assert (Hpos : 0 < 10 ^ e) by (apply Z.pow_pos_nonneg; lia).
  assert (Ha : a = m1 * 10 ^ (e1 - e) * 10 ^ e).
  { rewrite <- Z.mul_assoc, <- Z.pow_add_r by lia.
    replace (e1 - e + e) with e1 by lia. auto. }
  assert (Hb : b = m2 * 10 ^ (e2 - e) * 10 ^ e).
  { rewrite <- Z.mul_assoc, <- Z.pow_add_r by lia.
    replace (e2 - e + e) with e2 by lia. auto. }
  set (x := m1 * 10 ^ (e1 - e)) in *. set (y := m2 * 10 ^ (e2 - e)) in *.
  destruct (Z.ltb_spec x y), (Z.ltb_spec a b); try reflexivity; nia.
Qed.

Lemma validate_token_eq (s : string) (options : Options) :
  s <> "" ->
  validateInput (VStr s) "token" options
  = Ok ((if regex_test PATTERNS_token s then [] else ["Invalid token format"])
        ++ (if Z.of_nat (String.length s) <? 10
            then ["Token must be at least 10 characters long"] else []))%list.
Proof.
  intros Hs. unfold validateInput.
  replace (is_nullish (VStr s) || is_empty_string (VStr s)) with false
    by (destruct s; [contradiction | reflexivity]).
  rewrite !andb_false_r. simpl String.eqb. cbv iota.
  unfold test, ToString_or_throw, ToNumber_or_throw.
  cbn [convertible ToString get_length bind ToNumber]. rewrite num_lt_of_Z.
  unfold push_if, push.
  destruct (regex_test PATTERNS_token s);
    destruct (Z.of_nat (String.length s) <? 10); reflexivity.
Qed.

Lemma all_chars_ext (f g : ascii -> bool) (s : string) :
  (forall c, f c = g c) -> all_chars f s = all_chars g s.
Proof.
  intros Hfg. induction s as [|c s IH]; simpl; [reflexivity |].
  now rewrite Hfg, IH.
Qed.

Lemma token_pattern (s : string) :
  regex_test PATTERNS_token s = true <->
  all_chars token_char s = true /\ (10 <= String.length s)%nat.
Proof.
  unfold PATTERNS_token. rewrite anchored_test by reflexivity.
  unfold AtLeast. cbn [denotes].
  assert (Hclass : forall t,
            all_chars (fun c => is_alnum c || one_of "_-." c) t
            = all_chars token_char t).
  { intros t. apply all_chars_ext. intros c.
    unfold token_char, is_word, is_char. simpl.
    destruct (is_alnum c), (Ascii.eqb c "_"), (Ascii.eqb c "-"),
      (Ascii.eqb c "."); reflexivity. }
  setoid_rewrite Hclass. split.
  - intros (s1 & s2 & -> & [H1 Hl] & H2).
    rewrite all_chars_app, length_app.
    split; [apply andb_true_iff; split; assumption | lia].
  - intros [Hall Hlen].
    destruct (split_at 10 s Hlen) as (a & b & -> & Ha).
    rewrite all_chars_app in Hall. apply andb_true_iff in Hall.
    exists a, b. split; [reflexivity |]. split; [split; [tauto | lia] | tauto].
Qed.

(** X29.  What the validator accepts as a token, and what it does with a
    sanitized one.  A string that is not empty passes the validation of
    type token with no error exactly when it has at least 10 characters,
    all of them letters, digits, underscores, hyphens or dots.  So the
    token that [sanitizeInput] returns for an input that is neither null
    nor undefined, and that converts to a primitive, fails the validation
    only for its length: it passes exactly when it has at least 10
    characters, or is empty and not required. *)
Theorem token_accepted `{Host} (options validation : Options) :
  (forall s, s <> "" ->
     validateInput (VStr s) "token" validation = Ok [] <->
     all_chars token_char s = true /\ (10 <= String.length s)%nat) /\
  (forall input, is_nullish input = false -> convertible input = true ->
     exists out,
       sanitizeInput input "token" options = Ok (VStr out) /\
       (validateInput (VStr out) "token" validation = Ok [] <->
        (10 <= String.length out)%nat \/
        out = "" /\ required validation = false)).
Proof.
  assert (Hstr : forall s, s <> "" ->
            validateInput (VStr s) "token" validation = Ok [] <->
            all_chars token_char s = true /\ (10 <= String.length s)%nat).
  { intros s Hs. rewrite validate_token_eq by exact Hs.
    rewrite <- token_pattern. split.
    - intros E. destruct (regex_test PATTERNS_token s); [reflexivity |].
      destruct (Z.of_nat (String.length s) <? 10); discriminate E.
    - intros E. rewrite E. apply token_pattern in E. destruct E as [_ Hl].
      replace (Z.of_nat (String.length s) <? 10) with false; [reflexivity |].
      symmetry. apply Z.ltb_ge. lia. }
  split; [exact Hstr |].
  intros input Hn Hc. rewrite token_branch_eq by assumption.
  eexists. split; [reflexivity |].
  set (out := str_slice0 _ _).
  assert (Hall : all_chars token_char out = true).
  { unfold out, str_slice0. apply all_chars_take, all_chars_filter. }
  destruct (String.eqb_spec out "") as [E | E].
  - rewrite E, validate_required_empty by reflexivity. simpl.
    destruct (required validation); split;
      try discriminate; try tauto; try lia; intros; auto;
      intuition (try discriminate; try lia).
  - rewrite (Hstr out E). split; [tauto |]. intros [Hl | [Ho _]]; tauto.
Qed.

Lemma domain_pattern (s : string) :
  regex_test PATTERNS_shopifyDomain s = true <->
  exists c1 mid c2,
    s = String c1 (mid ++ String c2 ".myshopify.com") /\
    is_alnum c1 = true /\ all_chars label_char mid = true /\
    is_alnum c2 = true.
Proof.
  unfold PATTERNS_shopifyDomain, regex_test.
  pose proof (lit_simple ".myshopify.com") as Hlit.
  pose proof (lit_denotes ".myshopify.com") as Hden.
  remember (Lit ".myshopify.com") as L eqn:EL. clear EL.
  rewrite match_from_denotes by (simpl; rewrite Hlit; reflexivity).
  cbn [denotes any_char]. split.
  - intros (s1 & s2 & -> & _ & s3 & s4 & -> & Hmid & _).
    destruct Hmid as (s5 & s6 & -> & [-> Hbol] & Hrest).
    apply last_or_None in Hbol. destruct Hbol as [-> _].
    destruct Hrest as (a1 & b1 & -> & (c1 & -> & Hc1) & Hrest).
    destruct Hrest as (a2 & b2 & -> & Hmid & Hrest).
    destruct Hrest as (a3 & b3 & -> & (c2 & -> & Hc2) & Hrest).
    destruct Hrest as (a4 & b4 & -> & Hl & -> & Heol).
    apply Hden in Hl. subst a4.
    apply head_or_None in Heol. subst s4.
    exists c1, a2, c2. simpl. rewrite !append_nil_r. auto.
  - intros (c1 & mid & c2 & -> & Hc1 & Hmid & Hc2).
    exists "", (String c1 (mid ++ String c2 ".myshopify.com")).
    split; [reflexivity |]. split; [reflexivity |].
    exists (String c1 (mid ++ String c2 ".myshopify.com")), "".
    split; [now rewrite append_nil_r |]. split; [| reflexivity].
    exists "", (String c1 (mid ++ String c2 ".myshopify.com")).
    split; [reflexivity |]. split; [auto |].
    exists (String c1 ""), (mid ++ String c2 ".myshopify.com").
    split; [reflexivity |]. split; [eauto |].
    exists mid, (String c2 ".myshopify.com").
    split; [reflexivity |]. split; [exact Hmid |].
    exists (String c2 ""), ".myshopify.com".
    split; [reflexivity |]. split; [eauto |].
    exists ".myshopify.com", "".
    split; [reflexivity |]. split; [apply Hden; reflexivity | auto].
Qed.

(** X30.  What the validator accepts as a Shopify domain: a string that is
    not empty passes the validation of type shopifyDomain with no error
    exactly when it is a letter or digit, then any run of letters, digits
    and hyphens, then a letter or digit, then ".myshopify.com"; otherwise
    the one error is "Invalid Shopify domain format".  So the part before
    the suffix has at least two characters, and neither starts nor ends
    with a hyphen. *)
Theorem shopify_domain_accepted (s : string) (options : Options) :
  s <> "" ->
  (validateInput (VStr s) "shopifyDomain" options = Ok [] <->
   exists c1 mid c2,
     s = String c1 (mid ++ String c2 ".myshopify.com") /\
     is_alnum c1 = true /\ all_chars label_char mid = true /\
     is_alnum c2 = true) /\
  (validateInput (VStr s) "shopifyDomain" options = Ok [] \/
   validateInput (VStr s) "shopifyDomain" options
   = Ok ["Invalid Shopify domain format"]).
Proof.
  intros Hs.
  assert (Heq : validateInput (VStr s) "shopifyDomain" options
                = Ok (if regex_test PATTERNS_shopifyDomain s then []
                      else ["Invalid Shopify domain format"])).
  { unfold validateInput.
    replace (is_nullish (VStr s) || is_empty_string (VStr s)) with false
      by (destruct s; [contradiction | reflexivity]).
    rewrite !andb_false_r. simpl String.eqb. cbv iota.
    unfold test, ToString_or_throw. cbn [convertible ToString bind].
    unfold push_if, push.
    destruct (regex_test PATTERNS_shopifyDomain s); reflexivity. }
  rewrite Heq, <- domain_pattern.
  destruct (regex_test PATTERNS_shopifyDomain s); split; auto;
    split; try discriminate; auto.
Qed.

Lemma email_pattern (s : string) :
  regex_test PATTERNS_email s = true <->
  exists c1 l c2 d t,
    s = String c1 (l ++ String "@" (String c2 (d ++ String "." t))) /\
    local_char c1 = true /\ all_chars local_char l = true /\
    domain_char c2 = true /\ all_chars domain_char d = true /\
    all_chars is_alpha t = true /\ (2 <= String.length t)%nat.
Proof.
  unfold PATTERNS_email, regex_test.
  rewrite match_from_denotes by reflexivity.
  unfold Plus, AtLeast, Chr. cbn [denotes any_char]. split.
  - intros (s1 & s2 & -> & _ & s3 & s4 & -> & Hmid & _).
    destruct Hmid as (s5 & s6 & -> & [-> Hbol] & Hrest).
    apply last_or_None in Hbol. destruct Hbol as [-> _].
    destruct Hrest
      as (a1 & b1 & -> & (x1 & l & -> & (c1 & -> & Hc1) & Hl) & Hrest).
    destruct Hrest as (a2 & b2 & -> & (at_ & -> & Hat) & Hrest).
    destruct Hrest
      as (a3 & b3 & -> & (x3 & d & -> & (c2 & -> & Hc2) & Hd) & Hrest).
    destruct Hrest as (a4 & b4 & -> & (dot & -> & Hdot) & Hrest).
    destruct Hrest
      as (a5 & b5 & -> & (t1 & t2 & -> & [Ht1 Hlen] & Ht2) & -> & Heol).
    apply head_or_None in Heol. subst s4.
    unfold is_char in Hat, Hdot.
    apply Ascii.eqb_eq in Hat. apply Ascii.eqb_eq in Hdot. subst at_ dot.
    exists c1, l, c2, d, (t1 ++ t2). simpl.
    rewrite !append_nil_r.
    split; [reflexivity |].
    rewrite all_chars_app, length_app, Ht1, Ht2.
    repeat split; try assumption. lia.
  - intros (c1 & l & c2 & d & t & -> & Hc1 & Hl & Hc2 & Hd & Ht & Hlen).
    destruct (split_at 2 t Hlen) as (t1 & t2 & -> & Ht1).
    rewrite all_chars_app in Ht. apply andb_true_iff in Ht.
    set (whole := String c1 (l ++ String "@" (String c2 (d ++ String "." (t1 ++ t2))))).
    exists "", whole. split; [reflexivity |]. split; [reflexivity |].
    exists whole, "". split; [now rewrite append_nil_r |]. split; [| reflexivity].
    exists "", whole. split; [reflexivity |]. split; [auto |].
    exists (String c1 l), (String "@" (String c2 (d ++ String "." (t1 ++ t2)))).
    split; [unfold whole; simpl; reflexivity |]. split.
    { exists (String c1 ""), l. split; [reflexivity |]. split; [eauto | exact Hl]. }
    exists (String "@" ""), (String c2 (d ++ String "." (t1 ++ t2))).
    split; [reflexivity |]. split; [exists "@"%char; auto |].
    exists (String c2 d), (String "." (t1 ++ t2)).
    split; [reflexivity |]. split.
    { exists (String c2 ""), d. split; [reflexivity |]. split; [eauto | exact Hd]. }
    exists (String "." ""), (t1 ++ t2).
    split; [reflexivity |]. split; [exists "."%char; auto |].
    exists (t1 ++ t2), "". split; [now rewrite append_nil_r |]. split; [| auto].
    exists t1, t2. split; [reflexivity |]. split; [split; [tauto | lia] | tauto].
Qed.

(** X5.  What the validator accepts as an email address: a string that is
    not empty passes the validation of type email with no error exactly
    when it is made of a part before an at sign, of one or more letters,
    digits, dots, underscores, percent signs, plus signs and hyphens; the
    at sign; one or more letters, digits, dots and hyphens; a dot; and, up
    to the end, two or more letters.  Otherwise the one error is
    "Invalid email format". *)
Theorem email_accepted (s : string) (options : Options) :
  s <> "" ->
  (validateInput (VStr s) "email" options = Ok [] <->
   exists c1 l c2 d t,
     s = String c1 (l ++ String "@" (String c2 (d ++ String "." t))) /\
     local_char c1 = true /\ all_chars local_char l = true /\
     domain_char c2 = true /\ all_chars domain_char d = true /\
     all_chars is_alpha t = true /\ (2 <= String.length t)%nat) /\
  (validateInput (VStr s) "email" options = Ok [] \/
   validateInput (VStr s) "email" options = Ok ["Invalid email format"]).
Proof.
  intros Hs.
  assert (Heq : validateInput (VStr s) "email" options
                = Ok (if regex_test PATTERNS_email s then []
                      else ["Invalid email format"])).
  { unfold validateInput.
    replace (is_nullish (VStr s) || is_empty_string (VStr s)) with false
      by (destruct s; [contradiction | reflexivity]).
    rewrite !andb_false_r. simpl String.eqb. cbv iota.
    unfold test, ToString_or_throw. cbn [convertible ToString bind].
    unfold push_if, push.
    destruct (regex_test PATTERNS_email s); reflexivity. }
  rewrite Heq, <- email_pattern.
  destruct (regex_test PATTERNS_email s); split; auto;
    split; try discriminate; auto.
Qed.

Lemma email_accepted_witness :
  validateInput (VStr "john.doe@example.com") "email" no_options = Ok [].
Proof.
  apply (proj1 (email_accepted "john.doe@example.com" no_options
                  ltac:(discriminate))).
  exists "j"%char, "ohn.doe", "e"%char, "xample", "com".
  repeat split. simpl. lia.
Defined.

Lemma token_accepted_witness :
  validateInput (VStr "abc-1234.def_5") "token" no_options = Ok [] /\
  (exists out,
     sanitizeInput (H := rejecting_host) (VStr " tok#en 1234.5 ") "token"
       no_options = Ok (VStr out) /\
     (validateInput (VStr out) "token" no_options = Ok [] <->
      (10 <= String.length out)%nat \/
      out = "" /\ required no_options = false)).
Proof.
  split.
  - apply (proj1 (token_accepted (H := rejecting_host) no_options no_options)
             "abc-1234.def_5"); [discriminate |].
    split; [reflexivity | simpl; lia].
  - apply (proj2 (token_accepted (H := rejecting_host) no_options no_options)
             (VStr " tok#en 1234.5 ")); reflexivity.
Defined.

Lemma shopify_domain_accepted_witness :
  validateInput (VStr "a.myshopify.com") "shopifyDomain" no_options
  = Ok ["Invalid Shopify domain format"].
Proof.
  destruct (shopify_domain_accepted "a.myshopify.com" no_options)
    as [Hiff [Hok | Hbad]]; [discriminate | | exact Hbad].
  exfalso. apply Hiff in Hok.
  destruct Hok as (c1 & mid & c2 & E & _).
  injection E as _ E.
  assert (Hlen : String.length ".myshopify.com"
                 = String.length (mid ++ String c2 ".myshopify.com"))
    by (rewrite <- E; reflexivity).
  rewrite length_app in Hlen. simpl in Hlen. lia.
Defined.

End PatternExtras.
